(** * Offline download manager of the hymn mobile client

    A shallow embedding of the download manager that lives in
    [apps/mobile/src/screens/downloads/DownloadsScreen.tsx]
    ([downloadSong], [deleteSong], [clearAllDownloads],
    [getDownloadSettings] and their helpers, [initializeDownloadManager]
    and [isOnline]) and of the handlers of the two screens that sit on it
    (the downloads screen in the same file, the settings screen in
    [apps/mobile/src/screens/auth/ForgotPasswordScreen.tsx]), followed by
    the properties of it that the specification states and by further
    properties of the same code.

    The manager is asynchronous TypeScript over four collaborators
    (AsyncStorage, expo-file-system, expo-network, expo-notifications).
    It is embedded as a state-and-exception monad over a [World] that holds
    the persistent store and the local file store; what the collaborators
    answer is fixed by an [Env].  Every [await] of the source is one monadic
    bind, every [try]/[catch] one [try_catch].

    What the embedding takes for granted:
    - one call runs alone, and during it a collaborator answers the same
      question the same way (an [Env] is fixed per call, and may differ
      from one call to the next); in particular the reads of one storage
      item during a call all succeed or all fail, and a property that would
      not outlive reads that answer differently is stated for an item that
      can be read;
    - the two AsyncStorage items hold JSON text written by [JSON.stringify];
      they are kept as the data that text denotes;
    - byte sizes are integers; only the progress fraction of the audio
      transfer is not, and it is kept as an exact rational;
    - a transfer that fails leaves no file at its destination;
    - [progressCallback] observes: it records the event and returns;
    - the state of a screen is what its [useState] cells hold, and the
      updates a handler queues are applied in the order it queues them. *)

From Stdlib Require Import ZArith QArith Qminmax String Ascii List Bool Lia.
From stdpp Require Import gmap strings list.

Open Scope string_scope.
Open Scope list_scope.
Open Scope Z_scope.

(** ** JavaScript values the manager looks at *)

(** What a [throw] or a rejected promise carries.  The source only ever asks
    [error instanceof Error] and reads [error.message]. *)
Inductive exn :=
| Error (message : string)
| TypeError (message : string)
| NotAnError.

Definition instanceof_Error (error : exn) : bool :=
  match error with
  | Error _ | TypeError _ => true
  | NotAnError => false
  end.

Definition message (error : exn) : string :=
  match error with
  | Error m | TypeError m => m
  | NotAnError => ""
  end.

(** [error instanceof Error ? error.message : fallback] *)
Definition message_or (fallback : string) (error : exn) : string :=
  if instanceof_Error error then message error else fallback.

(** Truthiness of an optional string, number and boolean. *)
Definition truthy_string (s : option string) : bool :=
  match s with
  | Some s => negb (String.eqb s "")
  | None => false
  end.

Definition truthy_number (n : option Z) : bool :=
  match n with
  | Some n => negb (n =? 0)
  | None => false
  end.

Definition truthy_bool (b : option bool) : bool :=
  match b with
  | Some b => b
  | None => false
  end.

(** [s.split(sep)] for a one-character separator, and [.pop()] on its
    result. *)
Fixpoint split (sep : ascii) (s : string) : list string :=
  match s with
  | EmptyString => [EmptyString]
  | String c s' =>
      if Ascii.eqb c sep then EmptyString :: split sep s'
      else match split sep s' with
           | piece :: pieces => String c piece :: pieces
           | [] => [String c EmptyString]
           end
  end.

Definition pop (pieces : list string) : option string := last pieces.

(** [x || fallback] on strings. *)
Definition or_string (x : option string) (fallback : string) : string :=
  match x with
  | Some s => if String.eqb s "" then fallback else s
  | None => fallback
  end.

(** ** Types of the manager *)

Module Sizes.
Record t := mk { lyrics : option Z; audio : option Z; notation : option Z }.
End Sizes.

Module DownloadableSong.
(** [id] and [title] are declared as strings; at run time they can be
    missing, which is what the validation of [downloadSong] tests. *)
Record t := mk {
  id : option string;
  number : Z;
  title : option string;
  lyricsUrl : option string;
  audioUrl : option string;
  notationUrl : option string;
  size : option Sizes.t;
}.
End DownloadableSong.

Module Artifact.
Record t := mk { localUri : string; size : Z }.
End Artifact.

Module DownloadedSong.
Record t := mk {
  id : string;
  number : Z;
  title : string;
  downloadDate : string;
  lyrics : option Artifact.t;
  audio : option Artifact.t;
  notation : option Artifact.t;
  totalSize : Z;
}.
End DownloadedSong.

Inductive Status := pending | downloading | completed | failed.

Module DownloadProgress.
(** [progress] is a fraction in the source (a floating point number); it
    is kept exact here. *)
Record t := mk {
  songId : option string;
  progress : Q;
  status : Status;
  error : option string;
}.
End DownloadProgress.

Module DownloadOptions.
Record t := mk {
  includeAudio : option bool;
  includeNotation : option bool;
  showNotification : option bool;
}.
(** The default value [{}] of the [options] parameter. *)
Definition empty : t := mk None None None.
End DownloadOptions.

Module DownloadSettings.
(** A settings object as [JSON.parse] gives it back: any field may be
    missing. *)
Record t := mk {
  maxStorageSize : option Z;
  autoDownloadOnWifi : option bool;
  downloadAudioByDefault : option bool;
  downloadNotationByDefault : option bool;
  notifyOnComplete : option bool;
}.
End DownloadSettings.

Module SettingsUpdate.
(** [Partial<DownloadSettings>] as a caller passes it: a key is not there
    ([None]), there with the value [undefined] ([Some None]), or there with
    a value. *)
Record t := mk {
  maxStorageSize : option (option Z);
  autoDownloadOnWifi : option (option bool);
  downloadAudioByDefault : option (option bool);
  downloadNotationByDefault : option (option bool);
  notifyOnComplete : option (option bool);
}.
End SettingsUpdate.

Definition DEFAULT_SETTINGS : DownloadSettings.t :=
  DownloadSettings.mk (Some (500 * 1024 * 1024)) (Some false) (Some false) (Some false) (Some true).

(** [STORAGE_KEYS] *)
Inductive StorageKey := DOWNLOADED_SONGS | DOWNLOAD_SETTINGS.

(** ** Collaborators *)

Module NetworkState.
Record t := mk { isConnected : option bool }.
End NetworkState.

(** What the collaborators answer during one call.  A field named
    [..._rejects] gives the exception with which that call fails, if it
    does. *)
Record Env := {
  documentDirectory : string;
  (** [new Date().toISOString()] *)
  now : string;
  getNetworkStateAsync : exn + NetworkState.t;
  (** [FileSystem.downloadAsync(url, _)]: the number of bytes saved, by url *)
  downloadAsync : string -> exn + Z;
  (** [downloadResumable.downloadAsync()], which can also resolve to
      [undefined], and the [(totalBytesWritten, totalBytesExpectedToWrite)]
      pairs the transport reports meanwhile *)
  resumable_downloadAsync : string -> exn + option Z;
  resumable_progress : string -> list (Z * Z);
  getInfoAsync_rejects : string -> option exn;
  deleteAsync_rejects : string -> option exn;
  (** [AsyncStorage.getItem(key)] followed by [JSON.parse] *)
  getItem_rejects : StorageKey -> option exn;
  setItem_rejects : StorageKey -> option exn;
  (** [None] when expo-notifications is not installed; otherwise whether
      [scheduleNotificationAsync] fails *)
  Notifications : option (option exn);
}.

(** The mutable world.  The two AsyncStorage items are kept as the data
    their JSON text denotes ([None]: no item under that key); [files] maps
    a local uri to the size of the file there.  [events], [console] and
    [notifications] record what was passed to [progressCallback], the labels
    given to [console.error], and the notifications scheduled. *)
Record World := {
  downloaded_songs : option (list DownloadedSong.t);
  download_settings : option DownloadSettings.t;
  files : gmap string Z;
  events : list DownloadProgress.t;
  console : list string;
  notifications : list (string * string);
}.

Definition set_downloaded_songs (v : option (list DownloadedSong.t)) (w : World) : World :=
  {| downloaded_songs := v; download_settings := download_settings w; files := files w;
     events := events w; console := console w; notifications := notifications w |}.

Definition set_download_settings (v : option DownloadSettings.t) (w : World) : World :=
  {| downloaded_songs := downloaded_songs w; download_settings := v; files := files w;
     events := events w; console := console w; notifications := notifications w |}.

Definition set_files (v : gmap string Z) (w : World) : World :=
  {| downloaded_songs := downloaded_songs w; download_settings := download_settings w; files := v;
     events := events w; console := console w; notifications := notifications w |}.

Definition set_events (v : list DownloadProgress.t) (w : World) : World :=
  {| downloaded_songs := downloaded_songs w; download_settings := download_settings w; files := files w;
     events := v; console := console w; notifications := notifications w |}.

Definition set_console (v : list string) (w : World) : World :=
  {| downloaded_songs := downloaded_songs w; download_settings := download_settings w; files := files w;
     events := events w; console := v; notifications := notifications w |}.

Definition set_notifications (v : list (string * string)) (w : World) : World :=
  {| downloaded_songs := downloaded_songs w; download_settings := download_settings w; files := files w;
     events := events w; console := console w; notifications := v |}.

(** ** The monad: state and exceptions *)

Inductive Completion (A : Type) :=
| Normal (a : A)
| Throw (error : exn).
Arguments Normal {A} a.
Arguments Throw {A} error.

Definition M (S A : Type) : Type := S -> Completion A * S.

Definition ret {S A} (a : A) : M S A := fun s => (Normal a, s).

Definition throw {S A} (error : exn) : M S A := fun s => (Throw error, s).

Definition bind {S A B} (m : M S A) (k : A -> M S B) : M S B :=
  fun s =>
    match m s with
    | (Normal a, s') => k a s'
    | (Throw error, s') => (Throw error, s')
    end.

Definition try_catch {S A} (body : M S A) (handler : exn -> M S A) : M S A :=
  fun s =>
    match body s with
    | (Normal a, s') => (Normal a, s')
    | (Throw error, s') => handler error s'
    end.

Declare Scope js_scope.
Delimit Scope js_scope with js.
Notation "'let!' x ':=' m 'in' k" := (bind m (fun x => k))
  (at level 10, x pattern, m at level 100, k at level 200) : js_scope.
Open Scope js_scope.

(** [for (const x of xs) { await body(x) }] *)
Fixpoint for_of {S A} (xs : list A) (body : A -> M S unit) : M S unit :=
  match xs with
  | [] => ret tt
  | x :: xs' => let! _ := body x in for_of xs' body
  end.

(** [if (c) { await body }] *)
Definition when {S} (c : bool) (body : M S unit) : M S unit :=
  if c then body else ret tt.

(** The frame of one [downloadSong] call: its local [downloadedFiles] next
    to the world. *)
Record Frame := { downloadedFiles : list string; world : World }.

Definition lift {A} (m : M World A) : M Frame A :=
  fun f =>
    match m (world f) with
    | (r, w') => (r, {| downloadedFiles := downloadedFiles f; world := w' |})
    end.

(** [downloadedFiles.push(uri)] *)
Definition push (uri : string) : M Frame unit :=
  fun f => (Normal tt, {| downloadedFiles := downloadedFiles f ++ [uri]; world := world f |}).

Definition get_downloadedFiles : M Frame (list string) :=
  fun f => (Normal (downloadedFiles f), f).

(** [let downloadedFiles = []; try { ... } catch (error) { ... }] *)
Definition in_frame {A} (m : M Frame A) : M World A :=
  fun w =>
    match m {| downloadedFiles := []; world := w |} with
    | (r, f) => (r, world f)
    end.

(** [(info.exists && 'size' in info) ? info.size || 0 : 0], where [info] is
    [None] for a file that does not exist. *)
Definition measured (info : option Z) : Z :=
  match info with
  | Some size => if size =? 0 then 0 else size
  | None => 0
  end.

Definition quote : string := String "034"%char EmptyString.

Section Manager.

Variable env : Env.

(** *** Calls to the collaborators *)

Definition rejecting {S A} (r : option exn) (m : M S A) : M S A :=
  match r with
  | Some error => throw error
  | None => m
  end.

Definition console_error (label : string) : M World unit :=
  fun w => (Normal tt, set_console (console w ++ [label]) w).

Definition AsyncStorage_getItem_songs : M World (option (list DownloadedSong.t)) :=
  rejecting (getItem_rejects env DOWNLOADED_SONGS)
    (fun w => (Normal (downloaded_songs w), w)).

Definition AsyncStorage_getItem_settings : M World (option DownloadSettings.t) :=
  rejecting (getItem_rejects env DOWNLOAD_SETTINGS)
    (fun w => (Normal (download_settings w), w)).

Definition AsyncStorage_setItem_songs (v : list DownloadedSong.t) : M World unit :=
  rejecting (setItem_rejects env DOWNLOADED_SONGS)
    (fun w => (Normal tt, set_downloaded_songs (Some v) w)).

Definition AsyncStorage_setItem_settings (v : DownloadSettings.t) : M World unit :=
  rejecting (setItem_rejects env DOWNLOAD_SETTINGS)
    (fun w => (Normal tt, set_download_settings (Some v) w)).

(** A transfer that fails leaves the destination as it was. *)
Definition FileSystem_downloadAsync (url uri : string) : M World unit :=
  match downloadAsync env url with
  | inl error => throw error
  | inr bytes => fun w => (Normal tt, set_files (<[uri := bytes]> (files w)) w)
  end.

Definition FileSystem_getInfoAsync (uri : string) : M World (option Z) :=
  rejecting (getInfoAsync_rejects env uri)
    (fun w => (Normal (files w !! uri), w)).

(** [FileSystem.deleteAsync(uri, { idempotent: true })] *)
Definition FileSystem_deleteAsync (uri : string) : M World unit :=
  rejecting (deleteAsync_rejects env uri)
    (fun w => (Normal tt, set_files (delete uri (files w)) w)).

Definition DownloadResumable_downloadAsync (url uri : string)
    (callback : Z * Z -> M World unit) : M World (option Z) :=
  let! _ := for_of (resumable_progress env url) callback in
  match resumable_downloadAsync env url with
  | inl error => throw error
  | inr None => ret None
  | inr (Some bytes) => fun w => (Normal (Some bytes), set_files (<[uri := bytes]> (files w)) w)
  end.

Definition Notifications_scheduleNotificationAsync (schedule_rejects : option exn)
    (title body : string) : M World unit :=
  rejecting schedule_rejects
    (fun w => (Normal tt, set_notifications (notifications w ++ [(title, body)]) w)).

(** [progressCallback(p)].  The callback is an observer: calling it records
    [p] and returns. *)
Definition call_progressCallback (p : DownloadProgress.t) : M World unit :=
  fun w => (Normal tt, set_events (events w ++ [p]) w).

(** *** File system directories *)

Definition BASE_DIRECTORY : string := documentDirectory env +:+ "downloads/".
Definition LYRICS_DIRECTORY : string := BASE_DIRECTORY +:+ "lyrics/".
Definition AUDIO_DIRECTORY : string := BASE_DIRECTORY +:+ "audio/".
Definition NOTATION_DIRECTORY : string := BASE_DIRECTORY +:+ "notation/".

(** *** Reading the manifest *)

Definition getDownloadedSongs : M World (list DownloadedSong.t) :=
  try_catch
    (let! data := AsyncStorage_getItem_songs in
     ret (match data with Some songs => songs | None => [] end))
    (fun error =>
       let! _ := console_error "Error getting downloaded songs:" in
       ret []).

Definition isSongDownloaded (songId : string) : M World bool :=
  try_catch
    (let! downloadedSongs := getDownloadedSongs in
     ret (existsb (fun song => String.eqb (DownloadedSong.id song) songId) downloadedSongs))
    (fun error =>
       let! _ := console_error "Error checking if song is downloaded:" in
       ret false).

Definition getDownloadedSong (songId : string) : M World (option DownloadedSong.t) :=
  try_catch
    (let! downloadedSongs := getDownloadedSongs in
     ret (find (fun song => String.eqb (DownloadedSong.id song) songId) downloadedSongs))
    (fun error =>
       let! _ := console_error "Error getting downloaded song:" in
       ret None).

Definition getCurrentStorageUsage : M World Z :=
  try_catch
    (let! downloadedSongs := getDownloadedSongs in
     ret (fold_left (fun total song => total + DownloadedSong.totalSize song) downloadedSongs 0))
    (fun error =>
       let! _ := console_error "Error getting current storage usage:" in
       ret 0).

(** *** Settings *)

Definition getDownloadSettings : M World DownloadSettings.t :=
  try_catch
    (let! settingsData := AsyncStorage_getItem_settings in
     ret (match settingsData with Some settings => settings | None => DEFAULT_SETTINGS end))
    (fun error =>
       let! _ := console_error "Error getting download settings:" in
       ret DEFAULT_SETTINGS).

(** [{ ...currentSettings, ...settings }] of two objects without keys of
    value [undefined], as [JSON.parse] gives them. *)
Definition spread (currentSettings settings : DownloadSettings.t) : DownloadSettings.t :=
  let pick {A} (field : DownloadSettings.t -> option A) :=
    match field settings with
    | Some v => Some v
    | None => field currentSettings
    end in
  DownloadSettings.mk
    (pick DownloadSettings.maxStorageSize)
    (pick DownloadSettings.autoDownloadOnWifi)
    (pick DownloadSettings.downloadAudioByDefault)
    (pick DownloadSettings.downloadNotationByDefault)
    (pick DownloadSettings.notifyOnComplete).

(** [JSON.stringify({ ...currentSettings, ...settings })], as the data that
    text denotes.  A key of [settings] takes the place of the key of
    [currentSettings], also when its value is [undefined]; [JSON.stringify]
    then leaves the key out. *)
Definition stringify_spread (currentSettings : DownloadSettings.t) (settings : SettingsUpdate.t)
  : DownloadSettings.t :=
  let pick {A} (current : option A) (update : option (option A)) : option A :=
    match update with
    | Some value => value
    | None => current
    end in
  DownloadSettings.mk
    (pick (DownloadSettings.maxStorageSize currentSettings)
       (SettingsUpdate.maxStorageSize settings))
    (pick (DownloadSettings.autoDownloadOnWifi currentSettings)
       (SettingsUpdate.autoDownloadOnWifi settings))
    (pick (DownloadSettings.downloadAudioByDefault currentSettings)
       (SettingsUpdate.downloadAudioByDefault settings))
    (pick (DownloadSettings.downloadNotationByDefault currentSettings)
       (SettingsUpdate.downloadNotationByDefault settings))
    (pick (DownloadSettings.notifyOnComplete currentSettings)
       (SettingsUpdate.notifyOnComplete settings)).

Definition updateDownloadSettings (settings : SettingsUpdate.t) : M World bool :=
  try_catch
    (let! currentSettings := getDownloadSettings in
     let updatedSettings := stringify_spread currentSettings settings in
     let! _ := AsyncStorage_setItem_settings updatedSettings in
     ret true)
    (fun error =>
       let! _ := console_error "Error updating download settings:" in
       ret false).

(** *** Quota *)

Definition calculateTotalSize (song : DownloadableSong.t) (options : DownloadOptions.t) : Z :=
  let size_of (field : Sizes.t -> option Z) : option Z :=
    match DownloadableSong.size song with
    | Some size => field size
    | None => None
    end in
  let totalSize := 0 in
  let totalSize :=
    if truthy_number (size_of Sizes.lyrics)
    then totalSize + default 0 (size_of Sizes.lyrics) else totalSize in
  let totalSize :=
    if truthy_bool (DownloadOptions.includeAudio options) && truthy_number (size_of Sizes.audio)
    then totalSize + default 0 (size_of Sizes.audio) else totalSize in
  let totalSize :=
    if truthy_bool (DownloadOptions.includeNotation options) && truthy_number (size_of Sizes.notation)
    then totalSize + default 0 (size_of Sizes.notation) else totalSize in
  totalSize.

(** [currentUsage + totalSize > settings.maxStorageSize]; the comparison
    with a missing [maxStorageSize] is false. *)
Definition exceeds (currentUsage totalSize : Z) (settings : DownloadSettings.t) : bool :=
  match DownloadSettings.maxStorageSize settings with
  | Some maxStorageSize => currentUsage + totalSize >? maxStorageSize
  | None => false
  end.

(** *** downloadSong *)

Definition set_lyrics (a : Artifact.t) (d : DownloadedSong.t) : DownloadedSong.t :=
  DownloadedSong.mk (DownloadedSong.id d) (DownloadedSong.number d) (DownloadedSong.title d)
    (DownloadedSong.downloadDate d) (Some a) (DownloadedSong.audio d)
    (DownloadedSong.notation d) (DownloadedSong.totalSize d).

Definition set_audio (a : Artifact.t) (d : DownloadedSong.t) : DownloadedSong.t :=
  DownloadedSong.mk (DownloadedSong.id d) (DownloadedSong.number d) (DownloadedSong.title d)
    (DownloadedSong.downloadDate d) (DownloadedSong.lyrics d) (Some a)
    (DownloadedSong.notation d) (DownloadedSong.totalSize d).

Definition set_notation (a : Artifact.t) (d : DownloadedSong.t) : DownloadedSong.t :=
  DownloadedSong.mk (DownloadedSong.id d) (DownloadedSong.number d) (DownloadedSong.title d)
    (DownloadedSong.downloadDate d) (DownloadedSong.lyrics d) (DownloadedSong.audio d)
    (Some a) (DownloadedSong.totalSize d).

(** [downloadedSong.totalSize += n] *)
Definition add_totalSize (n : Z) (d : DownloadedSong.t) : DownloadedSong.t :=
  DownloadedSong.mk (DownloadedSong.id d) (DownloadedSong.number d) (DownloadedSong.title d)
    (DownloadedSong.downloadDate d) (DownloadedSong.lyrics d) (DownloadedSong.audio d)
    (DownloadedSong.notation d) (DownloadedSong.totalSize d + n).

(** The string held by a field that was tested to be truthy. *)
Definition the (field : option string) : string := default "" field.

Definition lyricsUri (songId : string) : string :=
  LYRICS_DIRECTORY +:+ (songId +:+ "_lyrics.txt").

Definition audioUri (songId audioUrl : string) : string :=
  let audioExtension := or_string (pop (split "." audioUrl)) "mp3" in
  AUDIO_DIRECTORY +:+ (songId +:+ "_audio." +:+ audioExtension).

Definition notationUri (songId notationUrl : string) : string :=
  let notationExtension := or_string (pop (split "." notationUrl)) "pdf" in
  NOTATION_DIRECTORY +:+ (songId +:+ "_notation." +:+ notationExtension).

(** "Download lyrics (always included)" *)
Definition downloadSong_lyrics (songId : string) (song : DownloadableSong.t)
    (downloadedSong : DownloadedSong.t) : M Frame DownloadedSong.t :=
  if truthy_string (DownloadableSong.lyricsUrl song) then
    let lyricsUri := lyricsUri songId in
    try_catch
      (let! _ := lift (FileSystem_downloadAsync (the (DownloadableSong.lyricsUrl song)) lyricsUri) in
       let! _ := push lyricsUri in
       let! lyricsInfo := lift (FileSystem_getInfoAsync lyricsUri) in
       let downloadedSong :=
         set_lyrics (Artifact.mk lyricsUri (measured lyricsInfo)) downloadedSong in
       ret (add_totalSize (measured lyricsInfo) downloadedSong))
      (fun error =>
         let! _ := lift (console_error "Error downloading lyrics:") in
         throw (Error ("Failed to download lyrics: " +:+ message_or "Unknown error" error)))
  else ret downloadedSong.

(** The progress listener handed to [createDownloadResumable]. *)
Definition audio_listener (songId : option string) (progressCallback : bool)
    (downloadProgress : Z * Z) : M World unit :=
  let '(totalBytesWritten, totalBytesExpectedToWrite) := downloadProgress in
  when (progressCallback && (totalBytesExpectedToWrite >? 0))
    (let progress := (totalBytesWritten # Z.to_pos totalBytesExpectedToWrite)%Q in
     call_progressCallback (DownloadProgress.mk songId (Qmin progress 1) downloading None)).

(** "Download audio if requested" *)
Definition downloadSong_audio (songId : string) (song : DownloadableSong.t)
    (options : DownloadOptions.t) (progressCallback : bool)
    (downloadedSong : DownloadedSong.t) : M Frame DownloadedSong.t :=
  if truthy_bool (DownloadOptions.includeAudio options)
     && truthy_string (DownloadableSong.audioUrl song) then
    let audioUrl := the (DownloadableSong.audioUrl song) in
    let audioUri := audioUri songId audioUrl in
    try_catch
      (let! result :=
         lift (DownloadResumable_downloadAsync audioUrl audioUri
                 (audio_listener (DownloadableSong.id song) progressCallback)) in
       match result with
       | None => throw (Error "Download failed")
       | Some _ =>
           let! _ := push audioUri in
           let! audioInfo := lift (FileSystem_getInfoAsync audioUri) in
           let downloadedSong :=
             set_audio (Artifact.mk audioUri (measured audioInfo)) downloadedSong in
           ret (add_totalSize (measured audioInfo) downloadedSong)
       end)
      (fun error =>
         let! _ := lift (console_error "Error downloading audio:") in
         throw (Error ("Failed to download audio: " +:+ message_or "Unknown error" error)))
  else ret downloadedSong.

(** "Download notation if requested" *)
Definition downloadSong_notation (songId : string) (song : DownloadableSong.t)
    (options : DownloadOptions.t) (downloadedSong : DownloadedSong.t) : M Frame DownloadedSong.t :=
  if truthy_bool (DownloadOptions.includeNotation options)
     && truthy_string (DownloadableSong.notationUrl song) then
    let notationUrl := the (DownloadableSong.notationUrl song) in
    let notationUri := notationUri songId notationUrl in
    try_catch
      (let! _ := lift (FileSystem_downloadAsync notationUrl notationUri) in
       let! _ := push notationUri in
       let! notationInfo := lift (FileSystem_getInfoAsync notationUri) in
       let downloadedSong :=
         set_notation (Artifact.mk notationUri (measured notationInfo)) downloadedSong in
       ret (add_totalSize (measured notationInfo) downloadedSong))
      (fun error =>
         let! _ := lift (console_error "Error downloading notation:") in
         throw (Error ("Failed to download notation: " +:+ message_or "Unknown error" error)))
  else ret downloadedSong.

(** "Save to downloaded songs list", the notification and the last
    progress event. *)
Definition downloadSong_save (song : DownloadableSong.t) (options : DownloadOptions.t)
    (progressCallback : bool) (downloadedSong : DownloadedSong.t)
    : M Frame (option DownloadedSong.t) :=
  let! downloadedSongs := lift getDownloadedSongs in
  let downloadedSongs := downloadedSongs ++ [downloadedSong] in
  let! _ := lift (AsyncStorage_setItem_songs downloadedSongs) in
  let! _ :=
    match truthy_bool (DownloadOptions.showNotification options), Notifications env with
    | true, Some schedule_rejects =>
        try_catch
          (lift (Notifications_scheduleNotificationAsync schedule_rejects
                   "Download Complete"
                   (quote +:+ the (DownloadableSong.title song) +:+ quote
                    +:+ " has been downloaded for offline use.")))
          (fun error => lift (console_error "Error showing notification:"))
    | _, _ => ret tt
    end in
  let! _ :=
    when progressCallback
      (lift (call_progressCallback
               (DownloadProgress.mk (DownloadableSong.id song) 1 completed None))) in
  ret (Some downloadedSong).

(** What [downloadSong] does once the quota check has let the song
    through: the first progress event, the download record, the three
    transfers and the save. *)
Definition downloadSong_admitted (song : DownloadableSong.t) (options : DownloadOptions.t)
    (progressCallback : bool) : M Frame (option DownloadedSong.t) :=
  let songId := the (DownloadableSong.id song) in
  let! _ :=
    when progressCallback
      (lift (call_progressCallback
               (DownloadProgress.mk (DownloadableSong.id song) 0 downloading None))) in
  let downloadedSong :=
    DownloadedSong.mk songId (DownloadableSong.number song) (the (DownloadableSong.title song))
      (now env) None None None 0 in
  let! downloadedSong := downloadSong_lyrics songId song downloadedSong in
  let! downloadedSong := downloadSong_audio songId song options progressCallback downloadedSong in
  let! downloadedSong := downloadSong_notation songId song options downloadedSong in
  downloadSong_save song options progressCallback downloadedSong.

Definition Network_getNetworkStateAsync : M World NetworkState.t :=
  match getNetworkStateAsync env with
  | inl error => throw error
  | inr netInfo => ret netInfo
  end.

(** The [try] block of [downloadSong]. *)
Definition downloadSong_try (song : option DownloadableSong.t) (options : DownloadOptions.t)
    (progressCallback : bool) : M Frame (option DownloadedSong.t) :=
  match song with
  | None => throw (Error "Invalid song data")
  | Some song =>
      if negb (truthy_string (DownloadableSong.id song))
         || negb (truthy_string (DownloadableSong.title song))
      then throw (Error "Invalid song data")
      else
        let! netInfo := lift Network_getNetworkStateAsync in
        if negb (truthy_bool (NetworkState.isConnected netInfo))
        then throw (Error "No internet connection")
        else
          let! isAlreadyDownloaded := lift (isSongDownloaded (the (DownloadableSong.id song))) in
          if isAlreadyDownloaded
          then lift (getDownloadedSong (the (DownloadableSong.id song)))
          else
            let! settingsData := lift AsyncStorage_getItem_settings in
            let settings :=
              match settingsData with
              | Some settings => settings
              | None => DEFAULT_SETTINGS
              end in
            let totalSize := calculateTotalSize song options in
            let! currentUsage := lift getCurrentStorageUsage in
            if exceeds currentUsage totalSize settings
            then throw (Error "Not enough storage space")
            else downloadSong_admitted song options progressCallback
  end.

(** The [catch] block of [downloadSong].  [song.id] is read from the
    [song] argument itself, which throws when there is none. *)
Definition downloadSong_catch (song : option DownloadableSong.t) (progressCallback : bool)
    (error : exn) : M Frame (option DownloadedSong.t) :=
  let! _ := lift (console_error "Error downloading song:") in
  let! downloadedFiles := get_downloadedFiles in
  let! _ :=
    for_of downloadedFiles
      (fun filePath =>
         try_catch
           (lift (FileSystem_deleteAsync filePath))
           (fun cleanupError => lift (console_error "Error cleaning up file:"))) in
  let! _ :=
    when progressCallback
      match song with
      | None => throw (TypeError "Cannot read properties of null (reading 'id')")
      | Some song =>
          lift (call_progressCallback
                  (DownloadProgress.mk (DownloadableSong.id song) 0 failed
                     (Some (message_or "Download failed" error))))
      end in
  ret None.

Definition downloadSong (song : option DownloadableSong.t) (options : DownloadOptions.t)
    (progressCallback : bool) : M World (option DownloadedSong.t) :=
  in_frame
    (try_catch
       (downloadSong_try song options progressCallback)
       (downloadSong_catch song progressCallback)).

(** *** Deleting *)

Definition delete_artifact (artifact : option Artifact.t) : M World unit :=
  match artifact with
  | Some a => FileSystem_deleteAsync (Artifact.localUri a)
  | None => ret tt
  end.

Definition deleteSong (songId : string) : M World bool :=
  try_catch
    (let! downloadedSong := getDownloadedSong songId in
     match downloadedSong with
     | None => ret false
     | Some downloadedSong =>
         let! _ := delete_artifact (DownloadedSong.lyrics downloadedSong) in
         let! _ := delete_artifact (DownloadedSong.audio downloadedSong) in
         let! _ := delete_artifact (DownloadedSong.notation downloadedSong) in
         let! downloadedSongs := getDownloadedSongs in
         let updatedSongs :=
           List.filter (fun song => negb (String.eqb (DownloadedSong.id song) songId))
             downloadedSongs in
         let! _ := AsyncStorage_setItem_songs updatedSongs in
         ret true
     end)
    (fun error =>
       let! _ := console_error "Error deleting song:" in
       ret false).

Definition clearAllDownloads : M World bool :=
  try_catch
    (let! downloadedSongs := getDownloadedSongs in
     let! _ :=
       for_of downloadedSongs
         (fun song =>
            let! _ := deleteSong (DownloadedSong.id song) in
            ret tt) in
     let! _ := AsyncStorage_setItem_songs [] in
     ret true)
    (fun error =>
       let! _ := console_error "Error clearing all downloads:" in
       ret false).

End Manager.

(** ** Connectivity and start-up *)

(** [isOnline]; [netInfo.isConnected || false] is the truthiness of
    [isConnected]. *)
Definition isOnline (env : Env) : M World bool :=
  try_catch
    (let! netInfo := Network_getNetworkStateAsync env in
     ret (truthy_bool (NetworkState.isConnected netInfo)))
    (fun error =>
       let! _ := console_error "Error checking online status:" in
       ret false).

(** What [initializeDownloadManager] asks besides: whether making a
    directory or installing the notification handler fails. *)
Record SetupEnv := {
  collaborators : Env;
  makeDirectoryAsync_rejects : string -> option exn;
  setNotificationHandler_rejects : option exn;
}.

(** The world together with the directories of the local file store. *)
Record Device := { directories : gset string; device_world : World }.

Definition on_device {A} (m : M World A) : M Device A :=
  fun s =>
    match m (device_world s) with
    | (r, w') => (r, {| directories := directories s; device_world := w' |})
    end.

(** Something is at [dir]: a directory, or a file. *)
Definition exists_at (s : Device) (dir : string) : bool :=
  bool_decide (dir ∈ directories s) || bool_decide (is_Some (files (device_world s) !! dir)).

(** [(await FileSystem.getInfoAsync(dir)).exists] *)
Definition FileSystem_exists (env : Env) (dir : string) : M Device bool :=
  rejecting (getInfoAsync_rejects env dir) (fun s => (Normal (exists_at s dir), s)).

(** [FileSystem.makeDirectoryAsync(dir, { intermediates: true })].  The
    directories above [dir] that it would make as well are, in the one place
    it is called from, there already or not looked at. *)
Definition FileSystem_makeDirectoryAsync (senv : SetupEnv) (dir : string) : M Device unit :=
  rejecting (makeDirectoryAsync_rejects senv dir)
    (fun s =>
       (Normal tt, {| directories := {[dir]} ∪ directories s; device_world := device_world s |})).

(** [setupNotifications]; the warning it prints without the notification
    module goes to [console.warn], which is not recorded. *)
Definition setupNotifications (senv : SetupEnv) : M Device unit :=
  match Notifications (collaborators senv) with
  | None => ret tt
  | Some _ =>
      try_catch
        (rejecting (setNotificationHandler_rejects senv) (ret tt))
        (fun error => on_device (console_error "Error setting up notifications:"))
  end.

(** [initializeDownloadManager].  [!settings] tests the stored text, which
    is missing exactly when no settings are stored. *)
Definition initializeDownloadManager (senv : SetupEnv) : M Device unit :=
  let env := collaborators senv in
  try_catch
    (let directories :=
       [BASE_DIRECTORY env; LYRICS_DIRECTORY env; AUDIO_DIRECTORY env; NOTATION_DIRECTORY env] in
     let! _ :=
       for_of directories
         (fun dir =>
            let! dirInfo_exists := FileSystem_exists env dir in
            when (negb dirInfo_exists) (FileSystem_makeDirectoryAsync senv dir)) in
     let! settings := on_device (AsyncStorage_getItem_settings env) in
     let! _ :=
       when (negb (bool_decide (is_Some settings)))
         (on_device (AsyncStorage_setItem_settings env DEFAULT_SETTINGS)) in
     let! _ := setupNotifications senv in
     ret tt)
    (fun error =>
       let! _ := on_device (console_error "Error initializing download manager:") in
       throw error).

(** ** The screens that use the manager *)

(** [try { ... } finally { ... }] with a finalizer that does not throw. *)
Definition try_finally {S A} (body : M S A) (finalizer : S -> S) : M S A :=
  fun s =>
    match body s with
    | (r, s') => (r, finalizer s')
    end.

Module ListedSong.
(** The song type of the downloads screen. *)
Record t := mk {
  id : string;
  number : Z;
  title : string;
  author : option string;
  category : option string;
  isFavorite : bool;
  downloadedAt : string;
  fileSize : string;
  filePath : string;
}.
End ListedSong.

Module DownloadsScreen.

(** The state of the screen that the two handlers below update. *)
Record State := { downloads : list ListedSong.t; deletingIds : gset string }.

(** [{ ...song, isFavorite: !song.isFavorite }] *)
Definition flip (song : ListedSong.t) : ListedSong.t :=
  ListedSong.mk (ListedSong.id song) (ListedSong.number song) (ListedSong.title song)
    (ListedSong.author song) (ListedSong.category song) (negb (ListedSong.isFavorite song))
    (ListedSong.downloadedAt song) (ListedSong.fileSize song) (ListedSong.filePath song).

(** [toggleFavorite]: the update it passes to [setDownloads]. *)
Definition toggleFavorite (songId : string) (s : State) : State :=
  {| downloads :=
       map (fun song => if String.eqb (ListedSong.id song) songId then flip song else song)
         (downloads s);
     deletingIds := deletingIds s |}.

(** [deleteDownload], once "Delete" is pressed in its alert: the id is
    marked, the songs of that id are dropped, and in the [finally] block the
    mark is taken away. *)
Definition deleteDownload_onPress (songId : string) (s : State) : State :=
  let s1 := {| downloads := downloads s; deletingIds := {[songId]} ∪ deletingIds s |} in
  let s2 :=
    {| downloads :=
         List.filter (fun song => negb (String.eqb (ListedSong.id song) songId)) (downloads s1);
       deletingIds := deletingIds s1 |} in
  {| downloads := downloads s2; deletingIds := deletingIds s2 ∖ {[songId]} |}.

End DownloadsScreen.

Module SettingsScreen.

Record StorageUsage := { used : Z; total : Z; songCount : Z }.

(** The part of the screen's state that the two handlers below read or
    write, and the alerts shown (title and message). *)
Record State := {
  isLoading : bool;
  autoDownloadOnWifi : bool;
  downloadAudio : bool;
  downloadNotation : bool;
  notificationsEnabled : bool;
  storageUsage : StorageUsage;
  alerts : list (string * string);
}.

Record Screen := { ui : State; device : World }.

Definition on_device {A} (m : M World A) : M Screen A :=
  fun s =>
    match m (device s) with
    | (r, w') => (r, {| ui := ui s; device := w' |})
    end.

Definition set_ui (update : State -> State) : M Screen unit :=
  fun s => (Normal tt, {| ui := update (ui s); device := device s |}).

Definition setIsLoading (v : bool) (s : State) : State :=
  {| isLoading := v; autoDownloadOnWifi := autoDownloadOnWifi s;
     downloadAudio := downloadAudio s; downloadNotation := downloadNotation s;
     notificationsEnabled := notificationsEnabled s; storageUsage := storageUsage s;
     alerts := alerts s |}.

Definition setAutoDownloadOnWifi (v : bool) (s : State) : State :=
  {| isLoading := isLoading s; autoDownloadOnWifi := v;
     downloadAudio := downloadAudio s; downloadNotation := downloadNotation s;
     notificationsEnabled := notificationsEnabled s; storageUsage := storageUsage s;
     alerts := alerts s |}.

Definition setDownloadAudio (v : bool) (s : State) : State :=
  {| isLoading := isLoading s; autoDownloadOnWifi := autoDownloadOnWifi s;
     downloadAudio := v; downloadNotation := downloadNotation s;
     notificationsEnabled := notificationsEnabled s; storageUsage := storageUsage s;
     alerts := alerts s |}.

Definition setDownloadNotation (v : bool) (s : State) : State :=
  {| isLoading := isLoading s; autoDownloadOnWifi := autoDownloadOnWifi s;
     downloadAudio := downloadAudio s; downloadNotation := v;
     notificationsEnabled := notificationsEnabled s; storageUsage := storageUsage s;
     alerts := alerts s |}.

Definition setNotificationsEnabled (v : bool) (s : State) : State :=
  {| isLoading := isLoading s; autoDownloadOnWifi := autoDownloadOnWifi s;
     downloadAudio := downloadAudio s; downloadNotation := downloadNotation s;
     notificationsEnabled := v; storageUsage := storageUsage s;
     alerts := alerts s |}.

Definition setStorageUsage (update : StorageUsage -> StorageUsage) (s : State) : State :=
  {| isLoading := isLoading s; autoDownloadOnWifi := autoDownloadOnWifi s;
     downloadAudio := downloadAudio s; downloadNotation := downloadNotation s;
     notificationsEnabled := notificationsEnabled s; storageUsage := update (storageUsage s);
     alerts := alerts s |}.

(** [Alert.alert(title, message)] *)
Definition Alert_alert (title message : string) (s : State) : State :=
  {| isLoading := isLoading s; autoDownloadOnWifi := autoDownloadOnWifi s;
     downloadAudio := downloadAudio s; downloadNotation := downloadNotation s;
     notificationsEnabled := notificationsEnabled s; storageUsage := storageUsage s;
     alerts := alerts s ++ [(title, message)] |}.

Inductive Setting := autoDownloadOnWifi_ | downloadAudio_ | downloadNotation_ | notifications_.

(** The name of a setting as the screen writes it. *)
Definition setting_name (setting : Setting) : string :=
  match setting with
  | autoDownloadOnWifi_ => "autoDownloadOnWifi"
  | downloadAudio_ => "downloadAudio"
  | downloadNotation_ => "downloadNotation"
  | notifications_ => "notifications"
  end.

(** The partial settings object each case passes on. *)
Definition setting_update (setting : Setting) (value : bool) : SettingsUpdate.t :=
  match setting with
  | autoDownloadOnWifi_ => SettingsUpdate.mk None (Some (Some value)) None None None
  | downloadAudio_ => SettingsUpdate.mk None None (Some (Some value)) None None
  | downloadNotation_ => SettingsUpdate.mk None None None (Some (Some value)) None
  | notifications_ => SettingsUpdate.mk None None None None (Some (Some value))
  end.

Definition handleDownloadSettingChange (env : Env) (setting : Setting) (value : bool)
  : M Screen unit :=
  try_catch
    match setting with
    | autoDownloadOnWifi_ =>
        let! _ := set_ui (setAutoDownloadOnWifi value) in
        let! _ := on_device (updateDownloadSettings env (setting_update autoDownloadOnWifi_ value)) in
        ret tt
    | downloadAudio_ =>
        let! _ := set_ui (setDownloadAudio value) in
        let! _ := on_device (updateDownloadSettings env (setting_update downloadAudio_ value)) in
        ret tt
    | downloadNotation_ =>
        let! _ := set_ui (setDownloadNotation value) in
        let! _ := on_device (updateDownloadSettings env (setting_update downloadNotation_ value)) in
        ret tt
    | notifications_ =>
        let! _ := set_ui (setNotificationsEnabled value) in
        let! _ := on_device (updateDownloadSettings env (setting_update notifications_ value)) in
        ret tt
    end
    (fun error =>
       let! _ := on_device (console_error ("Error updating " +:+ setting_name setting +:+ ":")) in
       set_ui (Alert_alert "Error"
                 ("Failed to update " +:+ setting_name setting +:+ " setting."))).

(** [handleClearDownloads], once "Clear All" is pressed in its alert. *)
Definition handleClearDownloads_onPress (env : Env) : M Screen unit :=
  try_finally
    (try_catch
       (let! _ := set_ui (setIsLoading true) in
        let! success := on_device (clearAllDownloads env) in
        if success
        then
          let! _ :=
            set_ui (setStorageUsage
                      (fun prev => {| used := 0; total := total prev; songCount := 0 |})) in
          set_ui (Alert_alert "Success" "All downloads have been cleared.")
        else throw (Error "Failed to clear downloads"))
       (fun error =>
          let! _ := on_device (console_error "Error clearing downloads:") in
          set_ui (Alert_alert "Error" "Failed to clear downloads. Please try again.")))
    (fun s => {| ui := setIsLoading false (ui s); device := device s |}).

End SettingsScreen.

(** ** Vocabulary for the properties *)

Definition has_id (songId : string) (song : DownloadedSong.t) : bool :=
  String.eqb (DownloadedSong.id song) songId.

Definition other_than (songId : string) (song : DownloadedSong.t) : bool :=
  negb (String.eqb (DownloadedSong.id song) songId).

(** The manifest as it is stored, and as [getDownloadedSongs] lists it: a
    read that fails lists nothing. *)
Definition stored (w : World) : list DownloadedSong.t := default [] (downloaded_songs w).

Definition listed (env : Env) (w : World) : list DownloadedSong.t :=
  match getItem_rejects env DOWNLOADED_SONGS with
  | Some _ => []
  | None => stored w
  end.

Definition logged (label : string) (w : World) : World :=
  set_console (console w ++ [label]) w.

Definition reported (ps : list DownloadProgress.t) (w : World) : World :=
  set_events (events w ++ ps) w.

(** The world after [getDownloadedSongs]: a failed read is logged. *)
Definition after_listing (env : Env) (w : World) : World :=
  match getItem_rejects env DOWNLOADED_SONGS with
  | Some _ => logged "Error getting downloaded songs:" w
  | None => w
  end.

(** [currentUsage] of a list of entries. *)
Definition usage (songs : list DownloadedSong.t) : Z :=
  fold_left (fun total song => total + DownloadedSong.totalSize song) songs 0.

(** The settings [downloadSong] works with when its read succeeds. *)
Definition settings_read (w : World) : DownloadSettings.t :=
  match download_settings w with
  | Some settings => settings
  | None => DEFAULT_SETTINGS
  end.

Definition songId_of (song : DownloadableSong.t) : string := the (DownloadableSong.id song).

(** [song.id] and [song.title] are present. *)
Definition valid (song : DownloadableSong.t) : bool :=
  truthy_string (DownloadableSong.id song) && truthy_string (DownloadableSong.title song).

(** The network answers, and reports a connection. *)
Definition connected (env : Env) : bool :=
  match getNetworkStateAsync env with
  | inr netInfo => truthy_bool (NetworkState.isConnected netInfo)
  | inl _ => false
  end.

(** The events a callback is given at the start, at the end, and on failure;
    none when no callback was passed. *)
Definition start_report (song : DownloadableSong.t) (progressCallback : bool)
  : list DownloadProgress.t :=
  if progressCallback
  then [DownloadProgress.mk (DownloadableSong.id song) 0 downloading None]
  else [].

Definition completion_report (song : DownloadableSong.t) (progressCallback : bool)
  : list DownloadProgress.t :=
  if progressCallback
  then [DownloadProgress.mk (DownloadableSong.id song) 1 completed None]
  else [].

Definition failure_report (song : DownloadableSong.t) (progressCallback : bool) (msg : string)
  : list DownloadProgress.t :=
  if progressCallback
  then [DownloadProgress.mk (DownloadableSong.id song) 0 failed (Some msg)]
  else [].

(** What the audio listener reports for the transport's ticks. *)
Definition audio_events (songId : option string) (progressCallback : bool)
    (ticks : list (Z * Z)) : list DownloadProgress.t :=
  flat_map
    (fun tick : Z * Z =>
       let '(written, expected) := tick in
       if progressCallback && (expected >? 0)
       then [DownloadProgress.mk songId (Qmin (written # Z.to_pos expected) 1) downloading None]
       else [])
    ticks.

(** The world after the clean-up loop of the [catch] block over [paths]. *)
Fixpoint cleaned (env : Env) (paths : list string) (w : World) : World :=
  match paths with
  | [] => w
  | p :: paths' =>
      cleaned env paths'
        match deleteAsync_rejects env p with
        | Some _ => logged "Error cleaning up file:" w
        | None => set_files (delete p (files w)) w
        end
  end.

Definition in_world (f : Frame) (w : World) : Frame :=
  {| downloadedFiles := downloadedFiles f; world := w |}.

Definition new_frame (w : World) : Frame := {| downloadedFiles := []; world := w |}.

(** The frame after a transfer to [uri] was saved and pushed. *)
Definition saved (uri : string) (bytes : Z) (f : Frame) : Frame :=
  {| downloadedFiles := downloadedFiles f ++ [uri];
     world := set_files (<[uri := bytes]> (files (world f))) (world f) |}.

(** The error an artifact block rethrows. *)
Definition failed_to (what : string) (error : exn) : exn :=
  Error ("Failed to download " +:+ what +:+ ": " +:+ message_or "Unknown error" error).

(** The world after the notification step. *)
Definition notified (env : Env) (song : DownloadableSong.t) (options : DownloadOptions.t)
    (w : World) : World :=
  match truthy_bool (DownloadOptions.showNotification options), Notifications env with
  | true, Some None =>
      set_notifications
        (notifications w ++
           [("Download Complete",
             quote +:+ the (DownloadableSong.title song) +:+ quote
             +:+ " has been downloaded for offline use.")]) w
  | true, Some (Some _) => logged "Error showing notification:" w
  | _, _ => w
  end.

(** The record with which the transfers start. *)
Definition download_record (env : Env) (song : DownloadableSong.t) : DownloadedSong.t :=
  DownloadedSong.mk (songId_of song) (DownloadableSong.number song)
    (the (DownloadableSong.title song)) (now env) None None None 0.

(** *** The invariant on [totalSize] *)

Definition size_of (artifact : option Artifact.t) : Z :=
  match artifact with
  | Some a => Artifact.size a
  | None => 0
  end.

Definition consistent (d : DownloadedSong.t) : Prop :=
  DownloadedSong.totalSize d
  = size_of (DownloadedSong.lyrics d) + size_of (DownloadedSong.audio d)
    + size_of (DownloadedSong.notation d).

Definition manifest_consistent (w : World) : Prop := Forall consistent (stored w).

(** *** Transfers that fail *)

Definition lyrics_transfer_fails (env : Env) (song : DownloadableSong.t) : bool :=
  truthy_string (DownloadableSong.lyricsUrl song)
  && match downloadAsync env (the (DownloadableSong.lyricsUrl song)) with
     | inl _ => true
     | inr _ => false
     end.

Definition audio_transfer_fails (env : Env) (song : DownloadableSong.t)
    (options : DownloadOptions.t) : bool :=
  truthy_bool (DownloadOptions.includeAudio options)
  && truthy_string (DownloadableSong.audioUrl song)
  && match resumable_downloadAsync env (the (DownloadableSong.audioUrl song)) with
     | inr (Some _) => false
     | _ => true
     end.

Definition notation_transfer_fails (env : Env) (song : DownloadableSong.t)
    (options : DownloadOptions.t) : bool :=
  truthy_bool (DownloadOptions.includeNotation options)
  && truthy_string (DownloadableSong.notationUrl song)
  && match downloadAsync env (the (DownloadableSong.notationUrl song)) with
     | inl _ => true
     | inr _ => false
     end.

(** Some requested artifact's transfer fails. *)
Definition transfer_fails (env : Env) (song : DownloadableSong.t)
    (options : DownloadOptions.t) : bool :=
  lyrics_transfer_fails env song || audio_transfer_fails env song options
  || notation_transfer_fails env song options.

(** [f'] comes after [f] in one call: the stores are as they were, and every
    file that differs is listed in [downloadedFiles]. *)
Definition grows (f f' : Frame) : Prop :=
  downloaded_songs (world f') = downloaded_songs (world f)
  ∧ download_settings (world f') = download_settings (world f)
  ∧ (∀ p, p ∈ downloadedFiles f → p ∈ downloadedFiles f')
  ∧ (∀ p, p ∈ downloadedFiles f' ∨ files (world f') !! p = files (world f) !! p).

(** What a run of [downloadSong_admitted] from [f] leaves behind. *)
Definition admitted_post (env : Env) (song : DownloadableSong.t) (options : DownloadOptions.t)
    (f : Frame) (r : Completion (option DownloadedSong.t)) (f' : Frame) : Prop :=
  match r with
  | Throw _ => grows f f'
  | Normal x =>
      ∃ d f1, x = Some d ∧ grows f f1
        ∧ transfer_fails env song options = false
        ∧ setItem_rejects env DOWNLOADED_SONGS = None
        ∧ downloaded_songs (world f') = Some (listed env (world f) ++ [d])
        ∧ download_settings (world f') = download_settings (world f)
        ∧ files (world f') = files (world f1)
        ∧ downloadedFiles f' = downloadedFiles f1
        ∧ DownloadedSong.id d = songId_of song
        ∧ consistent d
  end.

(** *** Quota *)

(** The advisory size of one artifact kind, [0] when it is not declared. *)
Definition advisory (field : Sizes.t -> option Z) (song : DownloadableSong.t) : Z :=
  match DownloadableSong.size song with
  | Some size => default 0 (field size)
  | None => 0
  end.

(** The candidate size in the specification's words: lyrics always, audio
    and notation only when requested. *)
Definition candidateSize (song : DownloadableSong.t) (options : DownloadOptions.t) : Z :=
  advisory Sizes.lyrics song
  + (if truthy_bool (DownloadOptions.includeAudio options) then advisory Sizes.audio song else 0)
  + (if truthy_bool (DownloadOptions.includeNotation options)
     then advisory Sizes.notation song else 0).

Definition over_quota (currentUsage candidate : Z) (settings : DownloadSettings.t) : Prop :=
  ∃ maxStorageSize,
    DownloadSettings.maxStorageSize settings = Some maxStorageSize
    ∧ currentUsage + candidate > maxStorageSize.

(** *** Manifest entries and deletion *)

(** The number of entries with a given id. *)
Definition entries_for (songId : string) (songs : list DownloadedSong.t) : nat :=
  length (List.filter (has_id songId) songs).

Definition deletion_rejects (env : Env) (artifact : option Artifact.t) : bool :=
  match artifact with
  | Some a =>
      match deleteAsync_rejects env (Artifact.localUri a) with
      | Some _ => true
      | None => false
      end
  | None => false
  end.

Definition without (artifact : option Artifact.t) (fs : gmap string Z) : gmap string Z :=
  match artifact with
  | Some a => delete (Artifact.localUri a) fs
  | None => fs
  end.

(** The loop of [clearAllDownloads]. *)
Definition sweep (env : Env) (songs : list DownloadedSong.t) : M World unit :=
  for_of songs (fun song => let! _ := deleteSong env (DownloadedSong.id song) in ret tt).

(** *** Settings *)

(** The specification's reading of [getDownloadSettings]: the stored object
    spread over the defaults. *)
Definition merged_with_defaults (storedSettings : DownloadSettings.t) : DownloadSettings.t :=
  spread DEFAULT_SETTINGS storedSettings.

Definition complete (settings : DownloadSettings.t) : Prop :=
  is_Some (DownloadSettings.maxStorageSize settings)
  ∧ is_Some (DownloadSettings.autoDownloadOnWifi settings)
  ∧ is_Some (DownloadSettings.downloadAudioByDefault settings)
  ∧ is_Some (DownloadSettings.downloadNotationByDefault settings)
  ∧ is_Some (DownloadSettings.notifyOnComplete settings).

(** ** Scenarios

    Concrete collaborators, songs and worlds, after the scenarios of the
    specification: a quota of 1000 bytes, a song A of 100 bytes that is
    already downloaded, a song B of 950 bytes, a song C whose audio transfer
    breaks, and a song D that has nothing to transfer. *)

Definition scenario_env (isConnected : bool) (delete_rejects : option exn) : Env :=
  {| documentDirectory := "file:///data/";
     now := "2024-05-01T10:00:00.000Z";
     getNetworkStateAsync := inr (NetworkState.mk (Some isConnected));
     downloadAsync := fun url =>
       if String.eqb url "https://hymns.example/a.txt" then inr 100
       else if String.eqb url "https://hymns.example/b.txt" then inr 950
       else if String.eqb url "https://hymns.example/c.txt" then inr 40
       else inl (Error "Network request failed");
     resumable_downloadAsync := fun url => inl (Error "stream closed");
     resumable_progress := fun url => [(512, 2048)];
     getInfoAsync_rejects := fun uri => None;
     deleteAsync_rejects := fun uri => delete_rejects;
     getItem_rejects := fun key => None;
     setItem_rejects := fun key => None;
     Notifications := None |}.

Definition env_online : Env := scenario_env true None.
Definition env_offline : Env := scenario_env false None.
Definition env_locked : Env := scenario_env true (Some (Error "EACCES")).

(** The same collaborators as online, with a manifest that cannot be
    written. *)
Definition env_unwritable : Env :=
  {| documentDirectory := documentDirectory env_online;
     now := now env_online;
     getNetworkStateAsync := getNetworkStateAsync env_online;
     downloadAsync := downloadAsync env_online;
     resumable_downloadAsync := resumable_downloadAsync env_online;
     resumable_progress := resumable_progress env_online;
     getInfoAsync_rejects := getInfoAsync_rejects env_online;
     deleteAsync_rejects := deleteAsync_rejects env_online;
     getItem_rejects := getItem_rejects env_online;
     setItem_rejects := fun key =>
       match key with
       | DOWNLOADED_SONGS => Some (Error "database or disk is full")
       | DOWNLOAD_SETTINGS => None
       end;
     Notifications := Notifications env_online |}.

Definition song_A : DownloadableSong.t :=
  DownloadableSong.mk (Some "A") 1 (Some "Amazing Grace")
    (Some "https://hymns.example/a.txt") None None (Some (Sizes.mk (Some 100) None None)).

Definition song_B : DownloadableSong.t :=
  DownloadableSong.mk (Some "B") 2 (Some "Be Thou My Vision")
    (Some "https://hymns.example/b.txt") None None (Some (Sizes.mk (Some 950) None None)).

Definition song_C : DownloadableSong.t :=
  DownloadableSong.mk (Some "C") 3 (Some "Come Thou Fount")
    (Some "https://hymns.example/c.txt") (Some "https://hymns.example/c.mp3") None None.

Definition song_D : DownloadableSong.t :=
  DownloadableSong.mk (Some "D") 4 (Some "Doxology") None None None None.

Definition with_audio : DownloadOptions.t := DownloadOptions.mk (Some true) None None.

Definition entry_A : DownloadedSong.t :=
  DownloadedSong.mk "A" 1 "Amazing Grace" "2024-04-30T08:00:00.000Z"
    (Some (Artifact.mk "file:///data/downloads/lyrics/A_lyrics.txt" 100)) None None 100.

Definition quota_1000 : DownloadSettings.t :=
  DownloadSettings.mk (Some 1000) (Some false) (Some false) (Some false) (Some true).

Definition only_quota : DownloadSettings.t :=
  DownloadSettings.mk (Some 1000) None None None None.

Definition empty_world : World :=
  {| downloaded_songs := None; download_settings := None; files := ∅;
     events := []; console := []; notifications := [] |}.

Definition world_A : World :=
  {| downloaded_songs := Some [entry_A]; download_settings := Some quota_1000;
     files := {[ "file:///data/downloads/lyrics/A_lyrics.txt" := 100 ]};
     events := []; console := []; notifications := [] |}.

Definition world_only_quota : World := set_download_settings (Some only_quota) empty_world.

(** ** Vocabulary for the properties of the settings, the entries, the
    start-up and the screens *)

(** What [getDownloadSettings] answers in [w]. *)
Definition current_settings (env : Env) (w : World) : DownloadSettings.t :=
  match getItem_rejects env DOWNLOAD_SETTINGS with
  | Some _ => DEFAULT_SETTINGS
  | None => settings_read w
  end.

(** Whatever is stored under the settings key has all five fields. *)
Definition settings_complete (w : World) : Prop :=
  match download_settings w with
  | Some settings => complete settings
  | None => True
  end.

(** How a field reads back after an update: as the update gives it, not at
    all when the update gives [undefined] for it, as it was when the update
    does not have it. *)
Definition reads_back {A} (update : option (option A)) (old new : option A) : Prop :=
  match update with
  | Some (Some value) => new = Some value
  | Some None => new = None
  | None => new = old
  end.

(** The update has no key of value [undefined]. *)
Definition without_undefined (settings : SettingsUpdate.t) : Prop :=
  SettingsUpdate.maxStorageSize settings ≠ Some None
  ∧ SettingsUpdate.autoDownloadOnWifi settings ≠ Some None
  ∧ SettingsUpdate.downloadAudioByDefault settings ≠ Some None
  ∧ SettingsUpdate.downloadNotationByDefault settings ≠ Some None
  ∧ SettingsUpdate.notifyOnComplete settings ≠ Some None.

(** Two updates of the scenarios: audio by default, and a quota of value
    [undefined]. *)
Definition update_audio : SettingsUpdate.t :=
  SettingsUpdate.mk None None (Some (Some true)) None None.

Definition update_quota_undefined : SettingsUpdate.t :=
  SettingsUpdate.mk (Some None) None None None None.

(** No two entries of the stored manifest have the same id. *)
Definition unique_ids (w : World) : Prop := NoDup (map DownloadedSong.id (stored w)).

(** The artifacts an entry records. *)
Definition artifacts (d : DownloadedSong.t) : list Artifact.t :=
  option_list (DownloadedSong.lyrics d) ++ option_list (DownloadedSong.audio d)
  ++ option_list (DownloadedSong.notation d).

Definition env_unreadable : Env :=
  {| documentDirectory := documentDirectory env_online;
     now := now env_online;
     getNetworkStateAsync := getNetworkStateAsync env_online;
     downloadAsync := downloadAsync env_online;
     resumable_downloadAsync := resumable_downloadAsync env_online;
     resumable_progress := resumable_progress env_online;
     getInfoAsync_rejects := getInfoAsync_rejects env_online;
     deleteAsync_rejects := deleteAsync_rejects env_online;
     getItem_rejects := fun key =>
       match key with
       | DOWNLOADED_SONGS => Some (Error "JSON Parse error: Unexpected token")
       | DOWNLOAD_SETTINGS => None
       end;
     setItem_rejects := setItem_rejects env_online;
     Notifications := Notifications env_online |}.

(** The sub-records a download that succeeds writes: where each artifact is
    saved, with the number of bytes its transfer gave. *)
Definition lyrics_saved (env : Env) (song : DownloadableSong.t) : option Artifact.t :=
  if truthy_string (DownloadableSong.lyricsUrl song) then
    match downloadAsync env (the (DownloadableSong.lyricsUrl song)) with
    | inr bytes => Some (Artifact.mk (lyricsUri env (songId_of song)) bytes)
    | inl _ => None
    end
  else None.

Definition audio_saved (env : Env) (song : DownloadableSong.t) (options : DownloadOptions.t)
  : option Artifact.t :=
  if truthy_bool (DownloadOptions.includeAudio options)
     && truthy_string (DownloadableSong.audioUrl song) then
    match resumable_downloadAsync env (the (DownloadableSong.audioUrl song)) with
    | inr (Some bytes) =>
        Some (Artifact.mk (audioUri env (songId_of song) (the (DownloadableSong.audioUrl song)))
                bytes)
    | _ => None
    end
  else None.

Definition notation_saved (env : Env) (song : DownloadableSong.t) (options : DownloadOptions.t)
  : option Artifact.t :=
  if truthy_bool (DownloadOptions.includeNotation options)
     && truthy_string (DownloadableSong.notationUrl song) then
    match downloadAsync env (the (DownloadableSong.notationUrl song)) with
    | inr bytes =>
        Some (Artifact.mk
                (notationUri env (songId_of song) (the (DownloadableSong.notationUrl song)))
                bytes)
    | inl _ => None
    end
  else None.

Definition with_file (artifact : option Artifact.t) (fs : gmap string Z) : gmap string Z :=
  match artifact with
  | Some a => <[Artifact.localUri a := Artifact.size a]> fs
  | None => fs
  end.

(** What the audio listener reports during a call. *)
Definition audio_ticks (env : Env) (song : DownloadableSong.t) (options : DownloadOptions.t)
    (progressCallback : bool) : list DownloadProgress.t :=
  if truthy_bool (DownloadOptions.includeAudio options)
     && truthy_string (DownloadableSong.audioUrl song)
  then audio_events (DownloadableSong.id song) progressCallback
         (resumable_progress env (the (DownloadableSong.audioUrl song)))
  else [].

(** An event of a transfer under way, for [song]. *)
Definition tick (song : DownloadableSong.t) (p : DownloadProgress.t) : Prop :=
  DownloadProgress.songId p = DownloadableSong.id song
  ∧ DownloadProgress.status p = downloading
  ∧ DownloadProgress.error p = None
  ∧ (DownloadProgress.progress p <= 1)%Q.

(** The four directories of the manager. *)
Definition manager_directories (env : Env) : list string :=
  [BASE_DIRECTORY env; LYRICS_DIRECTORY env; AUDIO_DIRECTORY env; NOTATION_DIRECTORY env].

(** The loop of [initializeDownloadManager]. *)
Definition make_missing (senv : SetupEnv) (dirs : list string) : M Device unit :=
  for_of dirs
    (fun dir =>
       let! dirInfo_exists := FileSystem_exists (collaborators senv) dir in
       when (negb dirInfo_exists) (FileSystem_makeDirectoryAsync senv dir)).

Definition logged_on_device (label : string) (s : Device) : Device :=
  {| directories := directories s; device_world := logged label (device_world s) |}.

(** The device after [setupNotifications]. *)
Definition after_setupNotifications (senv : SetupEnv) (s : Device) : Device :=
  match Notifications (collaborators senv), setNotificationHandler_rejects senv with
  | Some _, Some _ => logged_on_device "Error setting up notifications:" s
  | _, _ => s
  end.

(** A rejection that [initializeDownloadManager] can meet. *)
Definition setup_rejection (senv : SetupEnv) (error : exn) : Prop :=
  (∃ dir, dir ∈ manager_directories (collaborators senv)
          ∧ (getInfoAsync_rejects (collaborators senv) dir = Some error
             ∨ makeDirectoryAsync_rejects senv dir = Some error))
  ∨ getItem_rejects (collaborators senv) DOWNLOAD_SETTINGS = Some error
  ∨ setItem_rejects (collaborators senv) DOWNLOAD_SETTINGS = Some error.

Definition setup_online : SetupEnv :=
  {| collaborators := env_online;
     makeDirectoryAsync_rejects := fun dir => None;
     setNotificationHandler_rejects := Some (Error "handler refused") |}.

Definition new_device : Device := {| directories := ∅; device_world := empty_world |}.

(** The switch of the settings screen that shows a setting, and the field
    of the stored settings that keeps it. *)
Definition shown (setting : SettingsScreen.Setting) (s : SettingsScreen.State) : bool :=
  match setting with
  | SettingsScreen.autoDownloadOnWifi_ => SettingsScreen.autoDownloadOnWifi s
  | SettingsScreen.downloadAudio_ => SettingsScreen.downloadAudio s
  | SettingsScreen.downloadNotation_ => SettingsScreen.downloadNotation s
  | SettingsScreen.notifications_ => SettingsScreen.notificationsEnabled s
  end.

Definition persisted (setting : SettingsScreen.Setting) (settings : DownloadSettings.t)
  : option bool :=
  match setting with
  | SettingsScreen.autoDownloadOnWifi_ => DownloadSettings.autoDownloadOnWifi settings
  | SettingsScreen.downloadAudio_ => DownloadSettings.downloadAudioByDefault settings
  | SettingsScreen.downloadNotation_ => DownloadSettings.downloadNotationByDefault settings
  | SettingsScreen.notifications_ => DownloadSettings.notifyOnComplete settings
  end.

(** The string has no full stop in it. *)
Fixpoint dotless (s : string) : bool :=
  match s with
  | EmptyString => true
  | String c s' => negb (Ascii.eqb c ".") && dotless s'
  end.

(** The three places where [downloadSong] saves the artifacts of a song. *)
Definition own_paths (env : Env) (song : DownloadableSong.t) : list string :=
  [lyricsUri env (songId_of song);
   audioUri env (songId_of song) (the (DownloadableSong.audioUrl song));
   notationUri env (songId_of song) (the (DownloadableSong.notationUrl song))].

(** The notification [downloadSong] schedules, if it does. *)
Definition completion_notice (env : Env) (song : DownloadableSong.t)
    (options : DownloadOptions.t) : list (string * string) :=
  match truthy_bool (DownloadOptions.showNotification options), Notifications env with
  | true, Some None =>
      [("Download Complete",
        quote +:+ the (DownloadableSong.title song) +:+ quote
        +:+ " has been downloaded for offline use.")]
  | _, _ => []
  end.

(** What the three blocks leave in the frame, however they end: a file only
    where the block saves, and then the path is in [downloadedFiles]. *)
Definition kept (uri : string) (f f' : Frame) : Prop :=
  notifications (world f') = notifications (world f)
  ∧ (∀ p, p ∈ downloadedFiles f' → p ∈ downloadedFiles f ∨ p = uri)
  ∧ (∀ p, p ≠ uri → files (world f') !! p = files (world f) !! p).

(** *** The files of a download that fails *)

(** How one of the three blocks of the admitted part ends: there was nothing
    to do; a file of so many bytes was saved; the transfer failed; a file
    was saved but its size could not be read, which fails the block too. *)
Inductive Block :=
| nothing_to_do
| file_saved (bytes : Z)
| transfer_failed
| saved_but_unmeasured (bytes : Z).

Definition lyrics_block (env : Env) (song : DownloadableSong.t) : Block :=
  if truthy_string (DownloadableSong.lyricsUrl song) then
    match downloadAsync env (the (DownloadableSong.lyricsUrl song)) with
    | inl _ => transfer_failed
    | inr bytes =>
        match getInfoAsync_rejects env (lyricsUri env (songId_of song)) with
        | Some _ => saved_but_unmeasured bytes
        | None => file_saved bytes
        end
    end
  else nothing_to_do.

Definition audio_block (env : Env) (song : DownloadableSong.t) (options : DownloadOptions.t)
  : Block :=
  if truthy_bool (DownloadOptions.includeAudio options)
     && truthy_string (DownloadableSong.audioUrl song) then
    match resumable_downloadAsync env (the (DownloadableSong.audioUrl song)) with
    | inr (Some bytes) =>
        match getInfoAsync_rejects env
                (audioUri env (songId_of song) (the (DownloadableSong.audioUrl song))) with
        | Some _ => saved_but_unmeasured bytes
        | None => file_saved bytes
        end
    | _ => transfer_failed
    end
  else nothing_to_do.

Definition notation_block (env : Env) (song : DownloadableSong.t) (options : DownloadOptions.t)
  : Block :=
  if truthy_bool (DownloadOptions.includeNotation options)
     && truthy_string (DownloadableSong.notationUrl song) then
    match downloadAsync env (the (DownloadableSong.notationUrl song)) with
    | inl _ => transfer_failed
    | inr bytes =>
        match getInfoAsync_rejects env
                (notationUri env (songId_of song) (the (DownloadableSong.notationUrl song))) with
        | Some _ => saved_but_unmeasured bytes
        | None => file_saved bytes
        end
    end
  else nothing_to_do.

(** The file a block leaves at [uri], and whether the next block runs. *)
Definition block_saved (uri : string) (b : Block) : list (string * Z) :=
  match b with
  | file_saved bytes | saved_but_unmeasured bytes => [(uri, bytes)]
  | nothing_to_do | transfer_failed => []
  end.

Definition continues (b : Block) : bool :=
  match b with
  | nothing_to_do | file_saved _ => true
  | transfer_failed | saved_but_unmeasured _ => false
  end.

(** The files that the admitted part has saved when it stops, with their
    sizes, in the order in which it saved them: those of the blocks up to
    and including the first one that fails. *)
Definition written (env : Env) (song : DownloadableSong.t) (options : DownloadOptions.t)
  : list (string * Z) :=
  let songId := songId_of song in
  block_saved (lyricsUri env songId) (lyrics_block env song)
  ++ if continues (lyrics_block env song) then
       block_saved (audioUri env songId (the (DownloadableSong.audioUrl song)))
         (audio_block env song options)
       ++ if continues (audio_block env song options) then
            block_saved
              (notationUri env songId (the (DownloadableSong.notationUrl song)))
              (notation_block env song options)
          else []
     else [].

(** The checks that come before the transfers let the song through. *)
Definition passes_checks (env : Env) (song : DownloadableSong.t) (options : DownloadOptions.t)
    (w : World) : bool :=
  valid song && connected env
  && match getItem_rejects env DOWNLOAD_SETTINGS with
     | Some _ => false
     | None =>
         negb (exceeds (usage (listed env w)) (calculateTotalSize song options)
                 (settings_read w))
     end.

(** The deletion of the file at [p] is rejected. *)
Definition undeletable (env : Env) (p : string) : bool :=
  match deleteAsync_rejects env p with
  | Some _ => true
  | None => false
  end.

Definition with_files (saved : list (string * Z)) (fs : gmap string Z) : gmap string Z :=
  fold_left (fun fs' entry => <[fst entry := snd entry]> fs') saved fs.

(** What a run leaves in the frame when it has saved the files [saved]:
    they are in [downloadedFiles] and in the file store, and the console has
    only grown. *)
Definition wrote (saved : list (string * Z)) (f f' : Frame) : Prop :=
  downloadedFiles f' = downloadedFiles f ++ map fst saved
  ∧ files (world f') = with_files saved (files (world f))
  ∧ ∃ labels, console (world f') = console (world f) ++ labels.

(** ** Running the monad *)

Lemma bind_inv {S A B} (m : M S A) (k : A -> M S B) s r s' :
  bind m k s = (r, s') →
  (∃ a s1, m s = (Normal a, s1) ∧ k a s1 = (r, s'))
  ∨ (∃ error, m s = (Throw error, s') ∧ r = Throw error).
Proof.
  unfold bind. destruct (m s) as [[a|error] s1]; intros H.
  - left. eauto.
  - right. inversion H; subst. eauto.
Qed.

Lemma bind_lift {A B} (m : M World A) (k : A -> M Frame B) f :
  bind (lift m) k f =
  match m (world f) with
  | (Normal a, w') => k a (in_world f w')
  | (Throw error, w') => (Throw error, in_world f w')
  end.
Proof. unfold bind, lift, in_world. destruct (m (world f)) as [[a|error] w']; reflexivity. Qed.

Lemma reported_nil w : reported [] w = w.
Proof. destruct w. unfold reported, set_events. simpl. rewrite app_nil_r. reflexivity. Qed.

Lemma reported_app a b w : reported b (reported a w) = reported (a ++ b) w.
Proof. unfold reported, set_events. simpl. rewrite app_assoc. reflexivity. Qed.

Lemma report_run (progressCallback : bool) p (f : Frame) :
  when progressCallback (lift (call_progressCallback p)) f
  = (Normal tt, in_world f (reported (if progressCallback then [p] else []) (world f))).
Proof.
  destruct progressCallback; simpl.
  - reflexivity.
  - rewrite reported_nil. destruct f; reflexivity.
Qed.

(** *** What the bookkeeping leaves alone *)

Lemma after_listing_songs env w : downloaded_songs (after_listing env w) = downloaded_songs w.
Proof. unfold after_listing. destruct (getItem_rejects env DOWNLOADED_SONGS); reflexivity. Qed.

Lemma after_listing_settings env w :
  download_settings (after_listing env w) = download_settings w.
Proof. unfold after_listing. destruct (getItem_rejects env DOWNLOADED_SONGS); reflexivity. Qed.

Lemma after_listing_files env w : files (after_listing env w) = files w.
Proof. unfold after_listing. destruct (getItem_rejects env DOWNLOADED_SONGS); reflexivity. Qed.

Lemma after_listing_events env w : events (after_listing env w) = events w.
Proof. unfold after_listing. destruct (getItem_rejects env DOWNLOADED_SONGS); reflexivity. Qed.

Lemma listed_after_listing env w : listed env (after_listing env w) = listed env w.
Proof. unfold listed, stored. rewrite after_listing_songs. reflexivity. Qed.

Lemma notified_songs env song options w :
  downloaded_songs (notified env song options w) = downloaded_songs w.
Proof.
  unfold notified.
  destruct (truthy_bool _); [destruct (Notifications env) as [[?|]|]|]; reflexivity.
Qed.

Lemma notified_settings env song options w :
  download_settings (notified env song options w) = download_settings w.
Proof.
  unfold notified.
  destruct (truthy_bool _); [destruct (Notifications env) as [[?|]|]|]; reflexivity.
Qed.

Lemma notified_files env song options w : files (notified env song options w) = files w.
Proof.
  unfold notified.
  destruct (truthy_bool _); [destruct (Notifications env) as [[?|]|]|]; reflexivity.
Qed.

Lemma notified_events env song options w : events (notified env song options w) = events w.
Proof.
  unfold notified.
  destruct (truthy_bool _); [destruct (Notifications env) as [[?|]|]|]; reflexivity.
Qed.

Lemma cleaned_songs env paths w : downloaded_songs (cleaned env paths w) = downloaded_songs w.
Proof.
  revert w. induction paths as [|p paths IH]; intros w; simpl; [reflexivity|].
  rewrite IH. destruct (deleteAsync_rejects env p); reflexivity.
Qed.

Lemma cleaned_events env paths w : events (cleaned env paths w) = events w.
Proof.
  revert w. induction paths as [|p paths IH]; intros w; simpl; [reflexivity|].
  rewrite IH. destruct (deleteAsync_rejects env p); reflexivity.
Qed.

(** A path that is not cleaned keeps its file. *)
Lemma cleaned_files_out env paths w p :
  p ∉ paths → files (cleaned env paths w) !! p = files w !! p.
Proof.
  revert w. induction paths as [|q paths IH]; intros w Hnin; simpl; [reflexivity|].
  rewrite IH.
  - destruct (deleteAsync_rejects env q); simpl; [reflexivity|].
    rewrite lookup_delete_ne; [reflexivity|].
    intros ->. apply Hnin. apply elem_of_cons. auto.
  - intros Hq. apply Hnin. apply elem_of_cons. auto.
Qed.

Lemma cleaned_files_gone env paths w p :
  files w !! p = None → files (cleaned env paths w) !! p = None.
Proof.
  revert w. induction paths as [|q paths IH]; intros w Hw; simpl; [exact Hw|].
  apply IH. destruct (deleteAsync_rejects env q); simpl; [exact Hw|].
  destruct (decide (q = p)) as [->|Hne].
  - apply lookup_delete_eq.
  - rewrite lookup_delete_ne; auto.
Qed.

(** A cleaned path whose deletion does not fail is gone. *)
Lemma cleaned_files_in env paths w p :
  deleteAsync_rejects env p = None → p ∈ paths → files (cleaned env paths w) !! p = None.
Proof.
  intros Hp. revert w. induction paths as [|q paths IH]; intros w Hin; simpl.
  - inversion Hin.
  - destruct (decide (p = q)) as [<-|Hne].
    + rewrite Hp. apply cleaned_files_gone. simpl. apply lookup_delete_eq.
    + apply IH. apply elem_of_cons in Hin as [?|?]; [contradiction|assumption].
Qed.

(** *** Reading the manifest *)

Lemma getDownloadedSongs_run env w :
  getDownloadedSongs env w = (Normal (listed env w), after_listing env w).
Proof.
  unfold getDownloadedSongs, AsyncStorage_getItem_songs, listed, stored, after_listing,
    try_catch, bind, rejecting.
  destruct (getItem_rejects env DOWNLOADED_SONGS); simpl; [reflexivity|].
  destruct (downloaded_songs w); reflexivity.
Qed.

Lemma isSongDownloaded_run env songId w :
  isSongDownloaded env songId w
  = (Normal (existsb (has_id songId) (listed env w)), after_listing env w).
Proof.
  unfold isSongDownloaded, try_catch, bind. rewrite getDownloadedSongs_run. reflexivity.
Qed.

Lemma getDownloadedSong_run env songId w :
  getDownloadedSong env songId w
  = (Normal (find (has_id songId) (listed env w)), after_listing env w).
Proof.
  unfold getDownloadedSong, try_catch, bind. rewrite getDownloadedSongs_run. reflexivity.
Qed.

Lemma getCurrentStorageUsage_run env w :
  getCurrentStorageUsage env w = (Normal (usage (listed env w)), after_listing env w).
Proof.
  unfold getCurrentStorageUsage, try_catch, bind. rewrite getDownloadedSongs_run. reflexivity.
Qed.

Lemma not_listed songId songs :
  find (has_id songId) songs = None ↔ existsb (has_id songId) songs = false.
Proof.
  split.
  - intros Hfind. destruct (existsb _ _) eqn:E; [|reflexivity].
    apply existsb_exists in E as (d & Hin & Hd).
    pose proof (find_none _ _ Hfind d Hin). congruence.
  - intros Hex. destruct (find _ _) as [d|] eqn:E; [|reflexivity].
    apply find_some in E. assert (existsb (has_id songId) songs = true); [|congruence].
    apply existsb_exists. exists d. exact E.
Qed.

Lemma listed_readable env w d songId :
  find (has_id songId) (listed env w) = Some d →
  getItem_rejects env DOWNLOADED_SONGS = None.
Proof.
  unfold listed. destruct (getItem_rejects env DOWNLOADED_SONGS); [discriminate|reflexivity].
Qed.

Lemma connected_inv env :
  connected env = true →
  ∃ netInfo, getNetworkStateAsync env = inr netInfo
             ∧ truthy_bool (NetworkState.isConnected netInfo) = true.
Proof.
  unfold connected. destruct (getNetworkStateAsync env) as [?|netInfo]; [discriminate|]. eauto.
Qed.

(** *** The [catch] block *)

Lemma cleanup_run env paths f :
  for_of paths
    (fun filePath =>
       try_catch (lift (FileSystem_deleteAsync env filePath))
         (fun cleanupError => lift (console_error "Error cleaning up file:"))) f
  = (Normal tt, in_world f (cleaned env paths (world f))).
Proof.
  revert f. induction paths as [|p paths IH]; intros f; simpl.
  - destruct f; reflexivity.
  - unfold bind at 1, try_catch at 1, lift at 1 2, FileSystem_deleteAsync, rejecting,
      console_error.
    destruct (deleteAsync_rejects env p); simpl; rewrite IH; reflexivity.
Qed.

Lemma downloadSong_catch_run env song progressCallback error f :
  downloadSong_catch env (Some song) progressCallback error f
  = (Normal None,
     in_world f
       (reported (failure_report song progressCallback (message_or "Download failed" error))
          (cleaned env (downloadedFiles f) (logged "Error downloading song:" (world f))))).
Proof.
  unfold downloadSong_catch. rewrite bind_lift. simpl.
  unfold bind at 1. simpl. unfold bind at 1. rewrite cleanup_run. simpl.
  unfold bind at 1. rewrite report_run. reflexivity.
Qed.

Lemma downloadSong_run env song options progressCallback w :
  downloadSong env (Some song) options progressCallback w =
  match downloadSong_try env (Some song) options progressCallback (new_frame w) with
  | (Normal x, f) => (Normal x, world f)
  | (Throw error, f) =>
      (Normal None,
       reported (failure_report song progressCallback (message_or "Download failed" error))
         (cleaned env (downloadedFiles f) (logged "Error downloading song:" (world f))))
  end.
Proof.
  unfold downloadSong, in_frame, try_catch. fold (new_frame w).
  destruct (downloadSong_try env (Some song) options progressCallback (new_frame w))
    as [[x|error] f].
  - reflexivity.
  - rewrite downloadSong_catch_run. reflexivity.
Qed.

(** *** The [try] block up to the quota check *)

Lemma downloadSong_try_run env song options progressCallback f :
  downloadSong_try env (Some song) options progressCallback f =
  if negb (valid song) then (Throw (Error "Invalid song data"), f)
  else match getNetworkStateAsync env with
       | inl error => (Throw error, f)
       | inr netInfo =>
           if negb (truthy_bool (NetworkState.isConnected netInfo))
           then (Throw (Error "No internet connection"), f)
           else
             let w1 := after_listing env (world f) in
             if existsb (has_id (songId_of song)) (listed env (world f))
             then (Normal (find (has_id (songId_of song)) (listed env (world f))),
                   in_world f (after_listing env w1))
             else match getItem_rejects env DOWNLOAD_SETTINGS with
                  | Some error => (Throw error, in_world f w1)
                  | None =>
                      if exceeds (usage (listed env (world f)))
                           (calculateTotalSize song options) (settings_read (world f))
                      then (Throw (Error "Not enough storage space"),
                            in_world f (after_listing env w1))
                      else downloadSong_admitted env song options progressCallback
                             (in_world f (after_listing env w1))
                  end
       end.
Proof.
  unfold downloadSong_try, valid, songId_of.
  rewrite negb_andb.
  destruct (negb (truthy_string (DownloadableSong.id song))
            || negb (truthy_string (DownloadableSong.title song))); simpl.
  { destruct f; reflexivity. }
  rewrite bind_lift. unfold Network_getNetworkStateAsync.
  destruct (getNetworkStateAsync env) as [error|netInfo]; simpl.
  { destruct f; reflexivity. }
  destruct (negb (truthy_bool (NetworkState.isConnected netInfo))); simpl.
  { destruct f; reflexivity. }
  rewrite bind_lift, isSongDownloaded_run.
  destruct (existsb _ _) eqn:Hex.
  { unfold lift, in_world. simpl. rewrite getDownloadedSong_run, listed_after_listing.
    reflexivity. }
  rewrite bind_lift. simpl. unfold AsyncStorage_getItem_settings, rejecting.
  destruct (getItem_rejects env DOWNLOAD_SETTINGS); simpl; [reflexivity|].
  rewrite bind_lift. simpl. rewrite getCurrentStorageUsage_run, listed_after_listing.
  unfold settings_read. rewrite after_listing_settings.
  destruct (exceeds _ _ _); reflexivity.
Qed.

(** *** The three transfers and the save *)

Lemma audio_listener_run songId progressCallback ticks w :
  for_of ticks (audio_listener songId progressCallback) w
  = (Normal tt, reported (audio_events songId progressCallback ticks) w).
Proof.
  revert w. induction ticks as [|[written expected] ticks IH]; intros w; simpl.
  - rewrite reported_nil. reflexivity.
  - unfold bind at 1. unfold when, call_progressCallback.
    destruct (progressCallback && (expected >? 0)); simpl.
    + rewrite IH.
      fold (reported
              [DownloadProgress.mk songId (Qmin (written # Z.to_pos expected) 1) downloading None]
              w).
      rewrite reported_app. reflexivity.
    + unfold ret. rewrite IH. reflexivity.
Qed.

Lemma downloadSong_lyrics_run env songId song d f :
  downloadSong_lyrics env songId song d f =
  if truthy_string (DownloadableSong.lyricsUrl song) then
    let uri := lyricsUri env songId in
    match downloadAsync env (the (DownloadableSong.lyricsUrl song)) with
    | inl error =>
        (Throw (failed_to "lyrics" error),
         in_world f (logged "Error downloading lyrics:" (world f)))
    | inr bytes =>
        match getInfoAsync_rejects env uri with
        | Some error =>
            (Throw (failed_to "lyrics" error),
             in_world (saved uri bytes f)
               (logged "Error downloading lyrics:" (world (saved uri bytes f))))
        | None =>
            (Normal (add_totalSize (measured (Some bytes))
                       (set_lyrics (Artifact.mk uri (measured (Some bytes))) d)),
             saved uri bytes f)
        end
    end
  else (Normal d, f).
Proof.
  unfold downloadSong_lyrics.
  destruct (truthy_string (DownloadableSong.lyricsUrl song)); [|reflexivity].
  unfold try_catch, bind, lift, FileSystem_downloadAsync, FileSystem_getInfoAsync, rejecting,
    push, throw.
  destruct (downloadAsync env _) as [error|bytes]; simpl; [reflexivity|].
  destruct (getInfoAsync_rejects env _); simpl; [reflexivity|].
  rewrite lookup_insert_eq. reflexivity.
Qed.

Lemma downloadSong_audio_run env songId song options progressCallback d f :
  downloadSong_audio env songId song options progressCallback d f =
  if truthy_bool (DownloadOptions.includeAudio options)
     && truthy_string (DownloadableSong.audioUrl song) then
    let url := the (DownloadableSong.audioUrl song) in
    let uri := audioUri env songId url in
    let f0 :=
      in_world f
        (reported
           (audio_events (DownloadableSong.id song) progressCallback (resumable_progress env url))
           (world f)) in
    match resumable_downloadAsync env url with
    | inl error =>
        (Throw (failed_to "audio" error),
         in_world f0 (logged "Error downloading audio:" (world f0)))
    | inr None =>
        (Throw (failed_to "audio" (Error "Download failed")),
         in_world f0 (logged "Error downloading audio:" (world f0)))
    | inr (Some bytes) =>
        match getInfoAsync_rejects env uri with
        | Some error =>
            (Throw (failed_to "audio" error),
             in_world (saved uri bytes f0)
               (logged "Error downloading audio:" (world (saved uri bytes f0))))
        | None =>
            (Normal (add_totalSize (measured (Some bytes))
                       (set_audio (Artifact.mk uri (measured (Some bytes))) d)),
             saved uri bytes f0)
        end
    end
  else (Normal d, f).
Proof.
  unfold downloadSong_audio.
  destruct (_ && _); [|reflexivity].
  unfold try_catch. rewrite bind_lift. unfold DownloadResumable_downloadAsync.
  unfold bind at 1. rewrite audio_listener_run.
  destruct (resumable_downloadAsync env _) as [error|[bytes|]]; simpl; try reflexivity.
  unfold bind, lift, FileSystem_getInfoAsync, rejecting, push, throw. simpl.
  destruct (getInfoAsync_rejects env _); simpl; [reflexivity|].
  rewrite lookup_insert_eq. reflexivity.
Qed.

Lemma downloadSong_notation_run env songId song options d f :
  downloadSong_notation env songId song options d f =
  if truthy_bool (DownloadOptions.includeNotation options)
     && truthy_string (DownloadableSong.notationUrl song) then
    let uri := notationUri env songId (the (DownloadableSong.notationUrl song)) in
    match downloadAsync env (the (DownloadableSong.notationUrl song)) with
    | inl error =>
        (Throw (failed_to "notation" error),
         in_world f (logged "Error downloading notation:" (world f)))
    | inr bytes =>
        match getInfoAsync_rejects env uri with
        | Some error =>
            (Throw (failed_to "notation" error),
             in_world (saved uri bytes f)
               (logged "Error downloading notation:" (world (saved uri bytes f))))
        | None =>
            (Normal (add_totalSize (measured (Some bytes))
                       (set_notation (Artifact.mk uri (measured (Some bytes))) d)),
             saved uri bytes f)
        end
    end
  else (Normal d, f).
Proof.
  unfold downloadSong_notation.
  destruct (_ && _); [|reflexivity].
  unfold try_catch, bind, lift, FileSystem_downloadAsync, FileSystem_getInfoAsync, rejecting,
    push, throw.
  destruct (downloadAsync env _) as [error|bytes]; simpl; [reflexivity|].
  destruct (getInfoAsync_rejects env _); simpl; [reflexivity|].
  rewrite lookup_insert_eq. reflexivity.
Qed.

Lemma downloadSong_save_run env song options progressCallback d f :
  downloadSong_save env song options progressCallback d f =
  match setItem_rejects env DOWNLOADED_SONGS with
  | Some error => (Throw error, in_world f (after_listing env (world f)))
  | None =>
      (Normal (Some d),
       in_world f
         (reported (completion_report song progressCallback)
            (notified env song options
               (set_downloaded_songs (Some (listed env (world f) ++ [d]))
                  (after_listing env (world f))))))
  end.
Proof.
  unfold downloadSong_save. rewrite bind_lift, getDownloadedSongs_run.
  rewrite bind_lift. unfold AsyncStorage_setItem_songs, rejecting. simpl.
  destruct (setItem_rejects env DOWNLOADED_SONGS); simpl; [reflexivity|].
  unfold bind at 1. unfold notified, completion_report.
  destruct (truthy_bool (DownloadOptions.showNotification options)); simpl.
  - destruct (Notifications env) as [[e|]|]; simpl; unfold bind; rewrite report_run;
      reflexivity.
  - unfold bind. rewrite report_run. reflexivity.
Qed.

(** *** Frames of one call *)

Create HintDb grows.

Lemma grows_refl f : grows f f.
Proof. repeat split; auto. Qed.

Lemma grows_trans f1 f2 f3 : grows f1 f2 → grows f2 f3 → grows f1 f3.
Proof.
  intros (Ha & Hb & Hc & Hd) (Ha' & Hb' & Hc' & Hd'). repeat split.
  - congruence.
  - congruence.
  - auto.
  - intros p. destruct (Hd' p) as [?|E']; [auto|]. destruct (Hd p) as [?|E]; [auto|].
    right. congruence.
Qed.

Lemma grows_same_files f w :
  downloaded_songs w = downloaded_songs (world f) →
  download_settings w = download_settings (world f) →
  files w = files (world f) →
  grows f (in_world f w).
Proof.
  intros H1 H2 H3. repeat split; simpl; auto. intros p. right. rewrite H3. reflexivity.
Qed.

Lemma grows_saved uri bytes f : grows f (saved uri bytes f).
Proof.
  repeat split; simpl.
  - intros p Hp. apply elem_of_app. auto.
  - intros p. destruct (decide (p = uri)) as [->|Hne].
    + left. apply elem_of_app. right. apply list_elem_of_singleton. reflexivity.
    + right. rewrite lookup_insert_ne; auto.
Qed.

Lemma grows_logged label f : grows f (in_world f (logged label (world f))).
Proof. apply grows_same_files; reflexivity. Qed.

Lemma grows_reported evs f : grows f (in_world f (reported evs (world f))).
Proof. apply grows_same_files; reflexivity. Qed.

Lemma grows_after_listing env f : grows f (in_world f (after_listing env (world f))).
Proof.
  apply grows_same_files.
  - apply after_listing_songs.
  - apply after_listing_settings.
  - apply after_listing_files.
Qed.

Lemma grows_saved_logged label uri bytes f :
  grows f (in_world (saved uri bytes f) (logged label (world (saved uri bytes f)))).
Proof. eapply grows_trans; [apply grows_saved|]. apply (grows_logged _ (saved _ _ f)). Qed.

#[local] Hint Resolve grows_refl grows_saved grows_logged grows_reported grows_after_listing
  grows_saved_logged : grows.

Lemma listed_grows env f f' : grows f f' → listed env (world f') = listed env (world f).
Proof. intros (H & _). unfold listed, stored. rewrite H. reflexivity. Qed.

Lemma downloadSong_lyrics_grows env songId song d f :
  grows f (snd (downloadSong_lyrics env songId song d f)).
Proof.
  rewrite downloadSong_lyrics_run.
  destruct (truthy_string _); simpl; auto with grows.
  destruct (downloadAsync env _); simpl; auto with grows.
  destruct (getInfoAsync_rejects env _); simpl; auto with grows.
Qed.

Lemma downloadSong_notation_grows env songId song options d f :
  grows f (snd (downloadSong_notation env songId song options d f)).
Proof.
  rewrite downloadSong_notation_run.
  destruct (_ && _); simpl; auto with grows.
  destruct (downloadAsync env _); simpl; auto with grows.
  destruct (getInfoAsync_rejects env _); simpl; auto with grows.
Qed.

Lemma downloadSong_audio_grows env songId song options progressCallback d f :
  grows f (snd (downloadSong_audio env songId song options progressCallback d f)).
Proof.
  rewrite downloadSong_audio_run.
  destruct (_ && _); simpl; auto with grows.
  set (f0 := in_world f _).
  assert (H0 : grows f f0) by apply grows_reported.
  destruct (resumable_downloadAsync env _) as [error|[bytes|]]; simpl.
  - eapply grows_trans; [exact H0|]. apply (grows_logged _ f0).
  - destruct (getInfoAsync_rejects env _); simpl.
    + eapply grows_trans; [exact H0|]. apply grows_saved_logged.
    + eapply grows_trans; [exact H0|]. apply grows_saved.
  - eapply grows_trans; [exact H0|]. apply (grows_logged _ f0).
Qed.

(** *** What a block adds to the record, and when it throws *)

Lemma downloadSong_lyrics_result env songId song d f :
  match fst (downloadSong_lyrics env songId song d f) with
  | Normal d' => d' = d ∨ ∃ a, d' = add_totalSize (Artifact.size a) (set_lyrics a d)
  | Throw _ => True
  end.
Proof.
  rewrite downloadSong_lyrics_run.
  destruct (truthy_string _); simpl; auto.
  destruct (downloadAsync env _); simpl; auto.
  destruct (getInfoAsync_rejects env _); simpl; auto.
  right. eexists (Artifact.mk _ _). reflexivity.
Qed.

Lemma downloadSong_audio_result env songId song options progressCallback d f :
  match fst (downloadSong_audio env songId song options progressCallback d f) with
  | Normal d' => d' = d ∨ ∃ a, d' = add_totalSize (Artifact.size a) (set_audio a d)
  | Throw _ => True
  end.
Proof.
  rewrite downloadSong_audio_run.
  destruct (_ && _); simpl; auto.
  destruct (resumable_downloadAsync env _) as [error|[bytes|]]; simpl; auto.
  destruct (getInfoAsync_rejects env _); simpl; auto.
  right. eexists (Artifact.mk _ _). reflexivity.
Qed.

Lemma downloadSong_notation_result env songId song options d f :
  match fst (downloadSong_notation env songId song options d f) with
  | Normal d' => d' = d ∨ ∃ a, d' = add_totalSize (Artifact.size a) (set_notation a d)
  | Throw _ => True
  end.
Proof.
  rewrite downloadSong_notation_run.
  destruct (_ && _); simpl; auto.
  destruct (downloadAsync env _); simpl; auto.
  destruct (getInfoAsync_rejects env _); simpl; auto.
  right. eexists (Artifact.mk _ _). reflexivity.
Qed.

Lemma downloadSong_lyrics_fails env songId song d f :
  lyrics_transfer_fails env song = true →
  ∃ error, fst (downloadSong_lyrics env songId song d f) = Throw error.
Proof.
  unfold lyrics_transfer_fails. rewrite downloadSong_lyrics_run.
  destruct (truthy_string _); simpl; [|discriminate].
  destruct (downloadAsync env _); simpl; intros H; try discriminate; eauto.
Qed.

Lemma downloadSong_audio_fails env songId song options progressCallback d f :
  audio_transfer_fails env song options = true →
  ∃ error, fst (downloadSong_audio env songId song options progressCallback d f) = Throw error.
Proof.
  unfold audio_transfer_fails. rewrite downloadSong_audio_run.
  destruct (truthy_bool _ && truthy_string _); simpl; [|discriminate].
  destruct (resumable_downloadAsync env _) as [error|[bytes|]]; simpl; intros H;
    try discriminate; eauto.
Qed.

Lemma downloadSong_notation_fails env songId song options d f :
  notation_transfer_fails env song options = true →
  ∃ error, fst (downloadSong_notation env songId song options d f) = Throw error.
Proof.
  unfold notation_transfer_fails. rewrite downloadSong_notation_run.
  destruct (truthy_bool _ && truthy_string _); simpl; [|discriminate].
  destruct (downloadAsync env _); simpl; intros H; try discriminate; eauto.
Qed.

(** *** The admitted part as a whole *)

Lemma downloadSong_admitted_post env song options progressCallback f r f' :
  downloadSong_admitted env song options progressCallback f = (r, f') →
  admitted_post env song options f r f'.
Proof.
  unfold downloadSong_admitted. fold (songId_of song). fold (download_record env song).
  set (songId := songId_of song).
  intros H.
  apply bind_inv in H as [(u & f0 & H0 & H)|(error & H0 & _)];
    [|rewrite report_run in H0; discriminate].
  rewrite report_run in H0. injection H0 as _ <-.
  set (f0 := in_world f _) in *.
  assert (G0 : grows f f0) by apply grows_reported.
  apply bind_inv in H as [(d1 & f1 & H1 & H)|(error & H1 & ->)].
  2:{ pose proof (downloadSong_lyrics_grows env songId song (download_record env song) f0) as G1.
      rewrite H1 in G1. simpl in *. exact (grows_trans _ _ _ G0 G1). }
  pose proof (downloadSong_lyrics_grows env songId song (download_record env song) f0) as G1.
  pose proof (downloadSong_lyrics_result env songId song (download_record env song) f0) as R1.
  pose proof (downloadSong_lyrics_fails env songId song (download_record env song) f0) as F1.
  rewrite H1 in G1, R1, F1. simpl in G1, R1, F1.
  apply (grows_trans _ _ _ G0) in G1.
  apply bind_inv in H as [(d2 & f2 & H2 & H)|(error & H2 & ->)].
  2:{ pose proof (downloadSong_audio_grows env songId song options progressCallback d1 f1) as G2.
      rewrite H2 in G2. simpl in *. exact (grows_trans _ _ _ G1 G2). }
  pose proof (downloadSong_audio_grows env songId song options progressCallback d1 f1) as G2.
  pose proof (downloadSong_audio_result env songId song options progressCallback d1 f1) as R2.
  pose proof (downloadSong_audio_fails env songId song options progressCallback d1 f1) as F2.
  rewrite H2 in G2, R2, F2. simpl in G2, R2, F2.
  apply (grows_trans _ _ _ G1) in G2.
  apply bind_inv in H as [(d3 & f3 & H3 & H)|(error & H3 & ->)].
  2:{ pose proof (downloadSong_notation_grows env songId song options d2 f2) as G3.
      rewrite H3 in G3. simpl in *. exact (grows_trans _ _ _ G2 G3). }
  pose proof (downloadSong_notation_grows env songId song options d2 f2) as G.
  pose proof (downloadSong_notation_result env songId song options d2 f2) as R3.
  pose proof (downloadSong_notation_fails env songId song options d2 f2) as F3.
  rewrite H3 in G, R3, F3. simpl in G, R3, F3.
  apply (grows_trans _ _ _ G2) in G.
  revert H. rewrite downloadSong_save_run.
  destruct (setItem_rejects env DOWNLOADED_SONGS) eqn:Hset; intros H; inversion H;
    subst r f'; clear H; simpl.
  { eapply grows_trans; [exact G|]. apply grows_after_listing. }
  exists d3, f3. rewrite (listed_grows env f f3 G).
  assert (Hnf : transfer_fails env song options = false).
  { unfold transfer_fails.
    destruct (lyrics_transfer_fails env song) eqn:E1.
    { destruct (F1 eq_refl) as [? ?]; discriminate. }
    destruct (audio_transfer_fails env song options) eqn:E2.
    { destruct (F2 eq_refl) as [? ?]; discriminate. }
    destruct (notation_transfer_fails env song options) eqn:E3.
    { destruct (F3 eq_refl) as [? ?]; discriminate. }
    reflexivity. }
  split; [reflexivity|]. split; [exact G|]. split; [exact Hnf|]. split; [exact Hset|].
  split; [rewrite notified_songs; reflexivity|].
  split; [rewrite notified_settings; simpl; rewrite after_listing_settings; apply G|].
  split; [rewrite notified_files; simpl; apply after_listing_files|].
  split; [reflexivity|].
  split.
  - destruct R1 as [->|[a1 ->]], R2 as [->|[a2 ->]], R3 as [->|[a3 ->]]; reflexivity.
  - destruct R1 as [->|[a1 ->]], R2 as [->|[a2 ->]], R3 as [->|[a3 ->]];
      unfold consistent; simpl; lia.
Qed.

Lemma downloadSong_admitted_fails env song options progressCallback f :
  transfer_fails env song options = true →
  ∃ error, fst (downloadSong_admitted env song options progressCallback f) = Throw error.
Proof.
  intros Hf.
  destruct (downloadSong_admitted env song options progressCallback f) as [r f'] eqn:H.
  apply downloadSong_admitted_post in H.
  destruct r as [x|error]; [|simpl; eauto].
  destruct H as (d & f1 & _ & _ & Hnf & _). congruence.
Qed.

(** ** Preconditions of [downloadSong] *)

(** A [try] block that throws before anything was downloaded: the call
    returns [null], leaves the stores and the files alone, and reports the
    failure. *)
Lemma downloadSong_stopped env song options progressCallback w error w1 :
  downloadSong_try env (Some song) options progressCallback (new_frame w)
  = (Throw error, in_world (new_frame w) w1) →
  downloaded_songs w1 = downloaded_songs w → files w1 = files w → events w1 = events w →
  let r := downloadSong env (Some song) options progressCallback w in
  fst r = Normal None
  ∧ downloaded_songs (snd r) = downloaded_songs w
  ∧ files (snd r) = files w
  ∧ events (snd r)
    = events w ++ failure_report song progressCallback (message_or "Download failed" error).
Proof.
  intros H Hs Hf He r. subst r. rewrite downloadSong_run, H. simpl.
  repeat split; congruence.
Qed.

Lemma downloadSong_invalid env song options progressCallback w :
  valid song = false →
  let r := downloadSong env (Some song) options progressCallback w in
  fst r = Normal None
  ∧ downloaded_songs (snd r) = downloaded_songs w
  ∧ files (snd r) = files w
  ∧ events (snd r) = events w ++ failure_report song progressCallback "Invalid song data".
Proof.
  intros Hvalid.
  apply (downloadSong_stopped env song options progressCallback w (Error "Invalid song data") w);
    auto.
  rewrite downloadSong_try_run, Hvalid. reflexivity.
Qed.

Lemma downloadSong_offline env song options progressCallback w netInfo :
  valid song = true →
  getNetworkStateAsync env = inr netInfo →
  truthy_bool (NetworkState.isConnected netInfo) = false →
  let r := downloadSong env (Some song) options progressCallback w in
  fst r = Normal None
  ∧ downloaded_songs (snd r) = downloaded_songs w
  ∧ files (snd r) = files w
  ∧ events (snd r) = events w ++ failure_report song progressCallback "No internet connection".
Proof.
  intros Hvalid Hnet Hoff.
  apply (downloadSong_stopped env song options progressCallback w
           (Error "No internet connection") w); auto.
  rewrite downloadSong_try_run, Hvalid, Hnet, Hoff. reflexivity.
Qed.

Lemma downloadSong_cached env song options progressCallback w d :
  valid song = true →
  connected env = true →
  find (has_id (songId_of song)) (listed env w) = Some d →
  downloadSong env (Some song) options progressCallback w = (Normal (Some d), w).
Proof.
  intros Hvalid Hconn Hfind.
  rewrite downloadSong_run, downloadSong_try_run, Hvalid. simpl.
  apply connected_inv in Hconn as (netInfo & -> & ->). simpl.
  assert (Hex : existsb (has_id (songId_of song)) (listed env w) = true).
  { apply existsb_exists. apply find_some in Hfind. exists d. exact Hfind. }
  rewrite Hex, Hfind. unfold after_listing.
  rewrite (listed_readable _ _ _ _ Hfind). reflexivity.
Qed.

Lemma downloadSong_over_quota env song options progressCallback w :
  valid song = true →
  connected env = true →
  find (has_id (songId_of song)) (listed env w) = None →
  getItem_rejects env DOWNLOAD_SETTINGS = None →
  exceeds (usage (listed env w)) (calculateTotalSize song options) (settings_read w) = true →
  let r := downloadSong env (Some song) options progressCallback w in
  fst r = Normal None
  ∧ downloaded_songs (snd r) = downloaded_songs w
  ∧ files (snd r) = files w
  ∧ events (snd r) = events w ++ failure_report song progressCallback "Not enough storage space".
Proof.
  intros Hvalid Hconn Hfind Hsettings Hover.
  apply (downloadSong_stopped env song options progressCallback w
           (Error "Not enough storage space") (after_listing env (after_listing env w))).
  - rewrite downloadSong_try_run, Hvalid. simpl.
    apply connected_inv in Hconn as (netInfo & -> & ->). simpl.
    apply not_listed in Hfind. rewrite Hfind, Hsettings, Hover. reflexivity.
  - rewrite !after_listing_songs. reflexivity.
  - rewrite !after_listing_files. reflexivity.
  - rewrite !after_listing_events. reflexivity.
Qed.

(** C8. [downloadSong] checks its preconditions in a fixed order, each
    stopping the call: a missing [song.id] or [song.title] fails with
    "Invalid song data" whatever the network, the manifest and the quota
    are; then a network that reports no connection fails with "No internet
    connection" whatever the manifest and the quota are; then an id that is
    already downloaded returns its entry whatever the quota is; last, a
    song over the quota fails with "Not enough storage space".  Each
    failure returns [null], touches neither the manifest nor the files, and
    reports exactly one failed event when a callback was passed. *)
Theorem downloadSong_precondition_order env song options progressCallback w :
  let r := downloadSong env (Some song) options progressCallback w in
  let stopped_with msg :=
    fst r = Normal None
    ∧ downloaded_songs (snd r) = downloaded_songs w
    ∧ files (snd r) = files w
    ∧ events (snd r) = events w ++ failure_report song progressCallback msg in
  (valid song = false → stopped_with "Invalid song data")
  ∧ (valid song = true →
     (∀ netInfo,
        getNetworkStateAsync env = inr netInfo →
        truthy_bool (NetworkState.isConnected netInfo) = false →
        stopped_with "No internet connection")
     ∧ (connected env = true →
        (∀ d, find (has_id (songId_of song)) (listed env w) = Some d →
              r = (Normal (Some d), w))
        ∧ (find (has_id (songId_of song)) (listed env w) = None →
           getItem_rejects env DOWNLOAD_SETTINGS = None →
           exceeds (usage (listed env w)) (calculateTotalSize song options) (settings_read w)
           = true →
           stopped_with "Not enough storage space"))).
Proof.
  cbv zeta. split; [|intros Hvalid; split; [|intros Hconn; split]].
  - apply downloadSong_invalid.
  - intros netInfo. apply downloadSong_offline. exact Hvalid.
  - intros d. apply downloadSong_cached; assumption.
  - apply downloadSong_over_quota; assumption.
Qed.

(** ** Quota admission *)

Lemma calculateTotalSize_candidateSize song options :
  calculateTotalSize song options = candidateSize song options.
Proof.
  unfold calculateTotalSize, candidateSize, advisory.
  destruct (DownloadableSong.size song) as [[l a n]|]; simpl.
  - destruct (truthy_bool (DownloadOptions.includeAudio options)),
             (truthy_bool (DownloadOptions.includeNotation options));
      destruct l as [l|], a as [a|], n as [n|]; simpl;
      repeat match goal with |- context [?x =? 0] => destruct (Z.eqb_spec x 0) end;
      simpl; lia.
  - destruct (truthy_bool (DownloadOptions.includeAudio options)),
             (truthy_bool (DownloadOptions.includeNotation options)); reflexivity.
Qed.

Lemma exceeds_over_quota currentUsage candidate settings :
  exceeds currentUsage candidate settings = true ↔ over_quota currentUsage candidate settings.
Proof.
  unfold exceeds, over_quota. destruct (DownloadSettings.maxStorageSize settings) as [m|].
  - split.
    + intros H. exists m. split; [reflexivity|]. apply Z.gtb_gt. exact H.
    + intros (m' & Hm & H). injection Hm as <-. apply Z.gtb_gt. lia.
  - split; [discriminate|]. intros (m' & Hm & _). discriminate.
Qed.

(** A song over the quota whose id is not in the manifest is never
    downloaded, whichever check stops the call. *)
Lemma downloadSong_over_quota_null env song options progressCallback w :
  find (has_id (songId_of song)) (listed env w) = None →
  exceeds (usage (listed env w)) (calculateTotalSize song options) (settings_read w) = true →
  let r := downloadSong env (Some song) options progressCallback w in
  fst r = Normal None
  ∧ files (snd r) = files w
  ∧ downloaded_songs (snd r) = downloaded_songs w.
Proof.
  intros Hfind Hover. cbv zeta. rewrite downloadSong_run, downloadSong_try_run.
  destruct (negb (valid song)); simpl; [auto|].
  destruct (getNetworkStateAsync env); simpl; [auto|].
  destruct (negb _); simpl; [auto|].
  apply not_listed in Hfind. rewrite Hfind.
  destruct (getItem_rejects env DOWNLOAD_SETTINGS); simpl.
  { rewrite after_listing_songs, after_listing_files. auto. }
  rewrite Hover. simpl. rewrite !after_listing_songs, !after_listing_files. auto.
Qed.

(** C2, as the code has it.  The candidate size is the advisory lyrics
    size, plus the advisory audio size when [includeAudio], plus the
    advisory notation size when [includeNotation].  For a song whose id is
    not in the manifest: when the current usage plus the candidate size is
    above [settings.maxStorageSize], the call returns [null] and writes no
    file and no store, and the error it reports is "Not enough storage
    space" when the song is valid, the network connected and the settings
    readable, that is when the checks before the quota check passed;
    otherwise, after those checks, the [try] block goes on with the part
    behind the quota check. *)
Theorem downloadSong_quota_admission env song options progressCallback w :
  find (has_id (songId_of song)) (listed env w) = None →
  let r := downloadSong env (Some song) options progressCallback w in
  let currentUsage := usage (listed env w) in
  let settings := settings_read w in
  let checked :=
    valid song = true ∧ connected env = true ∧ getItem_rejects env DOWNLOAD_SETTINGS = None in
  calculateTotalSize song options = candidateSize song options
  ∧ (over_quota currentUsage (candidateSize song options) settings →
     fst r = Normal None
     ∧ files (snd r) = files w
     ∧ downloaded_songs (snd r) = downloaded_songs w
     ∧ (checked →
        events (snd r)
        = events w ++ failure_report song progressCallback "Not enough storage space"))
  ∧ (¬ over_quota currentUsage (candidateSize song options) settings →
     checked →
     downloadSong_try env (Some song) options progressCallback (new_frame w)
     = downloadSong_admitted env song options progressCallback
         (new_frame (after_listing env (after_listing env w)))).
Proof.
  intros Hfind r currentUsage settings checked.
  split; [apply calculateTotalSize_candidateSize|].
  rewrite <- calculateTotalSize_candidateSize. split.
  - intros Hover. apply exceeds_over_quota in Hover.
    destruct (downloadSong_over_quota_null env song options progressCallback w Hfind Hover)
      as (H1 & H2 & H3).
    split; [exact H1|]. split; [exact H2|]. split; [exact H3|].
    intros (Hvalid & Hconn & Hsettings).
    apply (downloadSong_over_quota env song options progressCallback w
             Hvalid Hconn Hfind Hsettings Hover).
  - intros Hunder (Hvalid & Hconn & Hsettings).
    assert (Hex : exceeds currentUsage (calculateTotalSize song options) settings = false).
    { destruct (exceeds _ _ _) eqn:E; [|reflexivity].
      apply exceeds_over_quota in E. contradiction. }
    rewrite downloadSong_try_run, Hvalid. simpl.
    apply connected_inv in Hconn as (netInfo & -> & ->). simpl.
    apply not_listed in Hfind. rewrite Hfind, Hsettings.
    fold currentUsage settings. rewrite Hex. reflexivity.
Qed.

(** Song B (950 bytes) against a quota of 1000 with song A (100 bytes)
    downloaded, on a connected network. *)
Lemma downloadSong_quota_admission_witness :
  find (has_id (songId_of song_B)) (listed env_online world_A) = None
  ∧ over_quota (usage (listed env_online world_A)) (candidateSize song_B DownloadOptions.empty)
      (settings_read world_A)
  ∧ fst (downloadSong env_online (Some song_B) DownloadOptions.empty true world_A) = Normal None
  ∧ files (snd (downloadSong env_online (Some song_B) DownloadOptions.empty true world_A))
    = files world_A
  ∧ events (snd (downloadSong env_online (Some song_B) DownloadOptions.empty true world_A))
    = failure_report song_B true "Not enough storage space".
Proof.
  assert (Hover : over_quota (usage (listed env_online world_A))
                    (candidateSize song_B DownloadOptions.empty) (settings_read world_A)).
  { exists 1000. split; reflexivity. }
  destruct (downloadSong_quota_admission env_online song_B DownloadOptions.empty true world_A
              eq_refl) as (_ & H & _).
  destruct (H Hover) as (Hnull & Hfiles & _ & Hevents).
  split; [reflexivity|]. split; [exact Hover|]. split; [exact Hnull|]. split; [exact Hfiles|].
  apply Hevents. repeat split.
Defined.

(** C2 as stated fails: the same song B, over the quota and not in the
    manifest, on a network that reports no connection, is refused with "No
    internet connection", not with the quota error. *)
Lemma quota_error_masked_when_offline :
  find (has_id (songId_of song_B)) (listed env_offline world_A) = None
  ∧ over_quota (usage (listed env_offline world_A)) (candidateSize song_B DownloadOptions.empty)
      (settings_read world_A)
  ∧ fst (downloadSong env_offline (Some song_B) DownloadOptions.empty true world_A) = Normal None
  ∧ events (snd (downloadSong env_offline (Some song_B) DownloadOptions.empty true world_A))
    = failure_report song_B true "No internet connection"
  ∧ events (snd (downloadSong env_offline (Some song_B) DownloadOptions.empty true world_A))
    ≠ failure_report song_B true "Not enough storage space".
Proof.
  split; [reflexivity|].
  split; [exists 1000; split; reflexivity|].
  split; [reflexivity|].
  split; [reflexivity|].
  vm_compute. intros H. discriminate H.
Qed.

(** ** Downloading what is already there *)

Lemma entries_for_app songId l1 l2 :
  entries_for songId (l1 ++ l2) = (entries_for songId l1 + entries_for songId l2)%nat.
Proof. unfold entries_for. rewrite List.filter_app, length_app. reflexivity. Qed.

Lemma entries_for_none songId songs :
  find (has_id songId) songs = None → entries_for songId songs = 0%nat.
Proof.
  unfold entries_for. induction songs as [|d songs IH]; simpl; [reflexivity|].
  destruct (has_id songId d); [discriminate|]. exact IH.
Qed.

Lemma entries_for_some songId songs d :
  find (has_id songId) songs = Some d → (1 <= entries_for songId songs)%nat.
Proof.
  unfold entries_for. induction songs as [|d' songs IH]; simpl; [discriminate|].
  destruct (has_id songId d'); simpl; [lia|]. exact IH.
Qed.

Lemma find_app_new songId songs d :
  find (has_id songId) songs = None → has_id songId d = true →
  find (has_id songId) (songs ++ [d]) = Some d.
Proof.
  intros Hnone Hd. induction songs as [|d' songs IH]; simpl in *.
  - rewrite Hd. reflexivity.
  - destruct (has_id songId d'); [discriminate|]. auto.
Qed.

(** The two ways in which a call returns an entry: the entry was in the
    manifest, or it was downloaded and appended. *)
Lemma downloadSong_returns_entry env song options progressCallback w d w1 :
  downloadSong env (Some song) options progressCallback w = (Normal (Some d), w1) →
  valid song = true ∧ connected env = true
  ∧ ((find (has_id (songId_of song)) (listed env w) = Some d ∧ w1 = w)
     ∨ (find (has_id (songId_of song)) (listed env w) = None
        ∧ downloaded_songs w1 = Some (listed env w ++ [d])
        ∧ DownloadedSong.id d = songId_of song
        ∧ consistent d)).
Proof.
  rewrite downloadSong_run, downloadSong_try_run.
  destruct (valid song) eqn:Hvalid; simpl; [|discriminate].
  unfold connected.
  destruct (getNetworkStateAsync env) as [?|netInfo] eqn:Hnet; [discriminate|].
  destruct (truthy_bool (NetworkState.isConnected netInfo)) eqn:Hconn; simpl; [|discriminate].
  destruct (existsb (has_id (songId_of song)) (listed env w)) eqn:Hex.
  - intros H. injection H as Hfind Hw.
    split; [reflexivity|]. split; [reflexivity|]. left. split; [exact Hfind|].
    unfold after_listing in Hw. rewrite (listed_readable _ _ _ _ Hfind) in Hw. auto.
  - apply not_listed in Hex.
    destruct (getItem_rejects env DOWNLOAD_SETTINGS); [discriminate|].
    destruct (exceeds _ _ _); [discriminate|].
    destruct (downloadSong_admitted env song options progressCallback _)
      as [[x|error] f'] eqn:Hrun; [|discriminate].
    intros H. injection H as -> <-.
    apply downloadSong_admitted_post in Hrun.
    destruct Hrun as (d' & f1 & Hd & _ & _ & _ & Hsongs & _ & _ & _ & Hid & Hc).
    injection Hd as <-.
    split; [reflexivity|]. split; [reflexivity|]. right. split; [exact Hex|].
    split; [|split; [exact Hid|exact Hc]].
    rewrite Hsongs. simpl. rewrite !listed_after_listing. reflexivity.
Qed.

(** C3, as the code has it.  For a valid song and a connected network: when
    the id is in the manifest, [downloadSong] returns the entry found there
    and leaves the world as it was (no transfer, no write, no event).  Hence
    when a call returns an entry [d] and the manifest can be read, the same
    call made again returns [d] again and changes nothing, and the manifest
    then holds exactly one entry for that id provided it held at most one
    before the first call. *)
Theorem downloadSong_idempotent env song options progressCallback w d :
  valid song = true →
  connected env = true →
  (find (has_id (songId_of song)) (listed env w) = Some d →
   downloadSong env (Some song) options progressCallback w = (Normal (Some d), w))
  ∧ (∀ w1,
       downloadSong env (Some song) options progressCallback w = (Normal (Some d), w1) →
       getItem_rejects env DOWNLOADED_SONGS = None →
       downloadSong env (Some song) options progressCallback w1 = (Normal (Some d), w1)
       ∧ ((entries_for (songId_of song) (stored w) <= 1)%nat →
          entries_for (songId_of song) (stored w1) = 1%nat)).
Proof.
  intros Hvalid Hconn. split.
  - apply downloadSong_cached; assumption.
  - intros w1 Hfirst Hread.
    apply downloadSong_returns_entry in Hfirst
      as (_ & _ & [(Hfind & ->)|(Hfind & Hsongs & Hid & _)]).
    + split; [apply downloadSong_cached; assumption|].
      intros Hle. apply entries_for_some in Hfind.
      unfold listed in Hfind. rewrite Hread in Hfind. lia.
    + assert (Hd : has_id (songId_of song) d = true).
      { unfold has_id. rewrite Hid. apply String.eqb_refl. }
      split.
      * apply downloadSong_cached; [assumption..|].
        unfold listed, stored. rewrite Hread, Hsongs. simpl.
        apply find_app_new; assumption.
      * intros _. unfold stored. rewrite Hsongs. simpl.
        rewrite entries_for_app, (entries_for_none _ _ Hfind).
        unfold entries_for. simpl. rewrite Hd. reflexivity.
Qed.

(** Song A, already in the manifest, asked for again on a connected
    network. *)
Lemma downloadSong_idempotent_witness :
  valid song_A = true
  ∧ connected env_online = true
  ∧ find (has_id (songId_of song_A)) (listed env_online world_A) = Some entry_A
  ∧ downloadSong env_online (Some song_A) DownloadOptions.empty true world_A
    = (Normal (Some entry_A), world_A)
  ∧ entries_for (songId_of song_A) (stored world_A) = 1%nat.
Proof.
  destruct (downloadSong_idempotent env_online song_A DownloadOptions.empty true world_A entry_A
              eq_refl eq_refl) as (Hhit & Htwice).
  split; [reflexivity|]. split; [reflexivity|]. split; [reflexivity|].
  split; [exact (Hhit eq_refl)|].
  destruct (Htwice world_A (Hhit eq_refl) eq_refl) as (_ & Hone).
  apply Hone. vm_compute. lia.
Defined.

(** C3 as stated fails: song A is in the manifest, and on a network that
    reports no connection [downloadSong] returns [null] for it. *)
Lemma cache_hit_needs_connection :
  valid song_A = true
  ∧ find (has_id (songId_of song_A)) (listed env_offline world_A) = Some entry_A
  ∧ fst (downloadSong env_offline (Some song_A) DownloadOptions.empty true world_A)
    = Normal None
  ∧ fst (downloadSong env_offline (Some song_A) DownloadOptions.empty true world_A)
    ≠ Normal (Some entry_A).
Proof.
  split; [reflexivity|]. split; [reflexivity|]. split; [reflexivity|].
  vm_compute. intros H. discriminate H.
Qed.

(** ** A song with nothing to transfer *)

(** C10. For a valid song, a connected network, an id that is not in the
    manifest and a passed quota check, when [lyricsUrl] is absent and audio
    and notation are not requested or have no url: [downloadSong] transfers
    nothing (the files are as they were).  When the manifest can be written,
    it appends an entry without artifact sub-records and with [totalSize] 0
    to the manifest, reports the start and then the completed event, and
    returns that entry.  When the write of the manifest is rejected, it
    returns [null], leaves the manifest as it was and reports the start and
    then a failure with the message of the rejection.  The lyrics block does
    nothing at all without a [lyricsUrl]. *)
Theorem downloadSong_nothing_to_transfer env song options progressCallback w :
  valid song = true →
  connected env = true →
  find (has_id (songId_of song)) (listed env w) = None →
  getItem_rejects env DOWNLOAD_SETTINGS = None →
  exceeds (usage (listed env w)) (calculateTotalSize song options) (settings_read w) = false →
  truthy_string (DownloadableSong.lyricsUrl song) = false →
  truthy_bool (DownloadOptions.includeAudio options)
  && truthy_string (DownloadableSong.audioUrl song) = false →
  truthy_bool (DownloadOptions.includeNotation options)
  && truthy_string (DownloadableSong.notationUrl song) = false →
  let r := downloadSong env (Some song) options progressCallback w in
  let entry :=
    DownloadedSong.mk (songId_of song) (DownloadableSong.number song)
      (the (DownloadableSong.title song)) (now env) None None None 0 in
  files (snd r) = files w
  ∧ match setItem_rejects env DOWNLOADED_SONGS with
    | None =>
        fst r = Normal (Some entry)
        ∧ downloaded_songs (snd r) = Some (listed env w ++ [entry])
        ∧ events (snd r)
          = events w ++ start_report song progressCallback
            ++ completion_report song progressCallback
    | Some error =>
        fst r = Normal None
        ∧ downloaded_songs (snd r) = downloaded_songs w
        ∧ events (snd r)
          = events w ++ start_report song progressCallback
            ++ failure_report song progressCallback (message_or "Download failed" error)
    end
  ∧ (∀ songId d f, downloadSong_lyrics env songId song d f = (Normal d, f)).
Proof.
  intros Hvalid Hconn Hfind Hsettings Hquota Hlyrics Haudio Hnotation r entry.
  assert (Hrun : r =
            match setItem_rejects env DOWNLOADED_SONGS with
            | None =>
                (Normal (Some entry),
                 reported (completion_report song progressCallback)
                   (notified env song options
                      (set_downloaded_songs (Some (listed env w ++ [entry]))
                         (after_listing env
                            (reported (start_report song progressCallback)
                               (after_listing env (after_listing env w)))))))
            | Some error =>
                (Normal None,
                 reported
                   (failure_report song progressCallback (message_or "Download failed" error))
                   (logged "Error downloading song:"
                      (after_listing env
                         (reported (start_report song progressCallback)
                            (after_listing env (after_listing env w))))))
            end).
  { subst r. rewrite downloadSong_run, downloadSong_try_run, Hvalid. simpl.
    apply connected_inv in Hconn as (netInfo & -> & ->). simpl.
    apply not_listed in Hfind. rewrite Hfind, Hsettings, Hquota.
    unfold downloadSong_admitted. unfold bind at 1. rewrite report_run.
    unfold bind at 1. rewrite downloadSong_lyrics_run, Hlyrics.
    unfold bind at 1. rewrite downloadSong_audio_run, Haudio.
    unfold bind at 1. rewrite downloadSong_notation_run, Hnotation.
    rewrite downloadSong_save_run.
    destruct (setItem_rejects env DOWNLOADED_SONGS); simpl; [reflexivity|].
    unfold listed at 1, stored. simpl. rewrite !after_listing_songs.
    fold (stored w). fold (listed env w). reflexivity. }
  rewrite Hrun.
  split; [|split].
  - destruct (setItem_rejects env DOWNLOADED_SONGS); simpl;
      rewrite ?notified_files; simpl; rewrite !after_listing_files; simpl;
      rewrite !after_listing_files; reflexivity.
  - destruct (setItem_rejects env DOWNLOADED_SONGS); simpl.
    + split; [reflexivity|]. split.
      * rewrite after_listing_songs. simpl. rewrite !after_listing_songs. reflexivity.
      * rewrite after_listing_events. simpl. rewrite !after_listing_events.
        rewrite app_assoc. reflexivity.
    + split; [reflexivity|]. split; [rewrite notified_songs; reflexivity|].
      rewrite notified_events. simpl. rewrite after_listing_events. simpl.
      rewrite !after_listing_events. rewrite app_assoc. reflexivity.
  - intros songId d f. rewrite downloadSong_lyrics_run, Hlyrics. reflexivity.
Qed.

(** Song D has no url at all; it is downloaded into an empty world. *)
Lemma downloadSong_nothing_to_transfer_witness :
  valid song_D = true
  ∧ connected env_online = true
  ∧ truthy_string (DownloadableSong.lyricsUrl song_D) = false
  ∧ fst (downloadSong env_online (Some song_D) with_audio true empty_world)
    = Normal (Some (DownloadedSong.mk "D" 4 "Doxology" (now env_online) None None None 0))
  ∧ downloaded_songs (snd (downloadSong env_online (Some song_D) with_audio true empty_world))
    = Some [DownloadedSong.mk "D" 4 "Doxology" (now env_online) None None None 0]
  ∧ files (snd (downloadSong env_online (Some song_D) with_audio true empty_world)) = ∅.
Proof.
  destruct (downloadSong_nothing_to_transfer env_online song_D with_audio true empty_world
              eq_refl eq_refl eq_refl eq_refl eq_refl eq_refl eq_refl eq_refl)
    as (Hfiles & (Hr & Hsongs & _) & _).
  split; [reflexivity|]. split; [reflexivity|]. split; [reflexivity|].
  split; [exact Hr|]. split; [exact Hsongs|exact Hfiles].
Defined.

(** The same song D, with everything the claim asks for (valid, connected,
    not in the manifest, within the quota, nothing to transfer), and a
    manifest that cannot be written: [downloadSong] returns [null], appends
    nothing and ends on a failed event. *)
Lemma nothing_to_transfer_needs_writable_manifest :
  valid song_D = true
  ∧ connected env_unwritable = true
  ∧ find (has_id (songId_of song_D)) (listed env_unwritable empty_world) = None
  ∧ getItem_rejects env_unwritable DOWNLOAD_SETTINGS = None
  ∧ exceeds (usage (listed env_unwritable empty_world))
      (calculateTotalSize song_D with_audio) (settings_read empty_world) = false
  ∧ truthy_string (DownloadableSong.lyricsUrl song_D) = false
  ∧ truthy_string (DownloadableSong.audioUrl song_D) = false
  ∧ truthy_bool (DownloadOptions.includeNotation with_audio) = false
  ∧ fst (downloadSong env_unwritable (Some song_D) with_audio true empty_world) = Normal None
  ∧ downloaded_songs (snd (downloadSong env_unwritable (Some song_D) with_audio true empty_world))
    = None
  ∧ last (events (snd (downloadSong env_unwritable (Some song_D) with_audio true empty_world)))
    = Some (DownloadProgress.mk (Some "D") 0 failed (Some "database or disk is full")).
Proof. repeat split; vm_compute; reflexivity. Qed.

(** ** Deleting *)

Lemma delete_artifact_run env artifact w :
  delete_artifact env artifact w =
  match artifact with
  | Some a =>
      match deleteAsync_rejects env (Artifact.localUri a) with
      | Some error => (Throw error, w)
      | None => (Normal tt, set_files (without artifact (files w)) w)
      end
  | None => (Normal tt, set_files (without artifact (files w)) w)
  end.
Proof.
  unfold delete_artifact, without, FileSystem_deleteAsync, rejecting.
  destruct artifact as [a|]; simpl.
  - destruct (deleteAsync_rejects env (Artifact.localUri a)); reflexivity.
  - destruct w; reflexivity.
Qed.

Lemma delete_artifact_cases env artifact w :
  if deletion_rejects env artifact
  then ∃ error, delete_artifact env artifact w = (Throw error, w)
  else delete_artifact env artifact w = (Normal tt, set_files (without artifact (files w)) w).
Proof.
  rewrite delete_artifact_run. unfold deletion_rejects.
  destruct artifact as [a|]; [|reflexivity].
  destruct (deleteAsync_rejects env (Artifact.localUri a)) as [error|]; simpl; eauto.
Qed.

Lemma deleteSong_run env songId w :
  deleteSong env songId w =
  let w1 := after_listing env w in
  match find (has_id songId) (listed env w) with
  | None => (Normal false, w1)
  | Some d =>
      if deletion_rejects env (DownloadedSong.lyrics d)
      then (Normal false, logged "Error deleting song:" w1)
      else
        let w2 := set_files (without (DownloadedSong.lyrics d) (files w1)) w1 in
        if deletion_rejects env (DownloadedSong.audio d)
        then (Normal false, logged "Error deleting song:" w2)
        else
          let w3 := set_files (without (DownloadedSong.audio d) (files w2)) w2 in
          if deletion_rejects env (DownloadedSong.notation d)
          then (Normal false, logged "Error deleting song:" w3)
          else
            let w4 := set_files (without (DownloadedSong.notation d) (files w3)) w3 in
            match setItem_rejects env DOWNLOADED_SONGS with
            | Some _ => (Normal false, logged "Error deleting song:" (after_listing env w4))
            | None =>
                (Normal true,
                 set_downloaded_songs (Some (List.filter (other_than songId) (listed env w)))
                   (after_listing env w4))
            end
  end.
Proof.
  unfold deleteSong, try_catch.
  unfold bind at 1. rewrite getDownloadedSong_run.
  destruct (find (has_id songId) (listed env w)) as [d|] eqn:Hfind; simpl; [|reflexivity].
  unfold bind at 1.
  pose proof (delete_artifact_cases env (DownloadedSong.lyrics d) (after_listing env w)) as H1.
  destruct (deletion_rejects env (DownloadedSong.lyrics d)).
  { destruct H1 as [error ->]. reflexivity. }
  rewrite H1. clear H1. unfold bind at 1.
  set (w2 := set_files _ (after_listing env w)).
  pose proof (delete_artifact_cases env (DownloadedSong.audio d) w2) as H2.
  destruct (deletion_rejects env (DownloadedSong.audio d)).
  { destruct H2 as [error ->]. reflexivity. }
  rewrite H2. clear H2. unfold bind at 1.
  set (w3 := set_files _ w2).
  pose proof (delete_artifact_cases env (DownloadedSong.notation d) w3) as H3.
  destruct (deletion_rejects env (DownloadedSong.notation d)).
  { destruct H3 as [error ->]. reflexivity. }
  rewrite H3. clear H3. unfold bind at 1. rewrite getDownloadedSongs_run.
  unfold bind at 1. unfold AsyncStorage_setItem_songs, rejecting.
  assert (Hl : listed env (set_files (without (DownloadedSong.notation d) (files w3)) w3)
               = listed env w).
  { unfold listed, stored. simpl. rewrite after_listing_songs. reflexivity. }
  rewrite Hl.
  destruct (setItem_rejects env DOWNLOADED_SONGS); reflexivity.
Qed.

(** C5, as the code has it.  [deleteSong] never throws.  It returns
    [false] and changes neither the manifest nor the files when the id has
    no entry (or the manifest cannot be read).  Otherwise it deletes the
    lyrics file, then the audio file, then the notation file of the entry.
    The first deletion that fails stops it: the files deleted before it are
    gone, the later ones are not touched, ["Error deleting song:"] is logged
    once, [false] is returned and the manifest keeps the entry.  Only when
    no deletion fails does it write the manifest without the entries of that
    id; it returns [true] when that write succeeds and, when it fails, logs
    once and returns [false] with the manifest unchanged and the three files
    gone. *)
Theorem deleteSong_outcome env songId w :
  let r := deleteSong env songId w in
  match find (has_id songId) (listed env w) with
  | None =>
      fst r = Normal false
      ∧ downloaded_songs (snd r) = downloaded_songs w
      ∧ files (snd r) = files w
  | Some d =>
      let no_lyrics := without (DownloadedSong.lyrics d) (files w) in
      let no_audio := without (DownloadedSong.audio d) no_lyrics in
      let no_notation := without (DownloadedSong.notation d) no_audio in
      let stopped (left : gmap string Z) :=
        fst r = Normal false
        ∧ downloaded_songs (snd r) = downloaded_songs w
        ∧ files (snd r) = left
        ∧ console (snd r) = console w ++ ["Error deleting song:"] in
      if deletion_rejects env (DownloadedSong.lyrics d) then stopped (files w)
      else if deletion_rejects env (DownloadedSong.audio d) then stopped no_lyrics
      else if deletion_rejects env (DownloadedSong.notation d) then stopped no_audio
      else
        match setItem_rejects env DOWNLOADED_SONGS with
        | Some _ => stopped no_notation
        | None =>
            fst r = Normal true
            ∧ downloaded_songs (snd r)
              = Some (List.filter (other_than songId) (listed env w))
            ∧ files (snd r) = no_notation
            ∧ console (snd r) = console w
        end
  end.
Proof.
  cbv zeta. rewrite deleteSong_run.
  destruct (find (has_id songId) (listed env w)) as [d|] eqn:Hfind; simpl.
  2:{ rewrite after_listing_songs, after_listing_files. auto. }
  pose proof (listed_readable _ _ _ _ Hfind) as Hread.
  unfold after_listing. rewrite Hread.
  destruct (deletion_rejects env (DownloadedSong.lyrics d)); simpl; [auto|].
  destruct (deletion_rejects env (DownloadedSong.audio d)); simpl; [auto|].
  destruct (deletion_rejects env (DownloadedSong.notation d)); simpl; [auto|].
  destruct (setItem_rejects env DOWNLOADED_SONGS); simpl; auto.
Qed.

(** C5 as stated fails: song A has an entry and the manifest can be written,
    but its lyrics file cannot be deleted; [deleteSong] returns [false] and
    the entry stays in the manifest. *)
Lemma deleteSong_blocked_by_file_error :
  find (has_id "A") (listed env_locked world_A) = Some entry_A
  ∧ setItem_rejects env_locked DOWNLOADED_SONGS = None
  ∧ deletion_rejects env_locked (DownloadedSong.lyrics entry_A) = true
  ∧ fst (deleteSong env_locked "A" world_A) = Normal false
  ∧ downloaded_songs (snd (deleteSong env_locked "A" world_A)) = Some [entry_A].
Proof. repeat split; vm_compute; reflexivity. Qed.

(** What [deleteSong] can return and do to the manifest, read off its run. *)
Lemma deleteSong_songs env songId w :
  (fst (deleteSong env songId w) = Normal true
   ∨ fst (deleteSong env songId w) = Normal false)
  ∧ (downloaded_songs (snd (deleteSong env songId w)) = downloaded_songs w
     ∨ downloaded_songs (snd (deleteSong env songId w))
       = Some (List.filter (other_than songId) (listed env w))).
Proof.
  rewrite deleteSong_run. cbv zeta.
  destruct (find (has_id songId) (listed env w)) as [d|]; simpl.
  2:{ rewrite after_listing_songs. auto. }
  destruct (deletion_rejects env (DownloadedSong.lyrics d)); simpl.
  { rewrite after_listing_songs. auto. }
  destruct (deletion_rejects env (DownloadedSong.audio d)); simpl.
  { rewrite after_listing_songs. auto. }
  destruct (deletion_rejects env (DownloadedSong.notation d)); simpl.
  { rewrite after_listing_songs. auto. }
  destruct (setItem_rejects env DOWNLOADED_SONGS); simpl; auto.
  rewrite after_listing_songs. simpl. rewrite after_listing_songs. auto.
Qed.

(** ** Clearing *)

Lemma sweep_normal env songs w : fst (sweep env songs w) = Normal tt.
Proof.
  unfold sweep. revert w. induction songs as [|d songs IH]; intros w; simpl; [reflexivity|].
  unfold bind at 1. unfold bind at 1.
  destruct (deleteSong_songs env (DownloadedSong.id d) w) as [Hn _].
  destruct (deleteSong env (DownloadedSong.id d) w) as [r w1]. simpl in Hn.
  destruct Hn as [-> | ->]; simpl; apply IH.
Qed.

Lemma clearAllDownloads_run env w :
  clearAllDownloads env w =
  let swept := snd (sweep env (listed env w) (after_listing env w)) in
  match setItem_rejects env DOWNLOADED_SONGS with
  | Some _ => (Normal false, logged "Error clearing all downloads:" swept)
  | None => (Normal true, set_downloaded_songs (Some []) swept)
  end.
Proof.
  unfold clearAllDownloads, try_catch. unfold bind at 1. rewrite getDownloadedSongs_run.
  unfold bind at 1. fold (sweep env (listed env w)).
  pose proof (sweep_normal env (listed env w) (after_listing env w)) as Hn.
  destruct (sweep env (listed env w) (after_listing env w)) as [r swept]. simpl in Hn. subst r.
  simpl. unfold bind at 1. unfold AsyncStorage_setItem_songs, rejecting.
  destruct (setItem_rejects env DOWNLOADED_SONGS); reflexivity.
Qed.

(** ** The invariant on [totalSize] *)

Lemma listed_consistent env w : manifest_consistent w → Forall consistent (listed env w).
Proof.
  unfold manifest_consistent, listed.
  destruct (getItem_rejects env DOWNLOADED_SONGS); auto.
Qed.

Lemma manifest_consistent_same w w' :
  downloaded_songs w' = downloaded_songs w → manifest_consistent w → manifest_consistent w'.
Proof. unfold manifest_consistent, stored. intros ->. auto. Qed.

Lemma filter_consistent (keep : DownloadedSong.t -> bool) songs :
  Forall consistent songs → Forall consistent (List.filter keep songs).
Proof.
  intros H. apply Forall_forall. intros d Hd.
  apply list_elem_of_In, filter_In in Hd as [Hd _].
  rewrite Forall_forall in H. apply H. apply list_elem_of_In. exact Hd.
Qed.

Lemma deleteSong_consistent env songId w :
  manifest_consistent w → manifest_consistent (snd (deleteSong env songId w)).
Proof.
  intros Hw. destruct (deleteSong_songs env songId w) as [_ [H|H]].
  - eapply manifest_consistent_same; eauto.
  - unfold manifest_consistent, stored. rewrite H. simpl.
    apply filter_consistent, listed_consistent, Hw.
Qed.

Lemma sweep_consistent env songs w :
  manifest_consistent w → manifest_consistent (snd (sweep env songs w)).
Proof.
  unfold sweep. revert w. induction songs as [|d songs IH]; intros w Hw; simpl; [exact Hw|].
  unfold bind at 1. unfold bind at 1.
  pose proof (deleteSong_consistent env (DownloadedSong.id d) w Hw) as Hc.
  destruct (deleteSong env (DownloadedSong.id d) w) as [[b|e] w1]; simpl in *.
  - apply IH. exact Hc.
  - exact Hc.
Qed.

Lemma clearAllDownloads_consistent env w :
  manifest_consistent w → manifest_consistent (snd (clearAllDownloads env w)).
Proof.
  intros Hw. rewrite clearAllDownloads_run.
  assert (Hs : manifest_consistent (snd (sweep env (listed env w) (after_listing env w)))).
  { apply sweep_consistent.
    apply (manifest_consistent_same w); [apply after_listing_songs|exact Hw]. }
  destruct (setItem_rejects env DOWNLOADED_SONGS); simpl.
  - exact Hs.
  - constructor.
Qed.

Lemma downloadSong_try_songs env song options progressCallback w r f :
  downloadSong_try env (Some song) options progressCallback (new_frame w) = (r, f) →
  downloaded_songs (world f) = downloaded_songs w
  ∨ ∃ d, r = Normal (Some d) ∧ consistent d
         ∧ downloaded_songs (world f) = Some (listed env w ++ [d]).
Proof.
  rewrite downloadSong_try_run.
  destruct (negb (valid song)); [intros H; injection H as <- <-; auto|].
  destruct (getNetworkStateAsync env) as [?|netInfo]; [intros H; injection H as <- <-; auto|].
  destruct (negb _); [intros H; injection H as <- <-; auto|].
  cbv zeta.
  destruct (existsb _ _).
  { intros H; injection H as <- <-. left. simpl. rewrite !after_listing_songs. reflexivity. }
  destruct (getItem_rejects env DOWNLOAD_SETTINGS).
  { intros H; injection H as <- <-. left. simpl. rewrite !after_listing_songs. reflexivity. }
  destruct (exceeds _ _ _).
  { intros H; injection H as <- <-. left. simpl. rewrite !after_listing_songs. reflexivity. }
  intros Hrun. apply downloadSong_admitted_post in Hrun.
  destruct r as [x|error]; simpl in Hrun.
  - right. destruct Hrun as (d & f1 & -> & _ & _ & _ & Hsongs & _ & _ & _ & _ & Hc).
    exists d. split; [reflexivity|]. split; [exact Hc|].
    rewrite Hsongs. rewrite !listed_after_listing. reflexivity.
  - left. destruct Hrun as (Hsongs & _). rewrite Hsongs. simpl.
    rewrite !after_listing_songs. reflexivity.
Qed.

Lemma downloadSong_consistent env song options progressCallback w :
  manifest_consistent w →
  manifest_consistent (snd (downloadSong env song options progressCallback w)).
Proof.
  intros Hw. destruct song as [song|].
  - rewrite downloadSong_run.
    destruct (downloadSong_try env (Some song) options progressCallback (new_frame w))
      as [r f] eqn:Hrun.
    apply downloadSong_try_songs in Hrun as [Hsame|(d & -> & Hd & Hsongs)].
    + apply (manifest_consistent_same w); [|exact Hw].
      destruct r; simpl; [exact Hsame|]. rewrite cleaned_songs. exact Hsame.
    + simpl. unfold manifest_consistent, stored. rewrite Hsongs. simpl.
      apply Forall_app. split; [apply listed_consistent; exact Hw|].
      constructor; [exact Hd|constructor].
  - apply (manifest_consistent_same w); [|exact Hw]. destruct progressCallback; reflexivity.
Qed.

(** C4. When every entry of the manifest has a [totalSize] equal to the sum
    of the sizes of its present artifacts, the same holds of the manifest
    after [downloadSong], after [deleteSong] and after [clearAllDownloads],
    whatever their arguments and whatever the collaborators answer; and an
    entry that [downloadSong] returns satisfies it too. *)
Theorem totalSize_invariant env w :
  manifest_consistent w →
  (∀ song options progressCallback,
     manifest_consistent (snd (downloadSong env song options progressCallback w))
     ∧ ∀ d, fst (downloadSong env song options progressCallback w) = Normal (Some d) →
            consistent d)
  ∧ (∀ songId, manifest_consistent (snd (deleteSong env songId w)))
  ∧ manifest_consistent (snd (clearAllDownloads env w)).
Proof.
  intros Hw. split; [|split].
  - intros song options progressCallback.
    split; [apply downloadSong_consistent; exact Hw|].
    intros d Hd. destruct song as [song|].
    + destruct (downloadSong env (Some song) options progressCallback w) as [r w1] eqn:Hrun.
      simpl in Hd. subst r.
      apply downloadSong_returns_entry in Hrun as (_ & _ & [(Hfind & _)|(_ & _ & _ & Hc)]).
      * apply find_some in Hfind as [Hin _].
        pose proof (listed_consistent env w Hw) as Hl. rewrite Forall_forall in Hl.
        apply Hl. apply list_elem_of_In. exact Hin.
      * exact Hc.
    + destruct progressCallback; discriminate.
  - intros songId. apply deleteSong_consistent. exact Hw.
  - apply clearAllDownloads_consistent. exact Hw.
Qed.

(** The manifest that holds song A, before and after a download of song C,
    a deletion of song A and a clearing. *)
Lemma totalSize_invariant_witness :
  manifest_consistent world_A
  ∧ manifest_consistent
      (snd (downloadSong env_online (Some song_C) DownloadOptions.empty true world_A))
  ∧ manifest_consistent (snd (deleteSong env_online "A" world_A))
  ∧ manifest_consistent (snd (clearAllDownloads env_online world_A)).
Proof.
  assert (H : manifest_consistent world_A).
  { constructor; [reflexivity|constructor]. }
  destruct (totalSize_invariant env_online world_A H) as (Hdownload & Hdelete & Hclear).
  split; [exact H|]. split; [apply Hdownload|]. split; [apply Hdelete|exact Hclear].
Defined.

Lemma manifest_consistent_initially w : downloaded_songs w = None → manifest_consistent w.
Proof. unfold manifest_consistent, stored. intros ->. constructor. Qed.

(** ** Settings *)

Lemma getDownloadSettings_run env w :
  getDownloadSettings env w =
  match getItem_rejects env DOWNLOAD_SETTINGS with
  | Some _ => (Normal DEFAULT_SETTINGS, logged "Error getting download settings:" w)
  | None => (Normal (settings_read w), w)
  end.
Proof.
  unfold getDownloadSettings, try_catch, bind, AsyncStorage_getItem_settings, rejecting,
    settings_read.
  destruct (getItem_rejects env DOWNLOAD_SETTINGS); reflexivity.
Qed.

Lemma merged_complete storedSettings :
  complete storedSettings → merged_with_defaults storedSettings = storedSettings.
Proof.
  destruct storedSettings as [m a b c d].
  intros ([? Hm] & [? Ha] & [? Hb] & [? Hc] & [? Hd]). simpl in *. subst. reflexivity.
Qed.

(** C7, as the code has it.  [getDownloadSettings] returns the stored
    settings object as it is: a field that the stored object lacks stays
    absent.  It returns the defaults (500 MiB, false, false, false, true)
    only when nothing is stored or the read fails.  It changes neither
    store.  For a stored object that has all five fields this is the same
    as spreading it over the defaults. *)
Theorem getDownloadSettings_returns_stored env w :
  fst (getDownloadSettings env w)
  = Normal match getItem_rejects env DOWNLOAD_SETTINGS, download_settings w with
           | None, Some storedSettings => storedSettings
           | _, _ => DEFAULT_SETTINGS
           end
  ∧ download_settings (snd (getDownloadSettings env w)) = download_settings w
  ∧ downloaded_songs (snd (getDownloadSettings env w)) = downloaded_songs w
  ∧ DEFAULT_SETTINGS
    = DownloadSettings.mk (Some (500 * 1024 * 1024)) (Some false) (Some false) (Some false)
        (Some true)
  ∧ (∀ storedSettings,
       complete storedSettings → merged_with_defaults storedSettings = storedSettings).
Proof.
  rewrite getDownloadSettings_run. unfold settings_read.
  split; [|split; [|split; [|split; [reflexivity|apply merged_complete]]]].
  all: destruct (getItem_rejects env DOWNLOAD_SETTINGS); try reflexivity.
  all: destruct (download_settings w); reflexivity.
Qed.

(** C7 as stated fails: with only [maxStorageSize] stored, the object that
    [getDownloadSettings] returns has no [autoDownloadOnWifi]; it is not the
    stored object merged with the defaults. *)
Lemma getDownloadSettings_does_not_merge :
  download_settings world_only_quota = Some only_quota
  ∧ fst (getDownloadSettings env_online world_only_quota) = Normal only_quota
  ∧ DownloadSettings.autoDownloadOnWifi only_quota = None
  ∧ DownloadSettings.autoDownloadOnWifi (merged_with_defaults only_quota) = Some false
  ∧ fst (getDownloadSettings env_online world_only_quota)
    ≠ Normal (merged_with_defaults only_quota).
Proof.
  split; [reflexivity|]. split; [reflexivity|]. split; [reflexivity|]. split; [reflexivity|].
  vm_compute. intros H. discriminate H.
Qed.

(** ** Exceptions *)

(** With a song object, whatever fails inside [downloadSong] is turned into
    a [null] result: the call never throws. *)
Lemma downloadSong_song_never_throws env song options progressCallback w :
  ∃ x, fst (downloadSong env (Some song) options progressCallback w) = Normal x.
Proof.
  rewrite downloadSong_run.
  destruct (downloadSong_try env (Some song) options progressCallback (new_frame w))
    as [[x|error] f]; simpl; eauto.
Qed.

(** Without a song and without a callback, [downloadSong] returns [null]. *)
Lemma downloadSong_null_song_no_callback env options w :
  fst (downloadSong env None options false w) = Normal None.
Proof. reflexivity. Qed.

(** C9 fails on the code.  Without a song ([null] or [undefined]) and with
    a callback, the [catch] block reads [song.id] to build the failed event;
    that throws, nothing is reported, and the exception leaves
    [downloadSong]. *)
Theorem downloadSong_null_song_throws env options w :
  fst (downloadSong env None options true w)
  = Throw (TypeError "Cannot read properties of null (reading 'id')")
  ∧ events (snd (downloadSong env None options true w)) = events w.
Proof. split; reflexivity. Qed.

(** ** The scenarios of the specification *)

(** With a quota of 1000 and song A (100 bytes) downloaded, song B (950
    bytes) is refused; after song A is deleted, song B is downloaded. *)
Example scenario_quota :
  let refused := downloadSong env_online (Some song_B) DownloadOptions.empty true world_A in
  let deleted := deleteSong env_online "A" (snd refused) in
  let accepted := downloadSong env_online (Some song_B) DownloadOptions.empty true (snd deleted) in
  fst refused = Normal None
  ∧ last (events (snd refused))
    = Some (DownloadProgress.mk (Some "B") 0 failed (Some "Not enough storage space"))
  ∧ fst deleted = Normal true
  ∧ fst (isSongDownloaded env_online "A" (snd deleted)) = Normal false
  ∧ files (snd deleted) !! lyricsUri env_online "A" = None
  ∧ (∃ d, fst accepted = Normal (Some d) ∧ DownloadedSong.totalSize d = 950)
  ∧ fst (getCurrentStorageUsage env_online (snd accepted)) = Normal 950.
Proof.
  cbv zeta. split; [reflexivity|]. split; [reflexivity|]. split; [reflexivity|].
  split; [reflexivity|]. split; [reflexivity|].
  split; [eexists; split; reflexivity|reflexivity].
Qed.

(** ** Settings *)

Lemma updateDownloadSettings_run env settings w :
  updateDownloadSettings env settings w =
  let w1 :=
    match getItem_rejects env DOWNLOAD_SETTINGS with
    | Some _ => logged "Error getting download settings:" w
    | None => w
    end in
  match setItem_rejects env DOWNLOAD_SETTINGS with
  | Some _ => (Normal false, logged "Error updating download settings:" w1)
  | None =>
      (Normal true,
       set_download_settings (Some (stringify_spread (current_settings env w) settings)) w1)
  end.
Proof.
  unfold updateDownloadSettings, try_catch, bind. rewrite getDownloadSettings_run.
  unfold current_settings, AsyncStorage_setItem_settings, rejecting, throw, console_error, ret, logged.
  destruct (getItem_rejects env DOWNLOAD_SETTINGS), (setItem_rejects env DOWNLOAD_SETTINGS);
    reflexivity.
Qed.

Lemma stringify_spread_reads_back currentSettings settings :
  let new := stringify_spread currentSettings settings in
  reads_back (SettingsUpdate.maxStorageSize settings)
    (DownloadSettings.maxStorageSize currentSettings) (DownloadSettings.maxStorageSize new)
  ∧ reads_back (SettingsUpdate.autoDownloadOnWifi settings)
      (DownloadSettings.autoDownloadOnWifi currentSettings)
      (DownloadSettings.autoDownloadOnWifi new)
  ∧ reads_back (SettingsUpdate.downloadAudioByDefault settings)
      (DownloadSettings.downloadAudioByDefault currentSettings)
      (DownloadSettings.downloadAudioByDefault new)
  ∧ reads_back (SettingsUpdate.downloadNotationByDefault settings)
      (DownloadSettings.downloadNotationByDefault currentSettings)
      (DownloadSettings.downloadNotationByDefault new)
  ∧ reads_back (SettingsUpdate.notifyOnComplete settings)
      (DownloadSettings.notifyOnComplete currentSettings)
      (DownloadSettings.notifyOnComplete new).
Proof.
  destruct settings as [[[?|]|] [[?|]|] [[?|]|] [[?|]|] [[?|]|]]; simpl; auto.
Qed.

(** X1.  [updateDownloadSettings] never throws.  It answers [false] exactly
    when the write of the settings is rejected, and the stored settings are
    then as before.  When it answers [true], each field of the stored
    settings is what the update gives for it, is missing when the update
    gives [undefined] for it, and is otherwise the field of the settings
    that were stored, or of the defaults when nothing was stored or the
    read failed.  Manifest and files are left alone. *)
Theorem updateDownloadSettings_outcome env settings w :
  let r := updateDownloadSettings env settings w in
  let old :=
    match getItem_rejects env DOWNLOAD_SETTINGS, download_settings w with
    | None, Some storedSettings => storedSettings
    | _, _ => DEFAULT_SETTINGS
    end in
  (fst r = Normal false ∨ fst r = Normal true)
  ∧ (fst r = Normal false ↔ is_Some (setItem_rejects env DOWNLOAD_SETTINGS))
  ∧ (fst r = Normal false → download_settings (snd r) = download_settings w)
  ∧ (fst r = Normal true →
     ∃ new,
       download_settings (snd r) = Some new
       ∧ reads_back (SettingsUpdate.maxStorageSize settings)
           (DownloadSettings.maxStorageSize old) (DownloadSettings.maxStorageSize new)
       ∧ reads_back (SettingsUpdate.autoDownloadOnWifi settings)
           (DownloadSettings.autoDownloadOnWifi old) (DownloadSettings.autoDownloadOnWifi new)
       ∧ reads_back (SettingsUpdate.downloadAudioByDefault settings)
           (DownloadSettings.downloadAudioByDefault old)
           (DownloadSettings.downloadAudioByDefault new)
       ∧ reads_back (SettingsUpdate.downloadNotationByDefault settings)
           (DownloadSettings.downloadNotationByDefault old)
           (DownloadSettings.downloadNotationByDefault new)
       ∧ reads_back (SettingsUpdate.notifyOnComplete settings)
           (DownloadSettings.notifyOnComplete old) (DownloadSettings.notifyOnComplete new))
  ∧ downloaded_songs (snd r) = downloaded_songs w
  ∧ files (snd r) = files w.
Proof.
  intros r old. subst r.
  assert (Hold : old = current_settings env w).
  { subst old. unfold current_settings, settings_read.
    destruct (getItem_rejects env DOWNLOAD_SETTINGS); [reflexivity|].
    destruct (download_settings w); reflexivity. }
  rewrite Hold. clear Hold old.
  rewrite updateDownloadSettings_run. cbv zeta.
  destruct (setItem_rejects env DOWNLOAD_SETTINGS) as [e|] eqn:Hset; simpl.
  - split; [auto|]. split; [split; eauto|].
    split; [intros _; destruct (getItem_rejects env DOWNLOAD_SETTINGS); reflexivity|].
    split; [discriminate|].
    split; destruct (getItem_rejects env DOWNLOAD_SETTINGS); reflexivity.
  - split; [auto|]. split; [split; [discriminate|intros [? ?]; discriminate]|].
    split; [discriminate|].
    split.
    + intros _. eexists. split; [reflexivity|]. apply stringify_spread_reads_back.
    + split; destruct (getItem_rejects env DOWNLOAD_SETTINGS); reflexivity.
Qed.

(** X2.  Once [updateDownloadSettings] has answered [true], a
    [getDownloadSettings] that can read answers, field by field: what the
    update gives for the field; no field, when the update has the key with
    the value [undefined]; what [getDownloadSettings] answered for it
    before, when the update does not have the key. *)
Theorem updateDownloadSettings_round_trip env env' settings w :
  fst (updateDownloadSettings env settings w) = Normal true →
  getItem_rejects env' DOWNLOAD_SETTINGS = None →
  let before := fst (getDownloadSettings env w) in
  let after := fst (getDownloadSettings env' (snd (updateDownloadSettings env settings w))) in
  ∃ old new,
    before = Normal old ∧ after = Normal new
    ∧ reads_back (SettingsUpdate.maxStorageSize settings)
        (DownloadSettings.maxStorageSize old) (DownloadSettings.maxStorageSize new)
    ∧ reads_back (SettingsUpdate.autoDownloadOnWifi settings)
        (DownloadSettings.autoDownloadOnWifi old) (DownloadSettings.autoDownloadOnWifi new)
    ∧ reads_back (SettingsUpdate.downloadAudioByDefault settings)
        (DownloadSettings.downloadAudioByDefault old)
        (DownloadSettings.downloadAudioByDefault new)
    ∧ reads_back (SettingsUpdate.downloadNotationByDefault settings)
        (DownloadSettings.downloadNotationByDefault old)
        (DownloadSettings.downloadNotationByDefault new)
    ∧ reads_back (SettingsUpdate.notifyOnComplete settings)
        (DownloadSettings.notifyOnComplete old) (DownloadSettings.notifyOnComplete new).
Proof.
  intros Hok Hread before after. subst before after.
  revert Hok. rewrite updateDownloadSettings_run. cbv zeta.
  destruct (setItem_rejects env DOWNLOAD_SETTINGS); [discriminate|]. intros _.
  rewrite !getDownloadSettings_run, Hread. fold (current_settings env w).
  exists (current_settings env w), (stringify_spread (current_settings env w) settings).
  split. { unfold current_settings. destruct (getItem_rejects env DOWNLOAD_SETTINGS); reflexivity. }
  split; [reflexivity|]. apply stringify_spread_reads_back.
Qed.

(** A quota of 1000 bytes is stored.  Setting audio by default keeps the
    quota; passing the quota with the value [undefined] removes it. *)
Lemma updateDownloadSettings_round_trip_witness :
  fst (updateDownloadSettings env_online update_audio world_only_quota) = Normal true
  ∧ fst (updateDownloadSettings env_online update_quota_undefined world_only_quota) = Normal true
  ∧ (∃ new,
       fst (getDownloadSettings env_online
              (snd (updateDownloadSettings env_online update_audio world_only_quota)))
       = Normal new
       ∧ DownloadSettings.downloadAudioByDefault new = Some true
       ∧ DownloadSettings.maxStorageSize new = Some 1000)
  ∧ (∃ new,
       fst (getDownloadSettings env_online
              (snd (updateDownloadSettings env_online update_quota_undefined
                      world_only_quota)))
       = Normal new
       ∧ DownloadSettings.maxStorageSize new = None).
Proof.
  assert (H1 : fst (updateDownloadSettings env_online update_audio world_only_quota)
               = Normal true) by reflexivity.
  assert (H2 : fst (updateDownloadSettings env_online update_quota_undefined world_only_quota)
               = Normal true) by reflexivity.
  assert (H3 : getItem_rejects env_online DOWNLOAD_SETTINGS = None) by reflexivity.
  split; [exact H1|]. split; [exact H2|]. split.
  - destruct (updateDownloadSettings_round_trip env_online env_online update_audio
                world_only_quota H1 H3)
      as (old & new & Hold & Hnew & Hmax & _ & Haudio & _).
    exists new. split; [exact Hnew|]. split; [exact Haudio|].
    simpl in Hmax. rewrite Hmax. injection Hold as <-. reflexivity.
  - destruct (updateDownloadSettings_round_trip env_online env_online update_quota_undefined
                world_only_quota H2 H3)
      as (old & new & Hold & Hnew & Hmax & _).
    exists new. split; [exact Hnew|exact Hmax].
Defined.

Lemma cleaned_settings env paths w :
  download_settings (cleaned env paths w) = download_settings w.
Proof.
  revert w. induction paths as [|p paths IH]; intros w; simpl; [reflexivity|].
  rewrite IH. destruct (deleteAsync_rejects env p); reflexivity.
Qed.

Lemma downloadSong_try_settings env song options progressCallback w r f :
  downloadSong_try env (Some song) options progressCallback (new_frame w) = (r, f) →
  download_settings (world f) = download_settings w.
Proof.
  rewrite downloadSong_try_run.
  destruct (negb (valid song)); [intros H; injection H as <- <-; auto|].
  destruct (getNetworkStateAsync env) as [?|netInfo]; [intros H; injection H as <- <-; auto|].
  destruct (negb _); [intros H; injection H as <- <-; auto|].
  cbv zeta.
  destruct (existsb _ _).
  { intros H; injection H as <- <-. simpl. rewrite !after_listing_settings. reflexivity. }
  destruct (getItem_rejects env DOWNLOAD_SETTINGS).
  { intros H; injection H as <- <-. simpl. rewrite !after_listing_settings. reflexivity. }
  destruct (exceeds _ _ _).
  { intros H; injection H as <- <-. simpl. rewrite !after_listing_settings. reflexivity. }
  intros Hrun. apply downloadSong_admitted_post in Hrun.
  destruct r as [x|error]; simpl in Hrun.
  - destruct Hrun as (d & f1 & -> & _ & _ & _ & _ & Hsettings & _).
    rewrite Hsettings. simpl. rewrite !after_listing_settings. reflexivity.
  - destruct Hrun as (_ & Hsettings & _). rewrite Hsettings. simpl.
    rewrite !after_listing_settings. reflexivity.
Qed.

Lemma downloadSong_settings env song options progressCallback w :
  download_settings (snd (downloadSong env song options progressCallback w))
  = download_settings w.
Proof.
  destruct song as [song|].
  - rewrite downloadSong_run.
    destruct (downloadSong_try env (Some song) options progressCallback (new_frame w))
      as [r f] eqn:Hrun.
    apply downloadSong_try_settings in Hrun.
    destruct r; simpl; [exact Hrun|]. rewrite cleaned_settings. exact Hrun.
  - destruct progressCallback; reflexivity.
Qed.

Lemma deleteSong_settings env songId w :
  download_settings (snd (deleteSong env songId w)) = download_settings w.
Proof.
  rewrite deleteSong_run. cbv zeta.
  destruct (find _ _) as [d|]; simpl; [|apply after_listing_settings].
  repeat (destruct (deletion_rejects _ _); simpl; [apply after_listing_settings|]).
  destruct (setItem_rejects env DOWNLOADED_SONGS); simpl;
    rewrite !after_listing_settings; simpl; apply after_listing_settings.
Qed.

Lemma sweep_settings env songs w :
  download_settings (snd (sweep env songs w)) = download_settings w.
Proof.
  revert w. induction songs as [|song songs IH]; intros w; [reflexivity|].
  unfold sweep in *. simpl. unfold bind at 1 2.
  pose proof (deleteSong_settings env (DownloadedSong.id song) w) as Hd.
  destruct (deleteSong env (DownloadedSong.id song) w) as [[b|error] w1]; simpl in *.
  - unfold ret. rewrite IH. exact Hd.
  - exact Hd.
Qed.

Lemma clearAllDownloads_settings env w :
  download_settings (snd (clearAllDownloads env w)) = download_settings w.
Proof.
  rewrite clearAllDownloads_run. cbv zeta.
  destruct (setItem_rejects env DOWNLOADED_SONGS); simpl;
    rewrite sweep_settings; apply after_listing_settings.
Qed.

(** X3.  The stored settings are written by [updateDownloadSettings] only:
    [downloadSong], [deleteSong], [clearAllDownloads], [getDownloadSettings]
    and [getCurrentStorageUsage] leave them as they were, whatever their
    arguments and whatever the collaborators answer. *)
Theorem settings_written_only_by_update env w :
  (∀ song options progressCallback,
     download_settings (snd (downloadSong env song options progressCallback w))
     = download_settings w)
  ∧ (∀ songId, download_settings (snd (deleteSong env songId w)) = download_settings w)
  ∧ download_settings (snd (clearAllDownloads env w)) = download_settings w
  ∧ download_settings (snd (getDownloadSettings env w)) = download_settings w
  ∧ download_settings (snd (getCurrentStorageUsage env w)) = download_settings w.
Proof.
  split; [intros; apply downloadSong_settings|].
  split; [intros; apply deleteSong_settings|].
  split; [apply clearAllDownloads_settings|].
  split.
  - rewrite getDownloadSettings_run. destruct (getItem_rejects env DOWNLOAD_SETTINGS); reflexivity.
  - rewrite getCurrentStorageUsage_run. apply after_listing_settings.
Qed.

Lemma stringify_spread_complete currentSettings settings :
  without_undefined settings →
  complete currentSettings → complete (stringify_spread currentSettings settings).
Proof.
  unfold complete, without_undefined, stringify_spread. simpl.
  intros (U1 & U2 & U3 & U4 & U5) (H1 & H2 & H3 & H4 & H5).
  destruct settings as [[[?|]|] [[?|]|] [[?|]|] [[?|]|] [[?|]|]]; simpl in *;
    try congruence; repeat split; eauto.
Qed.

Lemma DEFAULT_SETTINGS_complete : complete DEFAULT_SETTINGS.
Proof. unfold complete. simpl. repeat split; eauto. Qed.

Lemma current_settings_complete env w :
  settings_complete w → complete (current_settings env w).
Proof.
  unfold settings_complete, current_settings, settings_read. intros H.
  destruct (getItem_rejects env DOWNLOAD_SETTINGS); [apply DEFAULT_SETTINGS_complete|].
  destruct (download_settings w); [exact H|apply DEFAULT_SETTINGS_complete].
Qed.

(** X4.  When the stored settings, if any, have all five fields, they still
    have them after [updateDownloadSettings] with an update that has no key
    of value [undefined], after [downloadSong], [deleteSong] and
    [clearAllDownloads]; and [getDownloadSettings] then answers settings
    with all five fields. *)
Theorem settings_stay_complete env w :
  settings_complete w →
  (∀ settings,
     without_undefined settings →
     settings_complete (snd (updateDownloadSettings env settings w)))
  ∧ (∀ song options progressCallback,
       settings_complete (snd (downloadSong env song options progressCallback w)))
  ∧ (∀ songId, settings_complete (snd (deleteSong env songId w)))
  ∧ settings_complete (snd (clearAllDownloads env w))
  ∧ (∃ settings, fst (getDownloadSettings env w) = Normal settings ∧ complete settings).
Proof.
  intros Hw. split; [|split; [|split; [|split]]].
  - intros settings Hdefined. rewrite updateDownloadSettings_run. cbv zeta.
    destruct (setItem_rejects env DOWNLOAD_SETTINGS); unfold settings_complete; simpl.
    + destruct (getItem_rejects env DOWNLOAD_SETTINGS); exact Hw.
    + apply stringify_spread_complete; [exact Hdefined|]. apply current_settings_complete, Hw.
  - intros. unfold settings_complete. rewrite downloadSong_settings. exact Hw.
  - intros. unfold settings_complete. rewrite deleteSong_settings. exact Hw.
  - unfold settings_complete. rewrite clearAllDownloads_settings. exact Hw.
  - exists (current_settings env w). split; [|apply current_settings_complete, Hw].
    rewrite getDownloadSettings_run. unfold current_settings.
    destruct (getItem_rejects env DOWNLOAD_SETTINGS); reflexivity.
Qed.

Lemma settings_stay_complete_witness :
  settings_complete world_A
  ∧ without_undefined update_audio
  ∧ settings_complete (snd (updateDownloadSettings env_online update_audio world_A))
  ∧ ∃ settings, fst (getDownloadSettings env_online world_A) = Normal settings ∧ complete settings.
Proof.
  assert (H : settings_complete world_A).
  { unfold settings_complete, complete. simpl. repeat split; eauto. }
  assert (H' : without_undefined update_audio).
  { unfold without_undefined. simpl. repeat split; discriminate. }
  destruct (settings_stay_complete env_online world_A H) as (Hu & _ & _ & _ & Hg).
  split; [exact H|]. split; [exact H'|]. split; [apply Hu, H'|exact Hg].
Defined.

(** ** Ids in the manifest *)

Lemma has_id_true songId d : has_id songId d = true ↔ DownloadedSong.id d = songId.
Proof. unfold has_id. apply String.eqb_eq. Qed.

Lemma other_than_true songId d : other_than songId d = true ↔ DownloadedSong.id d ≠ songId.
Proof.
  unfold other_than. rewrite negb_true_iff. split.
  - intros H Heq. apply String.eqb_eq in Heq. congruence.
  - intros H. apply String.eqb_neq. exact H.
Qed.

Lemma find_none_ids songId songs :
  find (has_id songId) songs = None ↔ songId ∉ map DownloadedSong.id songs.
Proof.
  induction songs as [|d songs IH]; simpl.
  - split; [intros _ H; inversion H|auto].
  - destruct (has_id songId d) eqn:Hd.
    + apply has_id_true in Hd. split; [discriminate|]. intros H. exfalso. apply H.
      rewrite Hd. left.
    + rewrite IH. split.
      * intros H Hin. apply elem_of_cons in Hin as [Heq|Hin]; [|auto].
        symmetry in Heq. apply has_id_true in Heq. congruence.
      * intros H Hin. apply H. right. exact Hin.
Qed.

Lemma NoDup_ids_filter (keep : DownloadedSong.t -> bool) songs :
  NoDup (map DownloadedSong.id songs) → NoDup (map DownloadedSong.id (List.filter keep songs)).
Proof.
  induction songs as [|d songs IH]; simpl; [auto|].
  intros H. apply NoDup_cons in H as [Hd H].
  destruct (keep d); simpl; [|auto].
  apply NoDup_cons. split; [|auto].
  intros Hin. apply Hd. apply list_elem_of_fmap in Hin as (d' & -> & Hin).
  apply list_elem_of_fmap. exists d'. split; [reflexivity|].
  apply list_elem_of_In. apply list_elem_of_In in Hin. apply filter_In in Hin. tauto.
Qed.

Lemma listed_unique env w : unique_ids w → NoDup (map DownloadedSong.id (listed env w)).
Proof.
  unfold unique_ids, listed. destruct (getItem_rejects env DOWNLOADED_SONGS); [|auto].
  intros _. constructor.
Qed.

Lemma unique_ids_same w w' :
  downloaded_songs w' = downloaded_songs w → unique_ids w → unique_ids w'.
Proof. unfold unique_ids, stored. intros ->. auto. Qed.

Lemma deleteSong_unique env songId w :
  unique_ids w → unique_ids (snd (deleteSong env songId w)).
Proof.
  intros Hw. destruct (deleteSong_songs env songId w) as (_ & [H|H]).
  - apply (unique_ids_same w); assumption.
  - unfold unique_ids, stored. rewrite H. simpl. apply NoDup_ids_filter, listed_unique, Hw.
Qed.

Lemma sweep_unique env songs w :
  unique_ids w → unique_ids (snd (sweep env songs w)).
Proof.
  revert w. induction songs as [|song songs IH]; intros w Hw; [exact Hw|].
  unfold sweep in *. simpl. unfold bind at 1 2.
  pose proof (deleteSong_unique env (DownloadedSong.id song) w Hw) as Hd.
  destruct (deleteSong env (DownloadedSong.id song) w) as [[b|error] w1]; simpl in *.
  - unfold ret. apply IH. exact Hd.
  - exact Hd.
Qed.

Lemma clearAllDownloads_unique env w :
  unique_ids w → unique_ids (snd (clearAllDownloads env w)).
Proof.
  intros Hw. rewrite clearAllDownloads_run. cbv zeta.
  destruct (setItem_rejects env DOWNLOADED_SONGS); simpl.
  - apply (unique_ids_same (snd (sweep env (listed env w) (after_listing env w)))); [reflexivity|].
    apply sweep_unique. apply (unique_ids_same w); [apply after_listing_songs|exact Hw].
  - unfold unique_ids, stored. simpl. constructor.
Qed.

Lemma downloadSong_unique env song options progressCallback w :
  unique_ids w → unique_ids (snd (downloadSong env song options progressCallback w)).
Proof.
  intros Hw. destruct song as [song|].
  - destruct (downloadSong env (Some song) options progressCallback w) as [r w1] eqn:Hrun.
    simpl. destruct r as [[d|]|error].
    + apply downloadSong_returns_entry in Hrun
        as (_ & _ & [(_ & ->)|(Hfind & Hsongs & Hid & _)]); [exact Hw|].
      unfold unique_ids, stored. rewrite Hsongs. simpl. rewrite map_app. simpl.
      apply NoDup_app. split; [apply listed_unique, Hw|]. split; [|apply NoDup_singleton].
      intros x Hx Hx'. apply list_elem_of_singleton in Hx'. subst x. rewrite Hid in Hx.
      apply find_none_ids in Hfind. contradiction.
    + revert Hrun. rewrite downloadSong_run.
      destruct (downloadSong_try env (Some song) options progressCallback (new_frame w))
        as [r f] eqn:Htry.
      apply downloadSong_try_songs in Htry as [Hsame|(d & -> & _ & _)].
      * destruct r; intros H.
        -- injection H as _ <-. apply (unique_ids_same w); auto.
        -- injection H as <-. apply (unique_ids_same w); auto.
           simpl. rewrite cleaned_songs. exact Hsame.
      * discriminate.
    + destruct (downloadSong_song_never_throws env song options progressCallback w) as [x Hx].
      rewrite Hrun in Hx. discriminate.
  - apply (unique_ids_same w); [|exact Hw]. destruct progressCallback; reflexivity.
Qed.

(** X5.  When no two entries of the stored manifest have the same id, this
    is still so after a [downloadSong] during which the manifest can be
    read, whatever the song, the options and the callback; and after
    [deleteSong] and after [clearAllDownloads], which only ever write a
    part of what they read. *)
Theorem manifest_ids_stay_unique env w :
  unique_ids w →
  (getItem_rejects env DOWNLOADED_SONGS = None →
   ∀ song options progressCallback,
     unique_ids (snd (downloadSong env song options progressCallback w)))
  ∧ (∀ songId, unique_ids (snd (deleteSong env songId w)))
  ∧ unique_ids (snd (clearAllDownloads env w)).
Proof.
  intros Hw. split; [intros _; intros; apply downloadSong_unique, Hw|].
  split; [intros; apply deleteSong_unique, Hw|apply clearAllDownloads_unique, Hw].
Qed.

Lemma manifest_ids_stay_unique_witness :
  unique_ids world_A
  ∧ getItem_rejects env_online DOWNLOADED_SONGS = None
  ∧ unique_ids (snd (downloadSong env_online (Some song_D) DownloadOptions.empty true world_A))
  ∧ unique_ids (snd (deleteSong env_online "A" world_A))
  ∧ unique_ids (snd (clearAllDownloads env_online world_A)).
Proof.
  assert (H : unique_ids world_A).
  { unfold unique_ids. simpl. apply NoDup_singleton. }
  destruct (manifest_ids_stay_unique env_online world_A H) as (Hdownload & Hdelete & Hclear).
  split; [exact H|]. split; [reflexivity|].
  split; [apply Hdownload; reflexivity|]. split; [apply Hdelete|exact Hclear].
Defined.

(** ** Deleting, usage and lookups *)

Lemma listed_stored env w :
  getItem_rejects env DOWNLOADED_SONGS = None → listed env w = stored w.
Proof. unfold listed. intros ->. reflexivity. Qed.

Lemma stored_after_listing env w : stored (after_listing env w) = stored w.
Proof. unfold stored. rewrite after_listing_songs. reflexivity. Qed.

Lemma find_has_id songId songs d :
  find (has_id songId) songs = Some d → DownloadedSong.id d = songId ∧ d ∈ songs.
Proof.
  intros H. apply find_some in H as [Hin Hid]. split; [apply has_id_true, Hid|].
  apply list_elem_of_In, Hin.
Qed.

Lemma find_filter_other songId songs :
  find (has_id songId) (List.filter (other_than songId) songs) = None.
Proof.
  induction songs as [|d songs IH]; simpl; [reflexivity|].
  unfold other_than at 1, has_id. destruct (String.eqb (DownloadedSong.id d) songId) eqn:E; simpl.
  - exact IH.
  - unfold has_id. rewrite E. exact IH.
Qed.

Lemma without_gone artifact (fs : gmap string Z) p :
  fs !! p = None → without artifact fs !! p = None.
Proof.
  destruct artifact as [a|]; simpl; [|auto]. intros H.
  destruct (decide (Artifact.localUri a = p)) as [->|Hne].
  - apply lookup_delete_eq.
  - rewrite lookup_delete_ne; auto.
Qed.

Lemma without_self a (fs : gmap string Z) : without (Some a) fs !! Artifact.localUri a = None.
Proof. simpl. apply lookup_delete_eq. Qed.

Lemma without_lookup artifact (fs : gmap string Z) p :
  without artifact fs !! p = None ∨ without artifact fs !! p = fs !! p.
Proof.
  destruct artifact as [a|]; simpl; [|auto].
  destruct (decide (Artifact.localUri a = p)) as [->|Hne].
  - left. apply lookup_delete_eq.
  - right. rewrite lookup_delete_ne; auto.
Qed.

Lemma without_all_lookup d (fs : gmap string Z) p :
  let fs' := without (DownloadedSong.notation d)
               (without (DownloadedSong.audio d) (without (DownloadedSong.lyrics d) fs)) in
  fs' !! p = None ∨ fs' !! p = fs !! p.
Proof.
  intros fs'. subst fs'.
  destruct (without_lookup (DownloadedSong.notation d)
              (without (DownloadedSong.audio d) (without (DownloadedSong.lyrics d) fs)) p)
    as [H|H]; [auto|]. rewrite H.
  destruct (without_lookup (DownloadedSong.audio d) (without (DownloadedSong.lyrics d) fs) p)
    as [H'|H']; [auto|]. rewrite H'. apply without_lookup.
Qed.

Lemma without_all_gone d (fs : gmap string Z) a :
  a ∈ artifacts d →
  without (DownloadedSong.notation d)
    (without (DownloadedSong.audio d) (without (DownloadedSong.lyrics d) fs))
  !! Artifact.localUri a = None.
Proof.
  unfold artifacts. rewrite !elem_of_app. intros [H|[H|H]].
  - destruct (DownloadedSong.lyrics d) as [x|]; simpl in H; [|inversion H].
    apply list_elem_of_singleton in H. subst x.
    apply without_gone, without_gone, lookup_delete_eq.
  - destruct (DownloadedSong.audio d) as [x|]; simpl in H; [|inversion H].
    apply list_elem_of_singleton in H. subst x.
    apply without_gone, lookup_delete_eq.
  - destruct (DownloadedSong.notation d) as [x|]; simpl in H; [|inversion H].
    apply list_elem_of_singleton in H. subst x.
    apply lookup_delete_eq.
Qed.

(** What a [deleteSong] that answers [true] did. *)
Lemma deleteSong_true env songId w :
  fst (deleteSong env songId w) = Normal true →
  ∃ d, find (has_id songId) (listed env w) = Some d
       ∧ snd (deleteSong env songId w)
         = set_downloaded_songs (Some (List.filter (other_than songId) (listed env w)))
             (set_files
                (without (DownloadedSong.notation d)
                   (without (DownloadedSong.audio d)
                      (without (DownloadedSong.lyrics d) (files w)))) w).
Proof.
  rewrite deleteSong_run. cbv zeta.
  destruct (find (has_id songId) (listed env w)) as [d|] eqn:Hfind; [|discriminate].
  pose proof (listed_readable _ _ _ _ Hfind) as Hread.
  unfold after_listing. rewrite Hread.
  repeat (destruct (deletion_rejects _ _); [discriminate|]).
  destruct (setItem_rejects env DOWNLOADED_SONGS); [discriminate|].
  intros _. exists d. split; reflexivity.
Qed.

Lemma without_lookup_ne artifact (fs : gmap string Z) p :
  (∀ a, artifact = Some a → Artifact.localUri a ≠ p) → without artifact fs !! p = fs !! p.
Proof.
  destruct artifact as [a|]; simpl; [|reflexivity]. intros H.
  apply lookup_delete_ne. apply H. reflexivity.
Qed.

Lemma without_all_lookup_ne d (fs : gmap string Z) p :
  (∀ a, a ∈ artifacts d → Artifact.localUri a ≠ p) →
  without (DownloadedSong.notation d)
    (without (DownloadedSong.audio d) (without (DownloadedSong.lyrics d) fs)) !! p
  = fs !! p.
Proof.
  unfold artifacts. intros H.
  rewrite !without_lookup_ne; [reflexivity| | |]; intros a Ha; apply H;
    rewrite !elem_of_app; rewrite Ha; simpl; [left|right; left|right; right]; left.
Qed.

(** X6.  After a [deleteSong] during which the manifest can be read has
    answered [true] for an id: [isSongDownloaded] answers [false] for it,
    [getDownloadedSong] answers [null] and a second [deleteSong] answers
    [false]; the file of each artifact of the entry that was found is gone
    and every other path holds what it held; the stored entries of other
    ids are still stored; the settings are as they were. *)
Theorem deleteSong_removes_song env env' songId w :
  getItem_rejects env DOWNLOADED_SONGS = None →
  fst (deleteSong env songId w) = Normal true →
  let w1 := snd (deleteSong env songId w) in
  fst (isSongDownloaded env' songId w1) = Normal false
  ∧ fst (getDownloadedSong env' songId w1) = Normal None
  ∧ fst (deleteSong env' songId w1) = Normal false
  ∧ (∃ d, fst (getDownloadedSong env songId w) = Normal (Some d)
          ∧ (∀ a, a ∈ artifacts d → files w1 !! Artifact.localUri a = None)
          ∧ (∀ p, (∀ a, a ∈ artifacts d → Artifact.localUri a ≠ p) →
                  files w1 !! p = files w !! p))
  ∧ (∀ d', d' ∈ stored w → DownloadedSong.id d' ≠ songId → d' ∈ stored w1)
  ∧ download_settings w1 = download_settings w.
Proof.
  intros Hread Htrue w1. subst w1.
  destruct (deleteSong_true env songId w Htrue) as (d & Hfind & ->).
  rewrite isSongDownloaded_run, !getDownloadedSong_run, (deleteSong_run env'). cbv zeta.
  assert (Hl : find (has_id songId)
                 (listed env'
                    (set_downloaded_songs (Some (List.filter (other_than songId) (listed env w)))
                       (set_files
                          (without (DownloadedSong.notation d)
                             (without (DownloadedSong.audio d)
                                (without (DownloadedSong.lyrics d) (files w)))) w))) = None).
  { unfold listed at 1. destruct (getItem_rejects env' DOWNLOADED_SONGS); [reflexivity|].
    unfold stored. simpl. apply find_filter_other. }
  rewrite Hl. simpl.
  split; [f_equal; apply not_listed, Hl|].
  split; [reflexivity|]. split; [reflexivity|].
  split.
  { exists d. split; [f_equal; exact Hfind|]. split.
    - intros a Ha. apply without_all_gone, Ha.
    - intros p Hp. apply without_all_lookup_ne, Hp. }
  split; [|reflexivity].
  intros d' Hin Hne. unfold stored at 1. simpl. rewrite (listed_stored env w Hread).
  apply list_elem_of_In, filter_In. split; [apply list_elem_of_In, Hin|].
  apply other_than_true, Hne.
Qed.

Lemma deleteSong_removes_song_witness :
  getItem_rejects env_online DOWNLOADED_SONGS = None
  ∧ fst (deleteSong env_online "A" world_A) = Normal true
  ∧ fst (isSongDownloaded env_online "A" (snd (deleteSong env_online "A" world_A)))
    = Normal false
  ∧ fst (getDownloadedSong env_online "A" (snd (deleteSong env_online "A" world_A)))
    = Normal None.
Proof.
  assert (H : fst (deleteSong env_online "A" world_A) = Normal true) by reflexivity.
  destruct (deleteSong_removes_song env_online env_online "A" world_A eq_refl H)
    as (H1 & H2 & _).
  split; [reflexivity|]. split; [exact H|]. split; [exact H1|exact H2].
Defined.

(** *** Usage *)

Lemma usage_from (songs : list DownloadedSong.t) (start : Z) :
  fold_left (fun total song => total + DownloadedSong.totalSize song) songs start
  = start + usage songs.
Proof.
  unfold usage. revert start. induction songs as [|d songs IH]; intros start; simpl; [lia|].
  rewrite (IH (start + DownloadedSong.totalSize d)), (IH (0 + DownloadedSong.totalSize d)). lia.
Qed.

Lemma usage_cons d songs : usage (d :: songs) = DownloadedSong.totalSize d + usage songs.
Proof. unfold usage at 1. simpl. apply usage_from. Qed.

Lemma usage_app songs1 songs2 : usage (songs1 ++ songs2) = usage songs1 + usage songs2.
Proof.
  induction songs1 as [|d songs1 IH]; simpl; [reflexivity|]. rewrite !usage_cons, IH. lia.
Qed.

Lemma filter_other_absent songId songs :
  songId ∉ map DownloadedSong.id songs → List.filter (other_than songId) songs = songs.
Proof.
  induction songs as [|d songs IH]; simpl; [reflexivity|]. intros H.
  rewrite not_elem_of_cons in H. destruct H as [Hne Hnot].
  assert (Ho : other_than songId d = true) by (apply other_than_true; congruence).
  rewrite Ho, IH; auto.
Qed.

Lemma usage_filter_other songId songs d :
  NoDup (map DownloadedSong.id songs) →
  find (has_id songId) songs = Some d →
  usage (List.filter (other_than songId) songs) = usage songs - DownloadedSong.totalSize d.
Proof.
  induction songs as [|d0 songs IH]; simpl; [discriminate|].
  intros Hnd. apply NoDup_cons in Hnd as [Hd0 Hnd].
  unfold other_than at 1, has_id at 1.
  destruct (String.eqb (DownloadedSong.id d0) songId) eqn:E; simpl.
  - intros H. injection H as <-. apply String.eqb_eq in E. rewrite <- E.
    rewrite filter_other_absent; [|exact Hd0]. rewrite usage_cons. lia.
  - intros H. rewrite !usage_cons, IH; auto. lia.
Qed.

(** X7.  With ids that are unique in the manifest and a manifest that can be
    read, a [deleteSong] that answers [true] lowers
    [getCurrentStorageUsage] by the [totalSize] of the entry that
    [getDownloadedSong] gave for that id. *)
Theorem deleteSong_frees_usage env songId w :
  unique_ids w →
  getItem_rejects env DOWNLOADED_SONGS = None →
  fst (deleteSong env songId w) = Normal true →
  ∃ d currentUsage,
    fst (getDownloadedSong env songId w) = Normal (Some d)
    ∧ fst (getCurrentStorageUsage env w) = Normal currentUsage
    ∧ fst (getCurrentStorageUsage env (snd (deleteSong env songId w)))
      = Normal (currentUsage - DownloadedSong.totalSize d).
Proof.
  intros Hu Hread Htrue. destruct (deleteSong_true env songId w Htrue) as (d & Hfind & ->).
  exists d, (usage (listed env w)).
  rewrite getDownloadedSong_run, !getCurrentStorageUsage_run. simpl.
  split; [f_equal; exact Hfind|]. split; [reflexivity|]. f_equal.
  unfold listed at 1. rewrite Hread. unfold stored at 1. simpl.
  apply usage_filter_other; [apply listed_unique, Hu|exact Hfind].
Qed.

Lemma deleteSong_frees_usage_witness :
  unique_ids world_A
  ∧ getItem_rejects env_online DOWNLOADED_SONGS = None
  ∧ fst (deleteSong env_online "A" world_A) = Normal true
  ∧ ∃ d currentUsage,
      fst (getDownloadedSong env_online "A" world_A) = Normal (Some d)
      ∧ fst (getCurrentStorageUsage env_online world_A) = Normal currentUsage
      ∧ fst (getCurrentStorageUsage env_online (snd (deleteSong env_online "A" world_A)))
        = Normal (currentUsage - DownloadedSong.totalSize d).
Proof.
  assert (H : unique_ids world_A).
  { unfold unique_ids. simpl. apply NoDup_singleton. }
  assert (H' : fst (deleteSong env_online "A" world_A) = Normal true) by reflexivity.
  split; [exact H|]. split; [reflexivity|]. split; [exact H'|].
  exact (deleteSong_frees_usage env_online "A" world_A H eq_refl H').
Defined.

(** X8.  When [downloadSong] returns an entry for a song that was not
    downloaded, and the manifest can be read, [getCurrentStorageUsage] has
    grown by the [totalSize] of that entry, which is the sum of the sizes of
    the artifacts it records. *)
Theorem downloadSong_adds_usage env song options progressCallback w d :
  fst (downloadSong env (Some song) options progressCallback w) = Normal (Some d) →
  fst (isSongDownloaded env (songId_of song) w) = Normal false →
  getItem_rejects env DOWNLOADED_SONGS = None →
  ∃ currentUsage,
    fst (getCurrentStorageUsage env w) = Normal currentUsage
    ∧ fst (getCurrentStorageUsage env (snd (downloadSong env (Some song) options progressCallback w)))
      = Normal (currentUsage + DownloadedSong.totalSize d)
    ∧ DownloadedSong.totalSize d
      = size_of (DownloadedSong.lyrics d) + size_of (DownloadedSong.audio d)
        + size_of (DownloadedSong.notation d).
Proof.
  intros Hd. rewrite isSongDownloaded_run. simpl. intros Hnew Hread.
  injection Hnew as Hnew.
  destruct (downloadSong env (Some song) options progressCallback w) as [r w1] eqn:Hrun.
  simpl in Hd. subst r.
  apply downloadSong_returns_entry in Hrun as (_ & _ & [(Hfind & _)|(_ & Hsongs & _ & Hc)]).
  { apply not_listed in Hnew. congruence. }
  exists (usage (listed env w)). rewrite !getCurrentStorageUsage_run. simpl.
  split; [reflexivity|]. split; [|exact Hc]. f_equal.
  unfold listed at 1. rewrite Hread. unfold stored. rewrite Hsongs. simpl.
  rewrite usage_app, usage_cons. change (usage []) with 0. lia.
Qed.

Lemma downloadSong_adds_usage_witness :
  fst (downloadSong env_online (Some song_A) DownloadOptions.empty false empty_world)
  = Normal (Some (DownloadedSong.mk "A" 1 "Amazing Grace" (now env_online)
                    (Some (Artifact.mk (lyricsUri env_online "A") 100)) None None 100))
  ∧ ∃ currentUsage,
      fst (getCurrentStorageUsage env_online empty_world) = Normal currentUsage
      ∧ fst (getCurrentStorageUsage env_online
               (snd (downloadSong env_online (Some song_A) DownloadOptions.empty false
                       empty_world)))
        = Normal (currentUsage + 100)
      ∧ 100 = size_of (Some (Artifact.mk (lyricsUri env_online "A") 100))
              + size_of None + size_of None.
Proof.
  assert (H1 : fst (downloadSong env_online (Some song_A) DownloadOptions.empty false empty_world)
               = Normal (Some (DownloadedSong.mk "A" 1 "Amazing Grace" (now env_online)
                                 (Some (Artifact.mk (lyricsUri env_online "A") 100))
                                 None None 100))) by (vm_compute; reflexivity).
  split; [exact H1|].
  exact (downloadSong_adds_usage env_online song_A DownloadOptions.empty false empty_world
           _ H1 eq_refl eq_refl).
Defined.

(** X9.  When every read of the manifest fails while [downloadSong] runs
    (the stored text does not parse any more, say) and the call returns an
    entry all the same, the manifest that is stored afterwards holds that
    entry alone: each failed read counted as an empty manifest, and what
    was stored is overwritten. *)
Theorem downloadSong_unreadable_manifest env song options progressCallback w d :
  is_Some (getItem_rejects env DOWNLOADED_SONGS) →
  fst (downloadSong env (Some song) options progressCallback w) = Normal (Some d) →
  downloaded_songs (snd (downloadSong env (Some song) options progressCallback w)) = Some [d].
Proof.
  intros [e He] Hd.
  destruct (downloadSong env (Some song) options progressCallback w) as [r w1] eqn:Hrun.
  simpl in *. subst r.
  apply downloadSong_returns_entry in Hrun as (_ & _ & [(Hfind & _)|(_ & Hsongs & _)]).
  - apply listed_readable in Hfind. congruence.
  - rewrite Hsongs. unfold listed. rewrite He. reflexivity.
Qed.

Lemma downloadSong_unreadable_manifest_witness :
  downloaded_songs world_A = Some [entry_A]
  ∧ ∃ d,
      fst (downloadSong env_unreadable (Some song_D) DownloadOptions.empty false world_A)
      = Normal (Some d)
      ∧ downloaded_songs
          (snd (downloadSong env_unreadable (Some song_D) DownloadOptions.empty false world_A))
        = Some [d].
Proof.
  split; [reflexivity|].
  assert (H1 : is_Some (getItem_rejects env_unreadable DOWNLOADED_SONGS)) by (eexists; reflexivity).
  assert (H2 : fst (downloadSong env_unreadable (Some song_D) DownloadOptions.empty false world_A)
               = Normal (Some (DownloadedSong.mk "D" 4 "Doxology" (now env_online)
                                 None None None 0))) by (vm_compute; reflexivity).
  eexists. split; [exact H2|].
  exact (downloadSong_unreadable_manifest env_unreadable song_D DownloadOptions.empty false
           world_A _ H1 H2).
Defined.

(** X10.  [isSongDownloaded] and [getDownloadedSong] agree: the first answers
    [true] exactly when the second answers an entry, which then has the id
    asked for and is in the stored manifest.  Neither throws; a manifest that
    cannot be read makes them answer [false] and [null]; one that can be
    read makes the answer [true] exactly for the ids it holds. *)
Theorem lookups_agree env songId w :
  ∃ answer found,
    isSongDownloaded env songId w = (Normal answer, after_listing env w)
    ∧ getDownloadedSong env songId w = (Normal found, after_listing env w)
    ∧ (answer = true ↔ is_Some found)
    ∧ (∀ d, found = Some d → DownloadedSong.id d = songId ∧ d ∈ stored w)
    ∧ (is_Some (getItem_rejects env DOWNLOADED_SONGS) → answer = false ∧ found = None)
    ∧ (getItem_rejects env DOWNLOADED_SONGS = None →
       (answer = true ↔ songId ∈ map DownloadedSong.id (stored w))).
Proof.
  exists (existsb (has_id songId) (listed env w)), (find (has_id songId) (listed env w)).
  split; [apply isSongDownloaded_run|]. split; [apply getDownloadedSong_run|].
  split.
  { destruct (find (has_id songId) (listed env w)) as [d|] eqn:Hfind.
    - split; [eauto|]. intros _.
      destruct (existsb _ _) eqn:E; [reflexivity|]. apply not_listed in E. congruence.
    - apply not_listed in Hfind. rewrite Hfind. split; [discriminate|]. intros [? ?]. discriminate. }
  split.
  { intros d Hfind. pose proof (listed_readable _ _ _ _ Hfind) as Hread.
    rewrite (listed_stored _ _ Hread) in Hfind. apply find_has_id, Hfind. }
  split.
  { intros [e He]. unfold listed. rewrite He. auto. }
  intros Hread. rewrite (listed_stored _ _ Hread).
  destruct (existsb (has_id songId) (stored w)) eqn:E.
  - split; [|reflexivity]. intros _.
    destruct (decide (songId ∈ map DownloadedSong.id (stored w))) as [|Hn]; [assumption|].
    apply find_none_ids, not_listed in Hn. congruence.
  - split; [discriminate|]. intros Hin. apply not_listed, find_none_ids in E. contradiction.
Qed.

(** X11.  An entry that [downloadSong] returns, the manifest being readable
    during the call, has the id of the song and is what [getDownloadedSong]
    answers for that id afterwards, when the manifest can be read then;
    [isSongDownloaded] then answers [true]. *)
Theorem downloadSong_then_lookup env env' song options progressCallback w d :
  getItem_rejects env DOWNLOADED_SONGS = None →
  fst (downloadSong env (Some song) options progressCallback w) = Normal (Some d) →
  getItem_rejects env' DOWNLOADED_SONGS = None →
  let w1 := snd (downloadSong env (Some song) options progressCallback w) in
  DownloadableSong.id song = Some (DownloadedSong.id d)
  ∧ fst (getDownloadedSong env' (DownloadedSong.id d) w1) = Normal (Some d)
  ∧ fst (isSongDownloaded env' (DownloadedSong.id d) w1) = Normal true.
Proof.
  intros _ Hd Hread' w1. subst w1.
  destruct (downloadSong env (Some song) options progressCallback w) as [r w1] eqn:Hrun.
  simpl in *. subst r.
  rewrite getDownloadedSong_run, isSongDownloaded_run. simpl.
  rewrite (listed_stored _ _ Hread').
  apply downloadSong_returns_entry in Hrun
    as (Hvalid & _ & [(Hfind & ->)|(Hfind & Hsongs & Hid & _)]).
  - pose proof (listed_readable _ _ _ _ Hfind) as Hread.
    rewrite (listed_stored _ _ Hread) in Hfind.
    pose proof (find_has_id _ _ _ Hfind) as [Hid _].
    assert (Hsong : DownloadableSong.id song = Some (DownloadedSong.id d)).
    { rewrite Hid. unfold valid in Hvalid. apply andb_true_iff in Hvalid as [Hv _].
      unfold songId_of, the. destruct (DownloadableSong.id song); [reflexivity|discriminate]. }
    rewrite Hid. split; [rewrite <- Hid; exact Hsong|]. split; [f_equal; exact Hfind|].
    f_equal. destruct (existsb _ _) eqn:E; [reflexivity|]. apply not_listed in E. congruence.
  - assert (Hsong : DownloadableSong.id song = Some (DownloadedSong.id d)).
    { rewrite Hid. unfold valid in Hvalid. apply andb_true_iff in Hvalid as [Hv _].
      unfold songId_of, the. destruct (DownloadableSong.id song); [reflexivity|discriminate]. }
    split; [exact Hsong|].
    assert (Hf : find (has_id (DownloadedSong.id d)) (stored w1) = Some d).
    { unfold stored. rewrite Hsongs. simpl. rewrite Hid. apply find_app_new; [exact Hfind|].
      apply has_id_true, Hid. }
    split; [f_equal; exact Hf|].
    f_equal. destruct (existsb _ _) eqn:E; [reflexivity|]. apply not_listed in E. congruence.
Qed.

Lemma downloadSong_then_lookup_witness :
  fst (downloadSong env_online (Some song_A) DownloadOptions.empty false world_A)
  = Normal (Some entry_A)
  ∧ fst (getDownloadedSong env_online "A"
           (snd (downloadSong env_online (Some song_A) DownloadOptions.empty false world_A)))
    = Normal (Some entry_A).
Proof.
  assert (H1 : fst (downloadSong env_online (Some song_A) DownloadOptions.empty false world_A)
               = Normal (Some entry_A)) by reflexivity.
  assert (H2 : getItem_rejects env_online DOWNLOADED_SONGS = None) by reflexivity.
  split; [exact H1|].
  exact (proj1 (proj2 (downloadSong_then_lookup env_online env_online song_A
                         DownloadOptions.empty false world_A entry_A H2 H1 H2))).
Defined.

(** ** Clearing and the files *)

Lemma deleteSong_files_shrink env songId w p :
  files (snd (deleteSong env songId w)) !! p = None
  ∨ files (snd (deleteSong env songId w)) !! p = files w !! p.
Proof.
  rewrite deleteSong_run. cbv zeta.
  destruct (find _ _) as [d|]; simpl; [|right; rewrite after_listing_files; reflexivity].
  destruct (deletion_rejects env (DownloadedSong.lyrics d)); simpl;
    [right; rewrite after_listing_files; reflexivity|].
  destruct (deletion_rejects env (DownloadedSong.audio d)); simpl.
  { rewrite after_listing_files. apply without_lookup. }
  destruct (deletion_rejects env (DownloadedSong.notation d)); simpl.
  { rewrite after_listing_files.
    destruct (without_lookup (DownloadedSong.audio d)
                (without (DownloadedSong.lyrics d) (files w)) p) as [H|H]; [auto|].
    rewrite H. apply without_lookup. }
  destruct (setItem_rejects env DOWNLOADED_SONGS); simpl;
    rewrite ?after_listing_files; simpl; rewrite ?after_listing_files; apply without_all_lookup.
Qed.

Lemma sweep_cons env song songs w :
  sweep env (song :: songs) w = sweep env songs (snd (deleteSong env (DownloadedSong.id song) w)).
Proof.
  unfold sweep. simpl. unfold bind at 1 2.
  destruct (deleteSong env (DownloadedSong.id song) w) as [[b|error] w1] eqn:Hd; simpl.
  - reflexivity.
  - pose proof (deleteSong_songs env (DownloadedSong.id song) w) as ([H|H] & _);
      rewrite Hd in H; discriminate.
Qed.

Lemma sweep_files_shrink env songs w p :
  files (snd (sweep env songs w)) !! p = None
  ∨ files (snd (sweep env songs w)) !! p = files w !! p.
Proof.
  revert w. induction songs as [|song songs IH]; intros w; [right; reflexivity|].
  rewrite sweep_cons.
  destruct (IH (snd (deleteSong env (DownloadedSong.id song) w))) as [H|H]; [auto|].
  rewrite H. apply deleteSong_files_shrink.
Qed.

Lemma find_filter_ne songId songId' songs :
  songId ≠ songId' →
  find (has_id songId) (List.filter (other_than songId') songs) = find (has_id songId) songs.
Proof.
  intros Hne. induction songs as [|d songs IH]; simpl; [reflexivity|].
  destruct (other_than songId' d) eqn:Ho; simpl.
  - destruct (has_id songId d); [reflexivity|exact IH].
  - assert (Hid : DownloadedSong.id d = songId').
    { destruct (decide (DownloadedSong.id d = songId')) as [|Hn]; [assumption|].
      apply other_than_true in Hn. congruence. }
    assert (Hh : has_id songId d = false).
    { destruct (has_id songId d) eqn:E; [|reflexivity]. apply has_id_true in E. congruence. }
    rewrite Hh. exact IH.
Qed.

Lemma find_unique songs d :
  NoDup (map DownloadedSong.id songs) → d ∈ songs →
  find (has_id (DownloadedSong.id d)) songs = Some d.
Proof.
  induction songs as [|d0 songs IH]; simpl; intros Hnd Hin; [inversion Hin|].
  apply NoDup_cons in Hnd as [Hd0 Hnd].
  apply elem_of_cons in Hin as [->|Hin].
  - assert (H : has_id (DownloadedSong.id d0) d0 = true) by (apply has_id_true; reflexivity).
    rewrite H. reflexivity.
  - assert (H : has_id (DownloadedSong.id d) d0 = false).
    { destruct (has_id (DownloadedSong.id d) d0) eqn:E; [|reflexivity].
      apply has_id_true in E. exfalso. apply Hd0. rewrite E.
      apply list_elem_of_fmap. exists d. auto. }
    rewrite H. auto.
Qed.

Lemma deletion_accepts env artifact :
  (∀ a, artifact = Some a → deleteAsync_rejects env (Artifact.localUri a) = None) →
  deletion_rejects env artifact = false.
Proof.
  intros H. destruct artifact as [a|]; simpl; [|reflexivity]. rewrite (H a eq_refl). reflexivity.
Qed.

Lemma in_artifacts_lyrics d a : DownloadedSong.lyrics d = Some a → a ∈ artifacts d.
Proof. unfold artifacts. intros ->. simpl. left. Qed.

Lemma in_artifacts_audio d a : DownloadedSong.audio d = Some a → a ∈ artifacts d.
Proof.
  unfold artifacts. intros ->. apply elem_of_app. right. apply elem_of_app. left. simpl. left.
Qed.

Lemma in_artifacts_notation d a : DownloadedSong.notation d = Some a → a ∈ artifacts d.
Proof.
  unfold artifacts. intros ->. apply elem_of_app. right. apply elem_of_app. right. simpl. left.
Qed.

(** A [deleteSong] that meets no rejection does the whole work. *)
Lemma deleteSong_unhindered env w d :
  getItem_rejects env DOWNLOADED_SONGS = None →
  setItem_rejects env DOWNLOADED_SONGS = None →
  (∀ a, a ∈ artifacts d → deleteAsync_rejects env (Artifact.localUri a) = None) →
  find (has_id (DownloadedSong.id d)) (stored w) = Some d →
  deleteSong env (DownloadedSong.id d) w
  = (Normal true,
     set_downloaded_songs (Some (List.filter (other_than (DownloadedSong.id d)) (stored w)))
       (set_files
          (without (DownloadedSong.notation d)
             (without (DownloadedSong.audio d)
                (without (DownloadedSong.lyrics d) (files w)))) w)).
Proof.
  intros Hread Hwrite Hdel Hfind. rewrite deleteSong_run. cbv zeta.
  rewrite (listed_stored _ _ Hread), Hfind. unfold after_listing. rewrite Hread.
  rewrite !deletion_accepts, Hwrite; [reflexivity| | |]; intros a Ha; apply Hdel.
  - apply in_artifacts_notation, Ha.
  - apply in_artifacts_audio, Ha.
  - apply in_artifacts_lyrics, Ha.
Qed.

Lemma sweep_removes env songs w :
  getItem_rejects env DOWNLOADED_SONGS = None →
  setItem_rejects env DOWNLOADED_SONGS = None →
  (∀ d a, d ∈ songs → a ∈ artifacts d → deleteAsync_rejects env (Artifact.localUri a) = None) →
  NoDup (map DownloadedSong.id songs) →
  (∀ d, d ∈ songs → find (has_id (DownloadedSong.id d)) (stored w) = Some d) →
  ∀ d a, d ∈ songs → a ∈ artifacts d →
         files (snd (sweep env songs w)) !! Artifact.localUri a = None.
Proof.
  intros Hread Hwrite. revert w.
  induction songs as [|d0 songs IH]; intros w Hdel Hnd Hfind d a Hd Ha; [inversion Hd|].
  rewrite sweep_cons.
  rewrite (deleteSong_unhindered env w d0 Hread Hwrite); simpl;
    [|intros a' Ha'; apply (Hdel d0); [left|exact Ha']|apply Hfind; left].
  apply NoDup_cons in Hnd as [Hd0 Hnd].
  apply elem_of_cons in Hd as [->|Hd].
  - match goal with |- files (snd (sweep env songs ?w1)) !! ?p = None =>
      destruct (sweep_files_shrink env songs w1 p) as [H|H]; [exact H|rewrite H] end.
    simpl. apply without_all_gone, Ha.
  - apply (IH _) with (d := d); auto.
    + intros d' a' Hd' Ha'. apply (Hdel d'); [right; exact Hd'|exact Ha'].
    + intros d' Hd'. unfold stored. simpl. rewrite find_filter_ne; [apply Hfind; right; exact Hd'|].
      intros Heq. apply Hd0. rewrite <- Heq. apply list_elem_of_fmap. exists d'. auto.
Qed.

(** X12.  With unique ids, a manifest that can be read and written and
    deletions that are not rejected, [clearAllDownloads] answers [true] and
    leaves no file of any artifact of any entry that was stored; and no path
    holds anything it did not hold before. *)
Theorem clearAllDownloads_removes_files env w :
  unique_ids w →
  getItem_rejects env DOWNLOADED_SONGS = None →
  setItem_rejects env DOWNLOADED_SONGS = None →
  (∀ d a, d ∈ stored w → a ∈ artifacts d →
          deleteAsync_rejects env (Artifact.localUri a) = None) →
  let r := clearAllDownloads env w in
  fst r = Normal true
  ∧ (∀ d a, d ∈ stored w → a ∈ artifacts d → files (snd r) !! Artifact.localUri a = None)
  ∧ (∀ p, files (snd r) !! p = None ∨ files (snd r) !! p = files w !! p).
Proof.
  intros Hu Hread Hwrite Hdel r. subst r. rewrite clearAllDownloads_run. cbv zeta.
  rewrite Hwrite. simpl. unfold after_listing. rewrite Hread, (listed_stored _ _ Hread).
  split; [reflexivity|]. split.
  - apply sweep_removes; auto. intros d Hd. apply find_unique; assumption.
  - intros p. apply sweep_files_shrink.
Qed.

Lemma clearAllDownloads_removes_files_witness :
  unique_ids world_A
  ∧ fst (clearAllDownloads env_online world_A) = Normal true
  ∧ files (snd (clearAllDownloads env_online world_A))
    !! "file:///data/downloads/lyrics/A_lyrics.txt" = None.
Proof.
  assert (H : unique_ids world_A).
  { unfold unique_ids. simpl. apply NoDup_singleton. }
  destruct (clearAllDownloads_removes_files env_online world_A H eq_refl eq_refl
              (fun d a _ _ => eq_refl)) as (H1 & H2 & _).
  split; [exact H|]. split; [exact H1|].
  apply (H2 entry_A (Artifact.mk "file:///data/downloads/lyrics/A_lyrics.txt" 100)).
  - unfold stored. simpl. left.
  - unfold artifacts. simpl. left.
Defined.

(** X13.  When the manifest cannot be read but can be written,
    [clearAllDownloads] answers [true] and stores the empty manifest without
    deleting any file: the failed read counted as an empty manifest. *)
Theorem clearAllDownloads_unreadable_manifest env w :
  is_Some (getItem_rejects env DOWNLOADED_SONGS) →
  setItem_rejects env DOWNLOADED_SONGS = None →
  let r := clearAllDownloads env w in
  fst r = Normal true
  ∧ downloaded_songs (snd r) = Some []
  ∧ files (snd r) = files w.
Proof.
  intros [e He] Hwrite r. subst r. rewrite clearAllDownloads_run. cbv zeta.
  rewrite Hwrite. unfold listed, after_listing. rewrite He. simpl. auto.
Qed.

Lemma clearAllDownloads_unreadable_manifest_witness :
  files world_A !! "file:///data/downloads/lyrics/A_lyrics.txt" = Some 100
  ∧ fst (clearAllDownloads env_unreadable world_A) = Normal true
  ∧ downloaded_songs (snd (clearAllDownloads env_unreadable world_A)) = Some []
  ∧ files (snd (clearAllDownloads env_unreadable world_A)) = files world_A.
Proof.
  split; [reflexivity|].
  apply (clearAllDownloads_unreadable_manifest env_unreadable world_A).
  - eexists; reflexivity.
  - reflexivity.
Defined.

(** *** The loop of [clearAllDownloads], entry by entry *)

Lemma sweep_fold env songs w :
  snd (sweep env songs w)
  = fold_left (fun w0 song => snd (deleteSong env (DownloadedSong.id song) w0)) songs w.
Proof.
  revert w. induction songs as [|song songs IH]; intros w; [reflexivity|].
  rewrite sweep_cons. simpl. apply IH.
Qed.

(** A [deleteSong] whose deletions are not rejected removes the files of the
    entry it finds, whether or not it can write the manifest then. *)
Lemma deleteSong_deletes env w d :
  getItem_rejects env DOWNLOADED_SONGS = None →
  (∀ a, a ∈ artifacts d → deleteAsync_rejects env (Artifact.localUri a) = None) →
  find (has_id (DownloadedSong.id d)) (stored w) = Some d →
  files (snd (deleteSong env (DownloadedSong.id d) w))
  = without (DownloadedSong.notation d)
      (without (DownloadedSong.audio d) (without (DownloadedSong.lyrics d) (files w)))
  ∧ (stored (snd (deleteSong env (DownloadedSong.id d) w)) = stored w
     ∨ stored (snd (deleteSong env (DownloadedSong.id d) w))
       = List.filter (other_than (DownloadedSong.id d)) (stored w)).
Proof.
  intros Hread Hdel Hfind. rewrite deleteSong_run. cbv zeta.
  rewrite (listed_stored _ _ Hread), Hfind. unfold after_listing. rewrite Hread.
  rewrite !deletion_accepts.
  - destruct (setItem_rejects env DOWNLOADED_SONGS); simpl; auto.
  - intros a Ha. apply Hdel, in_artifacts_notation, Ha.
  - intros a Ha. apply Hdel, in_artifacts_audio, Ha.
  - intros a Ha. apply Hdel, in_artifacts_lyrics, Ha.
Qed.

Lemma sweep_deletes env songs w :
  getItem_rejects env DOWNLOADED_SONGS = None →
  (∀ d a, d ∈ songs → a ∈ artifacts d → deleteAsync_rejects env (Artifact.localUri a) = None) →
  NoDup (map DownloadedSong.id songs) →
  (∀ d, d ∈ songs → find (has_id (DownloadedSong.id d)) (stored w) = Some d) →
  ∀ d a, d ∈ songs → a ∈ artifacts d →
         files (snd (sweep env songs w)) !! Artifact.localUri a = None.
Proof.
  intros Hread. revert w.
  induction songs as [|d0 songs IH]; intros w Hdel Hnd Hfind d a Hd Ha; [inversion Hd|].
  rewrite sweep_cons.
  destruct (deleteSong_deletes env w d0 Hread) as (Hfiles & Hstored);
    [intros a' Ha'; apply (Hdel d0); [left|exact Ha']|apply Hfind; left|].
  apply NoDup_cons in Hnd as [Hd0 Hnd].
  apply elem_of_cons in Hd as [->|Hd].
  - match goal with |- files (snd (sweep env songs ?w1)) !! ?p = None =>
      destruct (sweep_files_shrink env songs w1 p) as [H|H]; [exact H|rewrite H] end.
    rewrite Hfiles. apply without_all_gone, Ha.
  - apply (IH _) with (d := d); auto.
    + intros d' a' Hd' Ha'. apply (Hdel d'); [right; exact Hd'|exact Ha'].
    + intros d' Hd'. destruct Hstored as [->| ->]; [apply Hfind; right; exact Hd'|].
      rewrite find_filter_ne; [apply Hfind; right; exact Hd'|].
      intros Heq. apply Hd0. rewrite <- Heq. apply list_elem_of_fmap. exists d'. auto.
Qed.

(** C6. [clearAllDownloads] lists the manifest, runs [deleteSong] on the id
    of every listed entry, one after the other in the order of the list,
    and then writes the empty list.  It returns [true] or [false] and never
    throws; it returns [false] exactly when that last write fails.  After
    it returned [true] the manifest is the empty list, [getDownloadedSongs]
    lists nothing and [getCurrentStorageUsage] is 0.  It creates no file;
    and when the stored ids are unique, the manifest can be read and no
    deletion of a file of a stored entry is rejected, no file of any
    artifact of any stored entry is left. *)
Theorem clearAllDownloads_converges env w :
  let r := clearAllDownloads env w in
  let swept :=
    fold_left (fun w0 song => snd (deleteSong env (DownloadedSong.id song) w0))
      (listed env w) (after_listing env w) in
  (fst r = Normal true ∨ fst r = Normal false)
  ∧ (fst r = Normal false ↔ is_Some (setItem_rejects env DOWNLOADED_SONGS))
  ∧ (fst r = Normal true →
     snd r = set_downloaded_songs (Some []) swept
     ∧ downloaded_songs (snd r) = Some []
     ∧ ∀ env',
         fst (getDownloadedSongs env' (snd r)) = Normal []
         ∧ fst (getCurrentStorageUsage env' (snd r)) = Normal 0)
  ∧ (fst r = Normal false → snd r = logged "Error clearing all downloads:" swept)
  ∧ (∀ p, files (snd r) !! p = None ∨ files (snd r) !! p = files w !! p)
  ∧ (unique_ids w →
     getItem_rejects env DOWNLOADED_SONGS = None →
     (∀ d a, d ∈ stored w → a ∈ artifacts d →
             deleteAsync_rejects env (Artifact.localUri a) = None) →
     ∀ d a, d ∈ stored w → a ∈ artifacts d → files (snd r) !! Artifact.localUri a = None).
Proof.
  intros r swept. subst r swept. rewrite clearAllDownloads_run. cbv zeta.
  rewrite <- sweep_fold.
  assert (Hshrink : ∀ p,
            files (snd (sweep env (listed env w) (after_listing env w))) !! p = None
            ∨ files (snd (sweep env (listed env w) (after_listing env w))) !! p = files w !! p).
  { intros p. rewrite <- (after_listing_files env w). apply sweep_files_shrink. }
  assert (Hgone : unique_ids w →
            getItem_rejects env DOWNLOADED_SONGS = None →
            (∀ d a, d ∈ stored w → a ∈ artifacts d →
                    deleteAsync_rejects env (Artifact.localUri a) = None) →
            ∀ d a, d ∈ stored w → a ∈ artifacts d →
                   files (snd (sweep env (listed env w) (after_listing env w)))
                   !! Artifact.localUri a = None).
  { intros Hu Hread Hdel. unfold after_listing. rewrite Hread, (listed_stored _ _ Hread).
    apply sweep_deletes; auto. intros d Hd. apply find_unique; assumption. }
  destruct (setItem_rejects env DOWNLOADED_SONGS) as [error|] eqn:Hw; simpl.
  - split; [auto|]. split; [split; eauto|]. split; [discriminate|].
    split; [reflexivity|]. split; [exact Hshrink|exact Hgone].
  - split; [auto|]. split; [split; [discriminate|intros [? ?]; discriminate]|].
    split.
    + intros _. split; [reflexivity|]. split; [reflexivity|]. intros env'.
      rewrite getCurrentStorageUsage_run, getDownloadedSongs_run. simpl.
      unfold listed, stored. simpl. destruct (getItem_rejects env' DOWNLOADED_SONGS); auto.
    + split; [discriminate|]. split; [exact Hshrink|exact Hgone].
Qed.

(** ** Connectivity *)

Lemma isOnline_run env w :
  isOnline env w =
  match getNetworkStateAsync env with
  | inl _ => (Normal false, logged "Error checking online status:" w)
  | inr netInfo => (Normal (truthy_bool (NetworkState.isConnected netInfo)), w)
  end.
Proof.
  unfold isOnline, try_catch, bind, Network_getNetworkStateAsync.
  destruct (getNetworkStateAsync env); reflexivity.
Qed.

(** X14.  [isOnline] never throws, writes to no store and answers whether
    the network query succeeds and reports a connection.  When it answers
    [false], [downloadSong] returns [null] for every song object, a song
    that is already downloaded included, leaves manifest and files alone and
    reports a failure to the callback. *)
Theorem isOnline_gates_download env w0 :
  fst (isOnline env w0) = Normal (connected env)
  ∧ downloaded_songs (snd (isOnline env w0)) = downloaded_songs w0
  ∧ download_settings (snd (isOnline env w0)) = download_settings w0
  ∧ files (snd (isOnline env w0)) = files w0
  ∧ (fst (isOnline env w0) = Normal false →
     ∀ song options progressCallback w,
       let r := downloadSong env (Some song) options progressCallback w in
       fst r = Normal None
       ∧ downloaded_songs (snd r) = downloaded_songs w
       ∧ files (snd r) = files w
       ∧ ∃ msg, events (snd r) = events w ++ failure_report song progressCallback msg).
Proof.
  rewrite isOnline_run. unfold connected.
  split; [destruct (getNetworkStateAsync env); reflexivity|].
  split; [destruct (getNetworkStateAsync env); reflexivity|].
  split; [destruct (getNetworkStateAsync env); reflexivity|].
  split; [destruct (getNetworkStateAsync env); reflexivity|].
  intros Hoff song options progressCallback w.
  destruct (valid song) eqn:Hvalid.
  - destruct (getNetworkStateAsync env) as [error|netInfo] eqn:Hnet.
    + assert (Htry : downloadSong_try env (Some song) options progressCallback (new_frame w)
                     = (Throw error, in_world (new_frame w) w)).
      { rewrite downloadSong_try_run, Hvalid, Hnet. reflexivity. }
      destruct (downloadSong_stopped env song options progressCallback w error w Htry
                  eq_refl eq_refl eq_refl) as (H1 & H2 & H3 & H4).
      cbv zeta. eauto 10.
    + simpl in Hoff. injection Hoff as Hoff.
      destruct (downloadSong_offline env song options progressCallback w netInfo Hvalid Hnet Hoff)
        as (H1 & H2 & H3 & H4).
      cbv zeta. eauto 10.
  - destruct (downloadSong_invalid env song options progressCallback w Hvalid)
      as (H1 & H2 & H3 & H4).
    cbv zeta. eauto 10.
Qed.

Lemma isOnline_gates_download_witness :
  fst (isOnline env_offline empty_world) = Normal false
  ∧ fst (isSongDownloaded env_offline "A" world_A) = Normal true
  ∧ fst (downloadSong env_offline (Some song_A) DownloadOptions.empty true world_A) = Normal None.
Proof.
  destruct (isOnline_gates_download env_offline empty_world) as (H & _ & _ & _ & Hgate).
  split; [exact H|]. split; [reflexivity|].
  exact (proj1 (Hgate H song_A DownloadOptions.empty true world_A)).
Defined.

(** ** A download that succeeds *)

Lemma measured_some bytes : measured (Some bytes) = bytes.
Proof. unfold measured. destruct (bytes =? 0) eqn:E; [|reflexivity]. apply Z.eqb_eq in E. lia. Qed.

Lemma append_assoc (a b c : string) : (a +:+ b) +:+ c = a +:+ (b +:+ c).
Proof.
  induction a as [|x a IH]; [reflexivity|].
  change (String x ((a +:+ b) +:+ c) = String x (a +:+ (b +:+ c))). rewrite IH. reflexivity.
Qed.

Lemma append_inj_l (a b c : string) : a +:+ b = a +:+ c → b = c.
Proof.
  induction a as [|x a IH]; [auto|].
  change (String x (a +:+ b) = String x (a +:+ c) → b = c). intros H. injection H as H. auto.
Qed.

Lemma lyricsUri_audioUri env songId songId' url : lyricsUri env songId ≠ audioUri env songId' url.
Proof.
  unfold lyricsUri, audioUri, LYRICS_DIRECTORY, AUDIO_DIRECTORY. rewrite !append_assoc.
  intros H. apply append_inj_l in H. discriminate.
Qed.

Lemma lyricsUri_notationUri env songId songId' url :
  lyricsUri env songId ≠ notationUri env songId' url.
Proof.
  unfold lyricsUri, notationUri, LYRICS_DIRECTORY, NOTATION_DIRECTORY. rewrite !append_assoc.
  intros H. apply append_inj_l in H. discriminate.
Qed.

Lemma audioUri_notationUri env songId songId' url url' :
  audioUri env songId url ≠ notationUri env songId' url'.
Proof.
  unfold audioUri, notationUri, AUDIO_DIRECTORY, NOTATION_DIRECTORY. rewrite !append_assoc.
  intros H. apply append_inj_l in H. discriminate.
Qed.

(** The three blocks, when they complete. *)
Lemma downloadSong_lyrics_normal env song d f d' f' :
  downloadSong_lyrics env (songId_of song) song d f = (Normal d', f') →
  d' = match lyrics_saved env song with
       | Some a => add_totalSize (Artifact.size a) (set_lyrics a d)
       | None => d
       end
  ∧ files (world f') = with_file (lyrics_saved env song) (files (world f))
  ∧ events (world f') = events (world f).
Proof.
  rewrite downloadSong_lyrics_run. unfold lyrics_saved.
  destruct (truthy_string (DownloadableSong.lyricsUrl song)).
  - cbv zeta. destruct (downloadAsync env _) as [error|bytes]; [discriminate|].
    destruct (getInfoAsync_rejects env _); [discriminate|].
    rewrite measured_some. intros H. injection H as <- <-. auto.
  - intros H. injection H as <- <-. auto.
Qed.

Lemma downloadSong_audio_normal env song options progressCallback d f d' f' :
  downloadSong_audio env (songId_of song) song options progressCallback d f = (Normal d', f') →
  d' = match audio_saved env song options with
       | Some a => add_totalSize (Artifact.size a) (set_audio a d)
       | None => d
       end
  ∧ files (world f') = with_file (audio_saved env song options) (files (world f))
  ∧ events (world f') = events (world f) ++ audio_ticks env song options progressCallback.
Proof.
  rewrite downloadSong_audio_run. unfold audio_saved, audio_ticks.
  destruct (truthy_bool (DownloadOptions.includeAudio options)
            && truthy_string (DownloadableSong.audioUrl song)).
  - cbv zeta. destruct (resumable_downloadAsync env _) as [error|[bytes|]]; try discriminate.
    destruct (getInfoAsync_rejects env _); [discriminate|].
    rewrite measured_some. intros H. injection H as <- <-. auto.
  - intros H. injection H as <- <-. rewrite app_nil_r. auto.
Qed.

Lemma downloadSong_notation_normal env song options d f d' f' :
  downloadSong_notation env (songId_of song) song options d f = (Normal d', f') →
  d' = match notation_saved env song options with
       | Some a => add_totalSize (Artifact.size a) (set_notation a d)
       | None => d
       end
  ∧ files (world f') = with_file (notation_saved env song options) (files (world f))
  ∧ events (world f') = events (world f).
Proof.
  rewrite downloadSong_notation_run. unfold notation_saved.
  destruct (truthy_bool (DownloadOptions.includeNotation options)
            && truthy_string (DownloadableSong.notationUrl song)).
  - cbv zeta. destruct (downloadAsync env _) as [error|bytes]; [discriminate|].
    destruct (getInfoAsync_rejects env _); [discriminate|].
    rewrite measured_some. intros H. injection H as <- <-. auto.
  - intros H. injection H as <- <-. auto.
Qed.

(** The events of the three blocks, however they end. *)
Lemma downloadSong_lyrics_events env songId song d f :
  events (world (snd (downloadSong_lyrics env songId song d f))) = events (world f).
Proof.
  rewrite downloadSong_lyrics_run.
  destruct (truthy_string _); [|reflexivity]. cbv zeta.
  destruct (downloadAsync env _); [reflexivity|].
  destruct (getInfoAsync_rejects env _); reflexivity.
Qed.

Lemma downloadSong_notation_events env songId song options d f :
  events (world (snd (downloadSong_notation env songId song options d f))) = events (world f).
Proof.
  rewrite downloadSong_notation_run.
  destruct (_ && _); [|reflexivity]. cbv zeta.
  destruct (downloadAsync env _); [reflexivity|].
  destruct (getInfoAsync_rejects env _); reflexivity.
Qed.

Lemma downloadSong_audio_events env songId song options progressCallback d f :
  events (world (snd (downloadSong_audio env songId song options progressCallback d f)))
  = events (world f) ++ audio_ticks env song options progressCallback.
Proof.
  rewrite downloadSong_audio_run. unfold audio_ticks.
  destruct (_ && _); [|simpl; rewrite app_nil_r; reflexivity]. cbv zeta.
  destruct (resumable_downloadAsync env _) as [?|[?|]]; try reflexivity.
  destruct (getInfoAsync_rejects env _); reflexivity.
Qed.

Lemma downloadSong_admitted_normal env song options progressCallback f x f' :
  downloadSong_admitted env song options progressCallback f = (Normal x, f') →
  let l := lyrics_saved env song in
  let a := audio_saved env song options in
  let n := notation_saved env song options in
  x = Some (DownloadedSong.mk (songId_of song) (DownloadableSong.number song)
              (the (DownloadableSong.title song)) (now env) l a n
              (size_of l + size_of a + size_of n))
  ∧ files (world f') = with_file n (with_file a (with_file l (files (world f))))
  ∧ events (world f')
    = events (world f) ++ start_report song progressCallback
      ++ audio_ticks env song options progressCallback
      ++ completion_report song progressCallback.
Proof.
  unfold downloadSong_admitted. fold (songId_of song). fold (download_record env song).
  intros H.
  apply bind_inv in H as [(u & f0 & H0 & H)|(error & H0 & ?)]; [|discriminate].
  rewrite report_run in H0. injection H0 as _ <-.
  apply bind_inv in H as [(d1 & f1 & H1 & H)|(error & H1 & ?)]; [|discriminate].
  apply downloadSong_lyrics_normal in H1 as (Hd1 & Hf1 & He1).
  apply bind_inv in H as [(d2 & f2 & H2 & H)|(error & H2 & ?)]; [|discriminate].
  apply downloadSong_audio_normal in H2 as (Hd2 & Hf2 & He2).
  apply bind_inv in H as [(d3 & f3 & H3 & H)|(error & H3 & ?)]; [|discriminate].
  apply downloadSong_notation_normal in H3 as (Hd3 & Hf3 & He3).
  revert H. rewrite downloadSong_save_run.
  destruct (setItem_rejects env DOWNLOADED_SONGS); [discriminate|].
  intros H. injection H as <- <-. cbv zeta. simpl.
  rewrite notified_files, notified_events. simpl.
  rewrite after_listing_files, after_listing_events, Hf3, Hf2, Hf1, He3, He2, He1. simpl.
  split; [|split; [reflexivity|]].
  - f_equal. rewrite Hd3, Hd2, Hd1. unfold download_record.
    destruct (lyrics_saved env song), (audio_saved env song options),
      (notation_saved env song options); unfold add_totalSize, set_lyrics, set_audio,
      set_notation; simpl; f_equal; lia.
  - unfold start_report. rewrite <- !app_assoc. reflexivity.
Qed.

Lemma valid_id song : valid song = true → DownloadableSong.id song = Some (songId_of song).
Proof.
  unfold valid, songId_of, the. intros H. apply andb_true_iff in H as [H _].
  destruct (DownloadableSong.id song); [reflexivity|discriminate].
Qed.

(** A call that returns an entry for a song that was not listed ran the
    admitted part to its end. *)
Lemma downloadSong_fresh_run env song options progressCallback w d :
  fst (downloadSong env (Some song) options progressCallback w) = Normal (Some d) →
  existsb (has_id (songId_of song)) (listed env w) = false →
  ∃ f',
    downloadSong_admitted env song options progressCallback
      (new_frame (after_listing env (after_listing env w))) = (Normal (Some d), f')
    ∧ snd (downloadSong env (Some song) options progressCallback w) = world f'.
Proof.
  rewrite downloadSong_run, downloadSong_try_run. intros H Hnew. revert H.
  destruct (negb (valid song)); [discriminate|].
  destruct (getNetworkStateAsync env) as [?|netInfo]; [discriminate|].
  destruct (negb _); [discriminate|]. cbv zeta.
  change (world (new_frame w)) with w. rewrite Hnew.
  destruct (getItem_rejects env DOWNLOAD_SETTINGS); [discriminate|].
  destruct (exceeds _ _ _); [discriminate|].
  change (in_world (new_frame w) (after_listing env (after_listing env w)))
    with (new_frame (after_listing env (after_listing env w))).
  destruct (downloadSong_admitted env song options progressCallback _)
    as [[x|error] f'] eqn:Hrun; [|discriminate].
  simpl. intros H. injection H as ->. exists f'. auto.
Qed.

Lemma with_file_lookup_ne artifact (fs : gmap string Z) p :
  (∀ a, artifact = Some a → Artifact.localUri a ≠ p) → with_file artifact fs !! p = fs !! p.
Proof.
  destruct artifact as [a|]; simpl; [|reflexivity]. intros H.
  apply lookup_insert_ne. apply H. reflexivity.
Qed.

Lemma lyrics_saved_uri env song a :
  lyrics_saved env song = Some a → Artifact.localUri a = lyricsUri env (songId_of song).
Proof.
  unfold lyrics_saved. destruct (truthy_string _); [|discriminate].
  destruct (downloadAsync env _); [discriminate|]. intros H. injection H as <-. reflexivity.
Qed.

Lemma audio_saved_uri env song options a :
  audio_saved env song options = Some a →
  Artifact.localUri a = audioUri env (songId_of song) (the (DownloadableSong.audioUrl song)).
Proof.
  unfold audio_saved. destruct (_ && _); [|discriminate].
  destruct (resumable_downloadAsync env _) as [?|[?|]]; try discriminate.
  intros H. injection H as <-. reflexivity.
Qed.

Lemma notation_saved_uri env song options a :
  notation_saved env song options = Some a →
  Artifact.localUri a
  = notationUri env (songId_of song) (the (DownloadableSong.notationUrl song)).
Proof.
  unfold notation_saved. destruct (_ && _); [|discriminate].
  destruct (downloadAsync env _); [discriminate|]. intros H. injection H as <-. reflexivity.
Qed.

(** X15.  The entry that [downloadSong] returns for a song that was not
    downloaded: it has the id, number and title of the song and the date of
    the call; it records lyrics exactly when [lyricsUrl] is set, audio
    exactly when [includeAudio] and [audioUrl] are, notation exactly when
    [includeNotation] and [notationUrl] are, each with the bytes its transfer
    saved, and [totalSize] is their sum.  The file at the path of each
    recorded artifact has the size recorded, and a path that no recorded
    artifact names holds what it held. *)
Theorem downloadSong_fresh_entry env song options progressCallback w d :
  fst (downloadSong env (Some song) options progressCallback w) = Normal (Some d) →
  fst (isSongDownloaded env (songId_of song) w) = Normal false →
  let w1 := snd (downloadSong env (Some song) options progressCallback w) in
  d = DownloadedSong.mk (songId_of song) (DownloadableSong.number song)
        (the (DownloadableSong.title song)) (now env)
        (lyrics_saved env song) (audio_saved env song options)
        (notation_saved env song options)
        (size_of (lyrics_saved env song) + size_of (audio_saved env song options)
         + size_of (notation_saved env song options))
  ∧ (is_Some (DownloadedSong.lyrics d)
     ↔ truthy_string (DownloadableSong.lyricsUrl song) = true)
  ∧ (is_Some (DownloadedSong.audio d)
     ↔ truthy_bool (DownloadOptions.includeAudio options)
       && truthy_string (DownloadableSong.audioUrl song) = true)
  ∧ (is_Some (DownloadedSong.notation d)
     ↔ truthy_bool (DownloadOptions.includeNotation options)
       && truthy_string (DownloadableSong.notationUrl song) = true)
  ∧ (∀ a, a ∈ artifacts d → files w1 !! Artifact.localUri a = Some (Artifact.size a))
  ∧ (∀ p, (∀ a, a ∈ artifacts d → Artifact.localUri a ≠ p) → files w1 !! p = files w !! p).
Proof.
  intros Hd Hnew w1. subst w1.
  rewrite isSongDownloaded_run in Hnew. simpl in Hnew. injection Hnew as Hnew.
  destruct (downloadSong_fresh_run env song options progressCallback w d Hd Hnew)
    as (f' & Hrun & ->).
  pose proof (downloadSong_admitted_post _ _ _ _ _ _ _ Hrun) as Hpost. simpl in Hpost.
  destruct Hpost as (_ & _ & _ & _ & Hnf & _).
  apply downloadSong_admitted_normal in Hrun as (Hx & Hfiles & _). cbv zeta in Hx, Hfiles.
  injection Hx as Hx. simpl in Hfiles. rewrite !after_listing_files in Hfiles.
  unfold transfer_fails in Hnf. apply orb_false_iff in Hnf as [Hnf Hn3].
  apply orb_false_iff in Hnf as [Hn1 Hn2].
  split; [exact Hx|]. subst d. simpl.
  split.
  { unfold lyrics_transfer_fails in Hn1. unfold lyrics_saved.
    destruct (truthy_string (DownloadableSong.lyricsUrl song)); simpl in *.
    - destruct (downloadAsync env _); [discriminate|]. split; eauto.
    - split; [intros [? ?]; discriminate|discriminate]. }
  split.
  { unfold audio_transfer_fails in Hn2. unfold audio_saved.
    destruct (truthy_bool (DownloadOptions.includeAudio options)
              && truthy_string (DownloadableSong.audioUrl song)); simpl in *.
    - destruct (resumable_downloadAsync env _) as [?|[?|]]; try discriminate. split; eauto.
    - split; [intros [? ?]; discriminate|discriminate]. }
  split.
  { unfold notation_transfer_fails in Hn3. unfold notation_saved.
    destruct (truthy_bool (DownloadOptions.includeNotation options)
              && truthy_string (DownloadableSong.notationUrl song)); simpl in *.
    - destruct (downloadAsync env _); [discriminate|]. split; eauto.
    - split; [intros [? ?]; discriminate|discriminate]. }
  rewrite Hfiles. unfold artifacts. simpl. split.
  - intros a. rewrite !elem_of_app. intros [H|[H|H]].
    + destruct (lyrics_saved env song) as [x|] eqn:El; simpl in H; [|inversion H].
      apply list_elem_of_singleton in H. subst x.
      pose proof (lyrics_saved_uri _ _ _ El) as Hu.
      rewrite (with_file_lookup_ne (notation_saved env song options)),
        (with_file_lookup_ne (audio_saved env song options)).
      * simpl. apply lookup_insert_eq.
      * intros a' Ha'. rewrite (audio_saved_uri _ _ _ _ Ha'), Hu.
        intros Heq. symmetry in Heq. revert Heq. apply lyricsUri_audioUri.
      * intros a' Ha'. rewrite (notation_saved_uri _ _ _ _ Ha'), Hu.
        intros Heq. symmetry in Heq. revert Heq. apply lyricsUri_notationUri.
    + destruct (audio_saved env song options) as [x|] eqn:Ea; simpl in H; [|inversion H].
      apply list_elem_of_singleton in H. subst x.
      pose proof (audio_saved_uri _ _ _ _ Ea) as Hu.
      rewrite (with_file_lookup_ne (notation_saved env song options)).
      * simpl. apply lookup_insert_eq.
      * intros a' Ha'. rewrite (notation_saved_uri _ _ _ _ Ha'), Hu.
        intros Heq. symmetry in Heq. revert Heq. apply audioUri_notationUri.
    + destruct (notation_saved env song options) as [x|] eqn:En; simpl in H; [|inversion H].
      apply list_elem_of_singleton in H. subst x. simpl. apply lookup_insert_eq.
  - intros p Hp. rewrite !with_file_lookup_ne; [reflexivity| | |]; intros a Ha; apply Hp;
      rewrite !elem_of_app; rewrite Ha; simpl; [left|right; left|right; right]; left.
Qed.

Lemma downloadSong_fresh_entry_witness :
  fst (downloadSong env_online (Some song_A) DownloadOptions.empty false empty_world)
  = Normal (Some (DownloadedSong.mk "A" 1 "Amazing Grace" (now env_online)
                    (Some (Artifact.mk (lyricsUri env_online "A") 100)) None None 100))
  ∧ fst (isSongDownloaded env_online (songId_of song_A) empty_world) = Normal false
  ∧ files (snd (downloadSong env_online (Some song_A) DownloadOptions.empty false empty_world))
    !! lyricsUri env_online "A" = Some 100.
Proof.
  assert (H1 : fst (downloadSong env_online (Some song_A) DownloadOptions.empty false empty_world)
               = Normal (Some (DownloadedSong.mk "A" 1 "Amazing Grace" (now env_online)
                                 (Some (Artifact.mk (lyricsUri env_online "A") 100))
                                 None None 100))) by (vm_compute; reflexivity).
  assert (H2 : fst (isSongDownloaded env_online (songId_of song_A) empty_world) = Normal false)
    by reflexivity.
  split; [exact H1|]. split; [exact H2|].
  destruct (downloadSong_fresh_entry env_online song_A DownloadOptions.empty false empty_world
              _ H1 H2) as (_ & _ & _ & _ & Hfiles & _).
  apply (Hfiles (Artifact.mk (lyricsUri env_online "A") 100)).
  unfold artifacts. simpl. left.
Defined.

(** ** Progress events *)

Lemma audio_events_ticks song progressCallback ticks :
  Forall (tick song) (audio_events (DownloadableSong.id song) progressCallback ticks).
Proof.
  unfold audio_events. induction ticks as [|[written expected] ticks IH]; simpl; [constructor|].
  destruct (progressCallback && (expected >? 0)); simpl; [|exact IH].
  constructor; [|exact IH]. unfold tick. simpl.
  split; [reflexivity|]. split; [reflexivity|]. split; [reflexivity|]. apply Q.le_min_r.
Qed.

Lemma audio_ticks_ticks env song options progressCallback :
  Forall (tick song) (audio_ticks env song options progressCallback).
Proof.
  unfold audio_ticks. destruct (_ && _); [apply audio_events_ticks|constructor].
Qed.

Lemma start_report_ticks song progressCallback :
  Forall (tick song) (start_report song progressCallback).
Proof.
  unfold start_report. destruct progressCallback; constructor; [|constructor].
  unfold tick. simpl. split; [reflexivity|]. split; [reflexivity|]. split; [reflexivity|].
  discriminate.
Qed.

Lemma audio_events_silent songId ticks : audio_events songId false ticks = [].
Proof. unfold audio_events. induction ticks as [|[? ?] ticks IH]; simpl; auto. Qed.

Lemma audio_ticks_silent env song options : audio_ticks env song options false = [].
Proof. unfold audio_ticks. destruct (_ && _); [apply audio_events_silent|reflexivity]. Qed.

(** The events of the admitted part, however it ends. *)
Lemma downloadSong_admitted_events env song options progressCallback f r f' :
  downloadSong_admitted env song options progressCallback f = (r, f') →
  ∃ ticks,
    Forall (tick song) ticks
    ∧ (progressCallback = false → ticks = [])
    ∧ events (world f')
      = events (world f) ++ ticks
        ++ match r with
           | Normal _ => completion_report song progressCallback
           | Throw _ => []
           end.
Proof.
  unfold downloadSong_admitted. fold (songId_of song). fold (download_record env song).
  intros H.
  apply bind_inv in H as [(u & f0 & H0 & H)|(error & H0 & _)];
    [|rewrite report_run in H0; discriminate].
  rewrite report_run in H0. injection H0 as _ <-.
  fold (start_report song progressCallback) in H.
  set (f0 := in_world f _) in *.
  assert (E0 : events (world f0) = events (world f) ++ start_report song progressCallback)
    by reflexivity.
  assert (S0 : progressCallback = false → start_report song progressCallback = [])
    by (intros ->; reflexivity).
  apply bind_inv in H as [(d1 & f1 & H1 & H)|(error & H1 & ->)].
  2:{ pose proof (downloadSong_lyrics_events env (songId_of song) song
                    (download_record env song) f0) as E1.
      rewrite H1 in E1. cbn [snd] in E1.
      exists (start_report song progressCallback).
      split; [apply start_report_ticks|]. split; [exact S0|].
      rewrite app_nil_r, E1, E0. reflexivity. }
  pose proof (downloadSong_lyrics_events env (songId_of song) song
                (download_record env song) f0) as E1.
  rewrite H1 in E1. cbn [snd] in E1.
  assert (T : Forall (tick song)
                (start_report song progressCallback
                 ++ audio_ticks env song options progressCallback)).
  { apply Forall_app. split; [apply start_report_ticks|apply audio_ticks_ticks]. }
  assert (S : progressCallback = false →
              start_report song progressCallback
              ++ audio_ticks env song options progressCallback = []).
  { intros ->. rewrite audio_ticks_silent. reflexivity. }
  apply bind_inv in H as [(d2 & f2 & H2 & H)|(error & H2 & ->)].
  2:{ pose proof (downloadSong_audio_events env (songId_of song) song options
                    progressCallback d1 f1) as E2.
      rewrite H2 in E2. cbn [snd] in E2.
      exists (start_report song progressCallback
              ++ audio_ticks env song options progressCallback).
      split; [exact T|]. split; [exact S|].
      rewrite app_nil_r, E2, E1, E0, <- app_assoc. reflexivity. }
  pose proof (downloadSong_audio_events env (songId_of song) song options
                progressCallback d1 f1) as E2.
  rewrite H2 in E2. cbn [snd] in E2.
  exists (start_report song progressCallback ++ audio_ticks env song options progressCallback).
  split; [exact T|]. split; [exact S|].
  apply bind_inv in H as [(d3 & f3 & H3 & H)|(error & H3 & ->)].
  2:{ pose proof (downloadSong_notation_events env (songId_of song) song options d2 f2) as E3.
      rewrite H3 in E3. cbn [snd] in E3.
      rewrite app_nil_r, E3, E2, E1, E0, <- app_assoc. reflexivity. }
  pose proof (downloadSong_notation_events env (songId_of song) song options d2 f2) as E3.
  rewrite H3 in E3. cbn [snd] in E3.
  revert H. rewrite downloadSong_save_run.
  destruct (setItem_rejects env DOWNLOADED_SONGS); intros H; injection H as <- <-; simpl.
  - rewrite after_listing_events, app_nil_r, E3, E2, E1, E0, <- app_assoc. reflexivity.
  - rewrite notified_events. simpl.
    rewrite after_listing_events, E3, E2, E1, E0, <- !app_assoc. reflexivity.
Qed.

(** The events of a whole call on a song object. *)
Lemma downloadSong_events env song options progressCallback w :
  let r := downloadSong env (Some song) options progressCallback w in
  ∃ ticks,
    Forall (tick song) ticks
    ∧ (progressCallback = false → ticks = [])
    ∧ match fst r with
      | Normal (Some d) =>
          (existsb (has_id (songId_of song)) (listed env w) = true ∧ events (snd r) = events w)
          ∨ (existsb (has_id (songId_of song)) (listed env w) = false
             ∧ events (snd r) = events w ++ ticks ++ completion_report song progressCallback)
      | Normal None =>
          ∃ msg, events (snd r) = events w ++ ticks ++ failure_report song progressCallback msg
      | Throw _ => False
      end.
Proof.
  intros r. subst r. rewrite downloadSong_run, downloadSong_try_run.
  assert (Stop : ∀ error f,
            events (world f) = events w →
            ∃ ticks,
              Forall (tick song) ticks
              ∧ (progressCallback = false → ticks = [])
              ∧ ∃ msg,
                  events
                    (reported
                       (failure_report song progressCallback
                          (message_or "Download failed" error))
                       (cleaned env (downloadedFiles f)
                          (logged "Error downloading song:" (world f))))
                  = events w ++ ticks ++ failure_report song progressCallback msg).
  { intros error f He. exists []. split; [constructor|]. split; [reflexivity|].
    eexists. simpl. rewrite cleaned_events. simpl. rewrite He. reflexivity. }
  destruct (negb (valid song)); [apply Stop; reflexivity|].
  destruct (getNetworkStateAsync env) as [?|netInfo]; [apply Stop; reflexivity|].
  destruct (negb _); [apply Stop; reflexivity|]. cbv zeta.
  change (world (new_frame w)) with w.
  destruct (existsb (has_id (songId_of song)) (listed env w)) eqn:Hex.
  { exists []. split; [constructor|]. split; [reflexivity|]. simpl.
    destruct (find (has_id (songId_of song)) (listed env w)) eqn:Hfind.
    - left. split; [reflexivity|]. rewrite !after_listing_events. reflexivity.
    - apply not_listed in Hfind. congruence. }
  destruct (getItem_rejects env DOWNLOAD_SETTINGS);
    [apply Stop; simpl; apply after_listing_events|].
  destruct (exceeds _ _ _);
    [apply Stop; simpl; rewrite !after_listing_events; reflexivity|].
  destruct (downloadSong_admitted env song options progressCallback _) as [r f'] eqn:Hrun.
  pose proof (downloadSong_admitted_post _ _ _ _ _ _ _ Hrun) as Hpost.
  apply downloadSong_admitted_events in Hrun as (ticks & Ht & Hs & He).
  simpl in He. rewrite !after_listing_events in He.
  exists ticks. split; [exact Ht|]. split; [exact Hs|].
  destruct r as [x|error]; simpl.
  - simpl in Hpost. destruct Hpost as (d & f1 & -> & _). right. auto.
  - eexists. rewrite cleaned_events. simpl. rewrite He, app_nil_r, <- app_assoc. reflexivity.
Qed.

(** X16.  What a [progressCallback] that returns each time it is called is
    told during one [downloadSong] on a song object, the manifest being
    readable during the call.  When an entry is returned: nothing, if the
    song was downloaded already; otherwise events of a transfer under way
    (the id of the song, status [downloading], no error, a progress of at
    most 1) and then one [completed] event with progress 1.  When [null] is
    returned: events of a transfer under way and then one [failed] event
    with a message.  With such a callback the call does not throw.  Without
    a callback no event is reported. *)
Theorem progress_protocol env song options w :
  getItem_rejects env DOWNLOADED_SONGS = None →
  (let r := downloadSong env (Some song) options true w in
   match fst r with
   | Normal (Some d) =>
       (fst (isSongDownloaded env (songId_of song) w) = Normal true ∧ events (snd r) = events w)
       ∨ (fst (isSongDownloaded env (songId_of song) w) = Normal false
          ∧ ∃ ticks,
              Forall (tick song) ticks
              ∧ events (snd r)
                = events w ++ ticks
                  ++ [DownloadProgress.mk (DownloadableSong.id song) 1 completed None])
   | Normal None =>
       ∃ ticks msg,
         Forall (tick song) ticks
         ∧ events (snd r)
           = events w ++ ticks
             ++ [DownloadProgress.mk (DownloadableSong.id song) 0 failed (Some msg)]
   | Throw _ => False
   end)
  ∧ events (snd (downloadSong env (Some song) options false w)) = events w.
Proof.
  intros _. split.
  - destruct (downloadSong_events env song options true w) as (ticks & Ht & _ & H).
    cbv zeta in *. rewrite isSongDownloaded_run. simpl.
    destruct (fst (downloadSong env (Some song) options true w)) as [[d|]|error]; [| |exact H].
    + destruct H as [(Hex & He)|(Hex & He)].
      * left. rewrite Hex. auto.
      * right. rewrite Hex. split; [reflexivity|]. exists ticks. auto.
    + destruct H as (msg & He). exists ticks, msg. auto.
  - destruct (downloadSong_events env song options false w) as (ticks & _ & Hs & H).
    cbv zeta in H. rewrite (Hs eq_refl) in H.
    destruct (fst (downloadSong env (Some song) options false w)) as [[d|]|error].
    + destruct H as [(_ & He)|(_ & He)]; rewrite He; simpl; rewrite ?app_nil_r; reflexivity.
    + destruct H as (msg & He). rewrite He. simpl. rewrite app_nil_r. reflexivity.
    + contradiction.
Qed.

(** Song C with audio, online: the lyrics are saved, the audio transport
    reports 512 of 2048 bytes and breaks.  The callback is told of the
    start, of a quarter done, and of the failure. *)
Lemma progress_protocol_witness :
  getItem_rejects env_online DOWNLOADED_SONGS = None
  ∧ fst (downloadSong env_online (Some song_C) with_audio true empty_world) = Normal None
  ∧ ∃ ticks msg,
      Forall (tick song_C) ticks
      ∧ events (snd (downloadSong env_online (Some song_C) with_audio true empty_world))
        = events empty_world ++ ticks
          ++ [DownloadProgress.mk (DownloadableSong.id song_C) 0 failed (Some msg)].
Proof.
  assert (H : fst (downloadSong env_online (Some song_C) with_audio true empty_world)
              = Normal None) by (vm_compute; reflexivity).
  split; [reflexivity|]. split; [exact H|].
  pose proof (proj1 (progress_protocol env_online song_C with_audio empty_world eq_refl)) as P.
  cbv zeta in P. rewrite H in P. exact P.
Defined.

(** ** Start-up *)

Lemma make_missing_step senv dir s :
  (let! dirInfo_exists := FileSystem_exists (collaborators senv) dir in
   when (negb dirInfo_exists) (FileSystem_makeDirectoryAsync senv dir)) s
  = match getInfoAsync_rejects (collaborators senv) dir with
    | Some error => (Throw error, s)
    | None =>
        if exists_at s dir then (Normal tt, s)
        else match makeDirectoryAsync_rejects senv dir with
             | Some error => (Throw error, s)
             | None =>
                 (Normal tt,
                  {| directories := {[dir]} ∪ directories s; device_world := device_world s |})
             end
    end.
Proof.
  unfold bind, FileSystem_exists, FileSystem_makeDirectoryAsync, rejecting, throw, when, ret.
  destruct (getInfoAsync_rejects (collaborators senv) dir); [reflexivity|].
  destruct (exists_at s dir); simpl; [reflexivity|].
  destruct (makeDirectoryAsync_rejects senv dir); reflexivity.
Qed.

Lemma exists_at_mono s s' dir :
  directories s ⊆ directories s' → files (device_world s') = files (device_world s) →
  exists_at s dir = true → exists_at s' dir = true.
Proof.
  unfold exists_at. intros Hsub ->. rewrite !orb_true_iff, !bool_decide_eq_true.
  intros [H|H]; [left; apply Hsub, H|right; exact H].
Qed.

Lemma make_missing_post senv dirs s r s' :
  make_missing senv dirs s = (r, s') →
  device_world s' = device_world s
  ∧ directories s ⊆ directories s'
  ∧ match r with
    | Normal _ =>
        ∀ dir, dir ∈ dirs →
               exists_at s' dir = true ∧ getInfoAsync_rejects (collaborators senv) dir = None
    | Throw error =>
        ∃ dir, dir ∈ dirs
               ∧ (getInfoAsync_rejects (collaborators senv) dir = Some error
                  ∨ makeDirectoryAsync_rejects senv dir = Some error)
    end.
Proof.
  revert s. induction dirs as [|dir dirs IH]; intros s.
  - intros H. injection H as <- <-. split; [reflexivity|]. split; [reflexivity|].
    intros dir Hin. inversion Hin.
  - unfold make_missing. simpl. fold (make_missing senv dirs). intros H.
    apply bind_inv in H as [(u & s1 & Hstep & H)|(error & Hstep & ->)];
      rewrite make_missing_step in Hstep.
    + apply IH in H as (Hw & Hsub & Hr).
      assert (Hs1 : device_world s1 = device_world s ∧ directories s ⊆ directories s1
                    ∧ exists_at s1 dir = true
                    ∧ getInfoAsync_rejects (collaborators senv) dir = None).
      { destruct (getInfoAsync_rejects (collaborators senv) dir); [discriminate|].
        destruct (exists_at s dir) eqn:He.
        - injection Hstep as _ <-. auto.
        - destruct (makeDirectoryAsync_rejects senv dir); [discriminate|].
          injection Hstep as _ <-. simpl. split; [reflexivity|]. split; [apply union_subseteq_r|].
          split; [|reflexivity]. unfold exists_at. simpl.
          apply orb_true_iff. left. apply bool_decide_eq_true.
          apply elem_of_union_l, elem_of_singleton. reflexivity. }
      destruct Hs1 as (Hw1 & Hsub1 & He1 & Hg1).
      split; [congruence|]. split; [transitivity (directories s1); assumption|].
      destruct r as [x|error].
      * intros dir' Hin. apply elem_of_cons in Hin as [->|Hin]; [|apply Hr, Hin].
        split; [|exact Hg1]. apply (exists_at_mono s1); auto. rewrite Hw. reflexivity.
      * destruct Hr as (dir' & Hin & Hrej). exists dir'. split; [right; exact Hin|exact Hrej].
    + assert (Hs : s' = s ∧ (getInfoAsync_rejects (collaborators senv) dir = Some error
                            ∨ makeDirectoryAsync_rejects senv dir = Some error)).
      { destruct (getInfoAsync_rejects (collaborators senv) dir) as [e|].
        - injection Hstep as <- <-. auto.
        - destruct (exists_at s dir); [discriminate|].
          destruct (makeDirectoryAsync_rejects senv dir) as [e|]; [|discriminate].
          injection Hstep as <- <-. auto. }
      destruct Hs as (-> & Hrej). split; [reflexivity|]. split; [reflexivity|].
      exists dir. split; [left|exact Hrej].
Qed.

Lemma make_missing_idle senv dirs s :
  (∀ dir, dir ∈ dirs →
          exists_at s dir = true ∧ getInfoAsync_rejects (collaborators senv) dir = None) →
  make_missing senv dirs s = (Normal tt, s).
Proof.
  induction dirs as [|dir dirs IH]; intros H; [reflexivity|].
  unfold make_missing. simpl. fold (make_missing senv dirs). unfold bind at 1.
  rewrite make_missing_step. destruct (H dir) as [He Hg]; [left|]. rewrite Hg, He.
  apply IH. intros dir' Hin. apply H. right. exact Hin.
Qed.

Lemma setupNotifications_run senv s :
  setupNotifications senv s = (Normal tt, after_setupNotifications senv s).
Proof.
  unfold setupNotifications, after_setupNotifications.
  destruct (Notifications (collaborators senv)); [|reflexivity].
  unfold try_catch, rejecting. destruct (setNotificationHandler_rejects senv); reflexivity.
Qed.

Lemma initializeDownloadManager_run senv s :
  initializeDownloadManager senv s =
  let env := collaborators senv in
  let label := "Error initializing download manager:" in
  match make_missing senv (manager_directories env) s with
  | (Throw error, s1) => (Throw error, logged_on_device label s1)
  | (Normal _, s1) =>
      match getItem_rejects env DOWNLOAD_SETTINGS with
      | Some error => (Throw error, logged_on_device label s1)
      | None =>
          match download_settings (device_world s1) with
          | Some _ => (Normal tt, after_setupNotifications senv s1)
          | None =>
              match setItem_rejects env DOWNLOAD_SETTINGS with
              | Some error => (Throw error, logged_on_device label s1)
              | None =>
                  (Normal tt,
                   after_setupNotifications senv
                     {| directories := directories s1;
                        device_world :=
                          set_download_settings (Some DEFAULT_SETTINGS) (device_world s1) |})
              end
          end
      end
  end.
Proof.
  unfold initializeDownloadManager. cbv zeta. unfold try_catch, bind at 1.
  fold (manager_directories (collaborators senv)).
  fold (make_missing senv (manager_directories (collaborators senv))).
  destruct (make_missing senv (manager_directories (collaborators senv)) s) as [[u|error] s1];
    [|reflexivity].
  unfold bind at 1, on_device at 1, AsyncStorage_getItem_settings, rejecting.
  destruct (getItem_rejects (collaborators senv) DOWNLOAD_SETTINGS); [reflexivity|].
  simpl. unfold bind at 1.
  destruct (download_settings (device_world s1)); simpl.
  - unfold bind, ret. rewrite setupNotifications_run. destruct s1; reflexivity.
  - unfold on_device, AsyncStorage_setItem_settings, rejecting.
    destruct (setItem_rejects (collaborators senv) DOWNLOAD_SETTINGS); [reflexivity|].
    simpl. unfold bind, ret. rewrite setupNotifications_run. reflexivity.
Qed.

Lemma after_setupNotifications_directories senv s :
  directories (after_setupNotifications senv s) = directories s.
Proof.
  unfold after_setupNotifications.
  destruct (Notifications (collaborators senv)), (setNotificationHandler_rejects senv);
    reflexivity.
Qed.

Lemma after_setupNotifications_songs senv s :
  downloaded_songs (device_world (after_setupNotifications senv s))
  = downloaded_songs (device_world s).
Proof.
  unfold after_setupNotifications.
  destruct (Notifications (collaborators senv)), (setNotificationHandler_rejects senv);
    reflexivity.
Qed.

Lemma after_setupNotifications_settings senv s :
  download_settings (device_world (after_setupNotifications senv s))
  = download_settings (device_world s).
Proof.
  unfold after_setupNotifications.
  destruct (Notifications (collaborators senv)), (setNotificationHandler_rejects senv);
    reflexivity.
Qed.

Lemma after_setupNotifications_files senv s :
  files (device_world (after_setupNotifications senv s)) = files (device_world s).
Proof.
  unfold after_setupNotifications.
  destruct (Notifications (collaborators senv)), (setNotificationHandler_rejects senv);
    reflexivity.
Qed.

Lemma exists_at_same s s' dir :
  directories s' = directories s → files (device_world s') = files (device_world s) →
  exists_at s' dir = exists_at s dir.
Proof. unfold exists_at. intros -> ->. reflexivity. Qed.

(** X20.  [initializeDownloadManager] touches neither manifest nor files and
    removes no directory.  When it returns, something is at each of the four
    directories of the manager, and the stored settings are those that were
    stored, or the defaults when none were.  When it throws, it throws the
    rejection of a query or a creation of one of the four directories, or of
    the read or the write of the settings, after logging it; the stored
    settings are then as before. *)
Theorem initializeDownloadManager_outcome senv s :
  let env := collaborators senv in
  let r := initializeDownloadManager senv s in
  downloaded_songs (device_world (snd r)) = downloaded_songs (device_world s)
  ∧ files (device_world (snd r)) = files (device_world s)
  ∧ directories s ⊆ directories (snd r)
  ∧ match fst r with
    | Normal _ =>
        (∀ dir, dir ∈ manager_directories env → exists_at (snd r) dir = true)
        ∧ download_settings (device_world (snd r))
          = Some (match download_settings (device_world s) with
                  | Some storedSettings => storedSettings
                  | None => DEFAULT_SETTINGS
                  end)
    | Throw error =>
        setup_rejection senv error
        ∧ download_settings (device_world (snd r)) = download_settings (device_world s)
        ∧ last (console (device_world (snd r))) = Some "Error initializing download manager:"
    end.
Proof.
  cbv zeta. rewrite initializeDownloadManager_run. cbv zeta.
  destruct (make_missing senv (manager_directories (collaborators senv)) s) as [r s1] eqn:Hloop.
  apply make_missing_post in Hloop as (Hw & Hsub & Hr).
  assert (Hlast : ∀ l : list string, last (l ++ ["Error initializing download manager:"])
                                     = Some "Error initializing download manager:")
    by (intros l; apply last_snoc).
  destruct r as [u|error].
  - destruct (getItem_rejects (collaborators senv) DOWNLOAD_SETTINGS) as [error|] eqn:Hget.
    { simpl. rewrite Hw. split; [reflexivity|]. split; [reflexivity|]. split; [exact Hsub|].
      split; [right; left; exact Hget|]. split; [reflexivity|apply Hlast]. }
    destruct (download_settings (device_world s1)) as [storedSettings|] eqn:Hst.
    { simpl. rewrite after_setupNotifications_songs, after_setupNotifications_files,
        after_setupNotifications_settings, after_setupNotifications_directories, Hst.
      rewrite <- Hw, Hst. split; [reflexivity|]. split; [reflexivity|]. split; [exact Hsub|].
      split; [|reflexivity]. intros dir Hin.
      rewrite (exists_at_same s1); [apply Hr, Hin| |].
      - apply after_setupNotifications_directories.
      - apply after_setupNotifications_files. }
    destruct (setItem_rejects (collaborators senv) DOWNLOAD_SETTINGS) as [error|] eqn:Hset.
    { simpl. rewrite Hw. split; [reflexivity|]. split; [reflexivity|]. split; [exact Hsub|].
      split; [right; right; exact Hset|]. split; [reflexivity|apply Hlast]. }
    simpl. rewrite after_setupNotifications_songs, after_setupNotifications_files,
      after_setupNotifications_settings, after_setupNotifications_directories. simpl.
    rewrite <- Hw, Hst. split; [reflexivity|]. split; [reflexivity|]. split; [exact Hsub|].
    split; [|reflexivity]. intros dir Hin.
    rewrite (exists_at_same s1); [apply Hr, Hin| |].
    + rewrite after_setupNotifications_directories. reflexivity.
    + rewrite after_setupNotifications_files. reflexivity.
  - simpl. rewrite Hw. split; [reflexivity|]. split; [reflexivity|]. split; [exact Hsub|].
    split; [left; exact Hr|]. split; [reflexivity|apply Hlast].
Qed.

(** X21.  [initializeDownloadManager] returns whenever the queries and
    creations of the four directories and the read and write of the settings
    are not rejected, whether or not the notification handler can be
    installed.  Run again after it has returned, it returns again and
    changes neither directories, settings, manifest nor files. *)
Theorem initializeDownloadManager_again senv s :
  let env := collaborators senv in
  ((∀ dir, dir ∈ manager_directories env →
           getInfoAsync_rejects env dir = None ∧ makeDirectoryAsync_rejects senv dir = None) →
   getItem_rejects env DOWNLOAD_SETTINGS = None →
   setItem_rejects env DOWNLOAD_SETTINGS = None →
   fst (initializeDownloadManager senv s) = Normal tt)
  ∧ (fst (initializeDownloadManager senv s) = Normal tt →
     let s1 := snd (initializeDownloadManager senv s) in
     let r2 := initializeDownloadManager senv s1 in
     fst r2 = Normal tt
     ∧ directories (snd r2) = directories s1
     ∧ download_settings (device_world (snd r2)) = download_settings (device_world s1)
     ∧ downloaded_songs (device_world (snd r2)) = downloaded_songs (device_world s1)
     ∧ files (device_world (snd r2)) = files (device_world s1)).
Proof.
  cbv zeta. split.
  - intros Hdirs Hget Hset. rewrite initializeDownloadManager_run. cbv zeta.
    destruct (make_missing senv (manager_directories (collaborators senv)) s)
      as [r s1] eqn:Hloop.
    apply make_missing_post in Hloop as (_ & _ & Hr).
    destruct r as [u|error].
    + rewrite Hget, Hset. destruct (download_settings (device_world s1)); reflexivity.
    + destruct Hr as (dir & Hin & [Hrej|Hrej]); destruct (Hdirs dir Hin); congruence.
  - rewrite (initializeDownloadManager_run senv s). cbv zeta.
    destruct (make_missing senv (manager_directories (collaborators senv)) s)
      as [r s1] eqn:Hloop.
    apply make_missing_post in Hloop as (_ & _ & Hr).
    destruct r as [u|error]; [|discriminate].
    destruct (getItem_rejects (collaborators senv) DOWNLOAD_SETTINGS) eqn:Hget; [discriminate|].
    assert (Again : ∀ s2 storedSettings,
              directories s2 = directories s1 →
              files (device_world s2) = files (device_world s1) →
              download_settings (device_world s2) = Some storedSettings →
              let r2 := initializeDownloadManager senv (after_setupNotifications senv s2) in
              fst r2 = Normal tt
              ∧ directories (snd r2) = directories (after_setupNotifications senv s2)
              ∧ download_settings (device_world (snd r2))
                = download_settings (device_world (after_setupNotifications senv s2))
              ∧ downloaded_songs (device_world (snd r2))
                = downloaded_songs (device_world (after_setupNotifications senv s2))
              ∧ files (device_world (snd r2))
                = files (device_world (after_setupNotifications senv s2))).
    { intros s2 storedSettings Hd Hf Hs. cbv zeta.
      rewrite initializeDownloadManager_run. cbv zeta.
      rewrite make_missing_idle.
      - rewrite Hget, after_setupNotifications_settings, Hs. simpl.
        rewrite !after_setupNotifications_directories, !after_setupNotifications_settings,
          !after_setupNotifications_songs, !after_setupNotifications_files. auto.
      - intros dir Hin. destruct (Hr dir Hin) as [He Hg]. split; [|exact Hg].
        rewrite <- He. apply exists_at_same.
        + rewrite after_setupNotifications_directories. exact Hd.
        + rewrite after_setupNotifications_files. exact Hf. }
    destruct (download_settings (device_world s1)) as [storedSettings|] eqn:Hst.
    + intros _. simpl. apply (Again s1 storedSettings); auto.
    + destruct (setItem_rejects (collaborators senv) DOWNLOAD_SETTINGS); [discriminate|].
      intros _. simpl. apply (Again _ DEFAULT_SETTINGS); reflexivity.
Qed.

Lemma initializeDownloadManager_again_witness :
  fst (initializeDownloadManager setup_online new_device) = Normal tt
  ∧ fst (initializeDownloadManager setup_online
           (snd (initializeDownloadManager setup_online new_device))) = Normal tt
  ∧ download_settings
      (device_world (snd (initializeDownloadManager setup_online new_device)))
    = Some DEFAULT_SETTINGS.
Proof.
  destruct (initializeDownloadManager_again setup_online new_device) as (Hfirst & Hagain).
  assert (H : fst (initializeDownloadManager setup_online new_device) = Normal tt).
  { apply Hfirst; [intros dir _; split; reflexivity|reflexivity|reflexivity]. }
  split; [exact H|]. split; [exact (proj1 (Hagain H))|].
  rewrite initializeDownloadManager_run. cbv zeta.
  destruct (make_missing setup_online (manager_directories (collaborators setup_online))
              new_device) as [r s1] eqn:Hloop.
  apply make_missing_post in Hloop as (Hw & _ & Hr).
  destruct r as [u|error].
  - simpl. rewrite Hw. reflexivity.
  - destruct Hr as (dir & _ & [Hrej|Hrej]); discriminate.
Defined.

(** ** The settings screen and the downloads screen *)

Lemma handleDownloadSettingChange_run env setting value s :
  SettingsScreen.handleDownloadSettingChange env setting value s
  = (Normal tt,
     {| SettingsScreen.ui :=
          match setting with
          | SettingsScreen.autoDownloadOnWifi_ => SettingsScreen.setAutoDownloadOnWifi value
          | SettingsScreen.downloadAudio_ => SettingsScreen.setDownloadAudio value
          | SettingsScreen.downloadNotation_ => SettingsScreen.setDownloadNotation value
          | SettingsScreen.notifications_ => SettingsScreen.setNotificationsEnabled value
          end (SettingsScreen.ui s);
        SettingsScreen.device :=
          snd (updateDownloadSettings env (SettingsScreen.setting_update setting value)
                 (SettingsScreen.device s)) |}).
Proof.
  unfold SettingsScreen.handleDownloadSettingChange, try_catch.
  destruct setting; unfold bind, SettingsScreen.set_ui, SettingsScreen.on_device, ret; simpl;
    rewrite updateDownloadSettings_run; cbv zeta;
    destruct (setItem_rejects env DOWNLOAD_SETTINGS); reflexivity.
Qed.

(** X22.  [handleDownloadSettingChange] never throws and never alerts.  The
    switch on the screen takes the new value; the stored settings hold it
    in the field of that setting when the write succeeds, and are as before
    when it is rejected: the [false] that [updateDownloadSettings] then
    answers is not looked at. *)
Theorem handleDownloadSettingChange_outcome env setting value s :
  let r := SettingsScreen.handleDownloadSettingChange env setting value s in
  fst r = Normal tt
  ∧ shown setting (SettingsScreen.ui (snd r)) = value
  ∧ SettingsScreen.alerts (SettingsScreen.ui (snd r)) = SettingsScreen.alerts (SettingsScreen.ui s)
  ∧ match setItem_rejects env DOWNLOAD_SETTINGS with
    | None =>
        ∃ storedSettings,
          download_settings (SettingsScreen.device (snd r)) = Some storedSettings
          ∧ persisted setting storedSettings = Some value
    | Some _ =>
        download_settings (SettingsScreen.device (snd r))
        = download_settings (SettingsScreen.device s)
    end.
Proof.
  cbv zeta. rewrite handleDownloadSettingChange_run. simpl.
  split; [reflexivity|]. split; [destruct setting; reflexivity|].
  split; [destruct setting; reflexivity|].
  rewrite updateDownloadSettings_run. cbv zeta.
  destruct (setItem_rejects env DOWNLOAD_SETTINGS); simpl.
  - destruct (getItem_rejects env DOWNLOAD_SETTINGS); reflexivity.
  - eexists. split; [reflexivity|]. destruct setting; reflexivity.
Qed.

Lemma handleClearDownloads_onPress_run env s :
  SettingsScreen.handleClearDownloads_onPress env s
  = let cleared := clearAllDownloads env (SettingsScreen.device s) in
    (Normal tt,
     match fst cleared with
     | Normal true =>
         {| SettingsScreen.ui :=
              SettingsScreen.setIsLoading false
                (SettingsScreen.Alert_alert "Success" "All downloads have been cleared."
                   (SettingsScreen.setStorageUsage
                      (fun prev =>
                         {| SettingsScreen.used := 0;
                            SettingsScreen.total := SettingsScreen.total prev;
                            SettingsScreen.songCount := 0 |})
                      (SettingsScreen.setIsLoading true (SettingsScreen.ui s))));
            SettingsScreen.device := snd cleared |}
     | _ =>
         {| SettingsScreen.ui :=
              SettingsScreen.setIsLoading false
                (SettingsScreen.Alert_alert "Error" "Failed to clear downloads. Please try again."
                   (SettingsScreen.setIsLoading true (SettingsScreen.ui s)));
            SettingsScreen.device := logged "Error clearing downloads:" (snd cleared) |}
     end).
Proof.
  unfold SettingsScreen.handleClearDownloads_onPress, try_finally, try_catch.
  unfold bind at 1. unfold SettingsScreen.set_ui at 1. unfold bind at 1.
  unfold SettingsScreen.on_device at 1. cbn [SettingsScreen.device SettingsScreen.ui].
  cbv zeta. rewrite clearAllDownloads_run. cbv zeta.
  destruct (setItem_rejects env DOWNLOADED_SONGS); reflexivity.
Qed.

(** X23.  What pressing "Clear All" does: it never throws, [isLoading] is
    [false] at the end and one alert was added.  When the manifest can be
    written the alert is "Success", the usage and the song count on the
    screen are 0 and the stored manifest is empty; when it cannot, the alert
    is "Error" and the usage on the screen is as it was.  The files are
    those that [clearAllDownloads] leaves. *)
Theorem handleClearDownloads_outcome env s :
  let r := SettingsScreen.handleClearDownloads_onPress env s in
  let ui' := SettingsScreen.ui (snd r) in
  fst r = Normal tt
  ∧ SettingsScreen.isLoading ui' = false
  ∧ files (SettingsScreen.device (snd r)) = files (snd (clearAllDownloads env (SettingsScreen.device s)))
  ∧ match setItem_rejects env DOWNLOADED_SONGS with
    | None =>
        SettingsScreen.alerts ui'
        = SettingsScreen.alerts (SettingsScreen.ui s)
          ++ [("Success", "All downloads have been cleared.")]
        ∧ SettingsScreen.used (SettingsScreen.storageUsage ui') = 0
        ∧ SettingsScreen.songCount (SettingsScreen.storageUsage ui') = 0
        ∧ SettingsScreen.total (SettingsScreen.storageUsage ui')
          = SettingsScreen.total (SettingsScreen.storageUsage (SettingsScreen.ui s))
        ∧ downloaded_songs (SettingsScreen.device (snd r)) = Some []
    | Some _ =>
        SettingsScreen.alerts ui'
        = SettingsScreen.alerts (SettingsScreen.ui s)
          ++ [("Error", "Failed to clear downloads. Please try again.")]
        ∧ SettingsScreen.storageUsage ui'
          = SettingsScreen.storageUsage (SettingsScreen.ui s)
    end.
Proof.
  cbv zeta. rewrite handleClearDownloads_onPress_run. cbv zeta.
  rewrite clearAllDownloads_run. cbv zeta.
  destruct (setItem_rejects env DOWNLOADED_SONGS); simpl; auto 10.
Qed.

(** *** The downloads screen *)

Lemma flip_flip song : DownloadsScreen.flip (DownloadsScreen.flip song) = song.
Proof. destruct song. unfold DownloadsScreen.flip. simpl. rewrite negb_involutive. reflexivity. Qed.

(** X24.  [toggleFavorite] keeps the songs of the list in place: the song
    at each position has its [isFavorite] negated when its id is the one
    given and is unchanged otherwise; the marks of songs being deleted are
    unchanged; toggling twice gives the list back. *)
Theorem toggleFavorite_outcome songId s :
  let s' := DownloadsScreen.toggleFavorite songId s in
  DownloadsScreen.toggleFavorite songId s' = s
  ∧ map ListedSong.id (DownloadsScreen.downloads s')
    = map ListedSong.id (DownloadsScreen.downloads s)
  ∧ (∀ i song,
       DownloadsScreen.downloads s !! i = Some song →
       ∃ song',
         DownloadsScreen.downloads s' !! i = Some song'
         ∧ ListedSong.isFavorite song'
           = (if String.eqb (ListedSong.id song) songId
              then negb (ListedSong.isFavorite song) else ListedSong.isFavorite song)
         ∧ (ListedSong.id song ≠ songId → song' = song))
  ∧ DownloadsScreen.deletingIds s' = DownloadsScreen.deletingIds s.
Proof.
  cbv zeta. destruct s as [downloads deletingIds]. unfold DownloadsScreen.toggleFavorite. simpl.
  split; [|split; [|split; [|reflexivity]]].
  - f_equal. induction downloads as [|song downloads IH]; simpl; [reflexivity|].
    rewrite IH. f_equal.
    destruct (String.eqb (ListedSong.id song) songId) eqn:E; simpl; rewrite E; [|reflexivity].
    apply flip_flip.
  - induction downloads as [|song downloads IH]; simpl; [reflexivity|].
    rewrite IH. f_equal. destruct (String.eqb (ListedSong.id song) songId); reflexivity.
  - intros i song Hi. eexists. split.
    + change (map ?f ?l) with (f <$> l). rewrite list_lookup_fmap, Hi. reflexivity.
    + destruct (String.eqb (ListedSong.id song) songId) eqn:E.
      * split; [reflexivity|]. intros Hne. apply String.eqb_eq in E. contradiction.
      * split; reflexivity.
Qed.

(** X25.  What pressing "Delete" does to the downloads screen: the list
    keeps exactly its songs of other ids, in their order; the id is not
    marked as being deleted at the end; the marks of other ids are as they
    were. *)
Theorem deleteDownload_onPress_outcome songId s :
  let s' := DownloadsScreen.deleteDownload_onPress songId s in
  (∀ song, song ∈ DownloadsScreen.downloads s'
           ↔ song ∈ DownloadsScreen.downloads s ∧ ListedSong.id song ≠ songId)
  ∧ sublist (DownloadsScreen.downloads s') (DownloadsScreen.downloads s)
  ∧ (songId ∉ DownloadsScreen.deletingIds s')
  ∧ (∀ other, other ≠ songId →
              (other ∈ DownloadsScreen.deletingIds s' ↔ other ∈ DownloadsScreen.deletingIds s)).
Proof.
  cbv zeta. unfold DownloadsScreen.deleteDownload_onPress. simpl.
  split; [|split; [|split]].
  - intros song. rewrite !list_elem_of_In, filter_In, negb_true_iff.
    split; intros [H1 H2]; (split; [exact H1|]).
    + intros Heq. apply String.eqb_eq in Heq. congruence.
    + apply String.eqb_neq, H2.
  - induction (DownloadsScreen.downloads s) as [|song downloads IH]; simpl; [constructor|].
    destruct (negb _); [apply sublist_skip|apply sublist_cons]; exact IH.
  - rewrite elem_of_difference, elem_of_singleton. tauto.
  - intros other Hne. rewrite elem_of_difference, elem_of_union, !elem_of_singleton.
    split; [intros [[H|H] _]; [congruence|exact H]|intros H; split; [right; exact H|exact Hne]].
Qed.

(** ** File extensions *)

Lemma split_dotless s : dotless s = true → split "." s = [s].
Proof.
  induction s as [|c s IH]; simpl; [reflexivity|].
  intros H. apply andb_true_iff in H as [Hc Hs]. apply negb_true_iff in Hc.
  rewrite Hc, (IH Hs). reflexivity.
Qed.

Lemma split_cons sep s : ∃ piece pieces, split sep s = piece :: pieces.
Proof.
  induction s as [|c s (piece & pieces & IH)]; simpl; [eauto|].
  destruct (Ascii.eqb c sep); [eauto|]. rewrite IH. eauto.
Qed.

Lemma last_cons_cons {A} (x y : A) l : last (x :: y :: l) = last (y :: l).
Proof. reflexivity. Qed.

Lemma split_after_dot stem ext :
  dotless ext = true →
  ∃ piece pieces,
    split "." (stem +:+ String "." ext) = piece :: pieces ++ [ext].
Proof.
  intros Hext. induction stem as [|c stem (piece & pieces & IH)].
  - exists "", []. change ("" +:+ String "." ext) with (String "." ext).
    simpl. rewrite (split_dotless _ Hext). reflexivity.
  - change (String c stem +:+ String "." ext) with (String c (stem +:+ String "." ext)).
    simpl. rewrite IH. destruct (Ascii.eqb c ".").
    + exists "", (piece :: pieces). reflexivity.
    + exists (String c piece), pieces. reflexivity.
Qed.

Lemma pop_split_after_dot stem ext :
  dotless ext = true → pop (split "." (stem +:+ String "." ext)) = Some ext.
Proof.
  intros Hext. destruct (split_after_dot stem ext Hext) as (piece & pieces & ->).
  unfold pop. change (piece :: pieces ++ [ext]) with ((piece :: pieces) ++ [ext]).
  apply last_snoc.
Qed.

(** X19.  The extension of the local audio and notation files: for a url
    that ends in a full stop followed by a text without full stops, that
    text, or [mp3] and [pdf] when the text is empty; for a url without any
    full stop, the whole url, or [mp3] and [pdf] when the url is empty. *)
Theorem local_file_extension env songId :
  (∀ stem ext,
     dotless ext = true →
     audioUri env songId (stem +:+ String "." ext)
     = AUDIO_DIRECTORY env +:+ songId +:+ "_audio."
       +:+ (if String.eqb ext "" then "mp3" else ext)
     ∧ notationUri env songId (stem +:+ String "." ext)
       = NOTATION_DIRECTORY env +:+ songId +:+ "_notation."
         +:+ (if String.eqb ext "" then "pdf" else ext))
  ∧ (∀ url,
       dotless url = true →
       audioUri env songId url
       = AUDIO_DIRECTORY env +:+ songId +:+ "_audio."
         +:+ (if String.eqb url "" then "mp3" else url)
       ∧ notationUri env songId url
         = NOTATION_DIRECTORY env +:+ songId +:+ "_notation."
           +:+ (if String.eqb url "" then "pdf" else url)).
Proof.
  split.
  - intros stem ext Hext. unfold audioUri, notationUri.
    rewrite (pop_split_after_dot stem ext Hext). unfold or_string.
    destruct (String.eqb ext ""); split; reflexivity.
  - intros url Hurl. unfold audioUri, notationUri.
    rewrite (split_dotless url Hurl). unfold pop, or_string. simpl.
    destruct (String.eqb url ""); split; reflexivity.
Qed.

Lemma local_file_extension_witness :
  dotless "mp3" = true
  ∧ audioUri env_online "C" "https://hymns.example/c.mp3"
    = "file:///data/downloads/audio/C_audio.mp3"
  ∧ dotless "blob" = true
  ∧ audioUri env_online "C" "blob" = "file:///data/downloads/audio/C_audio.blob".
Proof.
  split; [reflexivity|]. split.
  - exact (proj1 (proj1 (local_file_extension env_online "C")
                    "https://hymns.example/c" "mp3" eq_refl)).
  - split; [reflexivity|].
    exact (proj1 (proj2 (local_file_extension env_online "C") "blob" eq_refl)).
Defined.

(** ** Paths and notifications *)

Lemma after_listing_notifications env w : notifications (after_listing env w) = notifications w.
Proof. unfold after_listing. destruct (getItem_rejects env DOWNLOADED_SONGS); reflexivity. Qed.

Lemma cleaned_notifications env paths w :
  notifications (cleaned env paths w) = notifications w.
Proof.
  revert w. induction paths as [|p paths IH]; intros w; simpl; [reflexivity|].
  rewrite IH. destruct (deleteAsync_rejects env p); reflexivity.
Qed.

Lemma notified_notifications env song options w :
  notifications (notified env song options w)
  = notifications w ++ completion_notice env song options.
Proof.
  unfold notified, completion_notice.
  destruct (truthy_bool _), (Notifications env) as [[?|]|]; simpl;
    rewrite ?app_nil_r; reflexivity.
Qed.

Lemma kept_refl uri f : kept uri f f.
Proof. split; [reflexivity|]. split; auto. Qed.

Lemma kept_same uri f f' :
  notifications (world f') = notifications (world f) →
  downloadedFiles f' = downloadedFiles f →
  files (world f') = files (world f) →
  kept uri f f'.
Proof. intros Hn Hd Hf. split; [exact Hn|]. rewrite Hd, Hf. auto. Qed.

Lemma kept_saved uri bytes f f' :
  notifications (world f') = notifications (world f) →
  downloadedFiles f' = downloadedFiles f ++ [uri] →
  files (world f') = <[uri := bytes]> (files (world f)) →
  kept uri f f'.
Proof.
  intros Hn Hd Hf. split; [exact Hn|]. rewrite Hd, Hf. split.
  - intros p Hp. apply elem_of_app in Hp as [Hp|Hp]; [auto|].
    apply list_elem_of_singleton in Hp. auto.
  - intros p Hp. apply lookup_insert_ne. congruence.
Qed.

Lemma downloadSong_lyrics_kept env songId song d f :
  kept (lyricsUri env songId) f (snd (downloadSong_lyrics env songId song d f)).
Proof.
  rewrite downloadSong_lyrics_run.
  destruct (truthy_string _); [|apply kept_refl]. cbv zeta.
  destruct (downloadAsync env _) as [?|bytes]; [apply kept_same; reflexivity|].
  destruct (getInfoAsync_rejects env _); apply (kept_saved _ bytes); reflexivity.
Qed.

Lemma downloadSong_notation_kept env songId song options d f :
  kept (notationUri env songId (the (DownloadableSong.notationUrl song))) f
    (snd (downloadSong_notation env songId song options d f)).
Proof.
  rewrite downloadSong_notation_run.
  destruct (_ && _); [|apply kept_refl]. cbv zeta.
  destruct (downloadAsync env _) as [?|bytes]; [apply kept_same; reflexivity|].
  destruct (getInfoAsync_rejects env _); apply (kept_saved _ bytes); reflexivity.
Qed.

Lemma downloadSong_audio_kept env songId song options progressCallback d f :
  kept (audioUri env songId (the (DownloadableSong.audioUrl song))) f
    (snd (downloadSong_audio env songId song options progressCallback d f)).
Proof.
  rewrite downloadSong_audio_run.
  destruct (_ && _); [|apply kept_refl]. cbv zeta.
  destruct (resumable_downloadAsync env _) as [?|[bytes|]];
    try (apply kept_same; reflexivity).
  destruct (getInfoAsync_rejects env _); apply (kept_saved _ bytes); reflexivity.
Qed.

(** The frame of the admitted part, however it ends. *)
Lemma downloadSong_admitted_kept env song options progressCallback f r f' :
  downloadSong_admitted env song options progressCallback f = (r, f') →
  (∀ p, p ∈ downloadedFiles f' → p ∈ downloadedFiles f ∨ p ∈ own_paths env song)
  ∧ (∀ p, p ∉ own_paths env song → files (world f') !! p = files (world f) !! p)
  ∧ notifications (world f')
    = notifications (world f)
      ++ match r with
         | Normal _ => completion_notice env song options
         | Throw _ => []
         end.
Proof.
  unfold downloadSong_admitted. fold (songId_of song). fold (download_record env song).
  intros H.
  apply bind_inv in H as [(u & f0 & H0 & H)|(error & H0 & _)];
    [|rewrite report_run in H0; discriminate].
  rewrite report_run in H0. injection H0 as _ <-.
  set (f0 := in_world f _) in *.
  assert (K0 : ∀ f1,
            (notifications (world f1) = notifications (world f0)
             ∧ (∀ p, p ∈ downloadedFiles f1 →
                     p ∈ downloadedFiles f0 ∨ p ∈ own_paths env song)
             ∧ (∀ p, p ∉ own_paths env song → files (world f1) !! p = files (world f0) !! p)) →
            (∀ p, p ∈ downloadedFiles f1 → p ∈ downloadedFiles f ∨ p ∈ own_paths env song)
            ∧ (∀ p, p ∉ own_paths env song → files (world f1) !! p = files (world f) !! p)
            ∧ notifications (world f1) = notifications (world f) ++ []).
  { intros f1 (Hn & Hd & Hf). rewrite app_nil_r. auto. }
  assert (Step : ∀ uri (fa fb fc : Frame),
            uri ∈ own_paths env song →
            (notifications (world fb) = notifications (world fa)
             ∧ (∀ p, p ∈ downloadedFiles fb →
                     p ∈ downloadedFiles fa ∨ p ∈ own_paths env song)
             ∧ (∀ p, p ∉ own_paths env song → files (world fb) !! p = files (world fa) !! p)) →
            kept uri fb fc →
            notifications (world fc) = notifications (world fa)
            ∧ (∀ p, p ∈ downloadedFiles fc →
                    p ∈ downloadedFiles fa ∨ p ∈ own_paths env song)
            ∧ (∀ p, p ∉ own_paths env song → files (world fc) !! p = files (world fa) !! p)).
  { intros uri fa fb fc Huri (Hn & Hd & Hf) (Kn & Kd & Kf).
    split; [congruence|]. split.
    - intros p Hp. destruct (Kd p Hp) as [Hp'| ->]; [apply Hd, Hp'|auto].
    - intros p Hp. rewrite Kf; [apply Hf, Hp|]. intros ->. contradiction. }
  assert (I0 : notifications (world f0) = notifications (world f0)
               ∧ (∀ p, p ∈ downloadedFiles f0 →
                       p ∈ downloadedFiles f0 ∨ p ∈ own_paths env song)
               ∧ (∀ p, p ∉ own_paths env song →
                       files (world f0) !! p = files (world f0) !! p)) by auto.
  assert (U1 : lyricsUri env (songId_of song) ∈ own_paths env song) by left.
  assert (U2 : audioUri env (songId_of song) (the (DownloadableSong.audioUrl song))
               ∈ own_paths env song) by (right; left).
  assert (U3 : notationUri env (songId_of song) (the (DownloadableSong.notationUrl song))
               ∈ own_paths env song) by (right; right; left).
  pose proof (downloadSong_lyrics_kept env (songId_of song) song
                (download_record env song) f0) as K1.
  apply bind_inv in H as [(d1 & f1 & H1 & H)|(error & H1 & ->)];
    rewrite H1 in K1; cbn [snd] in K1; pose proof (Step _ _ _ _ U1 I0 K1) as I1;
    [|apply K0, I1].
  pose proof (downloadSong_audio_kept env (songId_of song) song options
                progressCallback d1 f1) as K2.
  apply bind_inv in H as [(d2 & f2 & H2 & H)|(error & H2 & ->)];
    rewrite H2 in K2; cbn [snd] in K2; pose proof (Step _ _ _ _ U2 I1 K2) as I2;
    [|apply K0, I2].
  pose proof (downloadSong_notation_kept env (songId_of song) song options d2 f2) as K3.
  apply bind_inv in H as [(d3 & f3 & H3 & H)|(error & H3 & ->)];
    rewrite H3 in K3; cbn [snd] in K3; pose proof (Step _ _ _ _ U3 I2 K3) as I3;
    [|apply K0, I3].
  destruct I3 as (Hn & Hd & Hf).
  revert H. rewrite downloadSong_save_run.
  destruct (setItem_rejects env DOWNLOADED_SONGS); intros H; injection H as <- <-; simpl.
  - rewrite after_listing_files, after_listing_notifications, app_nil_r. auto.
  - rewrite notified_files, notified_notifications. simpl.
    rewrite after_listing_files, after_listing_notifications, Hn. auto.
Qed.

(** The frame of the [try] block, however it ends. *)
Lemma downloadSong_try_kept env song options progressCallback w r f :
  downloadSong_try env (Some song) options progressCallback (new_frame w) = (r, f) →
  (∀ p, p ∈ downloadedFiles f → p ∈ own_paths env song)
  ∧ (∀ p, p ∉ own_paths env song → files (world f) !! p = files w !! p)
  ∧ notifications (world f)
    = notifications w
      ++ match r with
         | Normal (Some _) =>
             if existsb (has_id (songId_of song)) (listed env w) then []
             else completion_notice env song options
         | _ => []
         end.
Proof.
  rewrite downloadSong_try_run.
  assert (Idle : ∀ w1 : World,
            files w1 = files w → notifications w1 = notifications w →
            (∀ p, p ∈ downloadedFiles (in_world (new_frame w) w1) → p ∈ own_paths env song)
            ∧ (∀ p, p ∉ own_paths env song →
                    files (world (in_world (new_frame w) w1)) !! p = files w !! p)
            ∧ notifications (world (in_world (new_frame w) w1)) = notifications w ++ []).
  { intros w1 Hf Hn. simpl. rewrite Hf, Hn, app_nil_r.
    split; [intros p Hp; inversion Hp|auto]. }
  destruct (negb (valid song)); [intros H; injection H as <- <-; apply (Idle w); reflexivity|].
  destruct (getNetworkStateAsync env) as [?|netInfo];
    [intros H; injection H as <- <-; apply (Idle w); reflexivity|].
  destruct (negb _); [intros H; injection H as <- <-; apply (Idle w); reflexivity|].
  cbv zeta. change (world (new_frame w)) with w.
  destruct (existsb (has_id (songId_of song)) (listed env w)) eqn:Hex.
  { intros H; injection H as <- <-.
    destruct (find _ _); apply Idle;
      rewrite ?after_listing_files, ?after_listing_notifications; reflexivity. }
  destruct (getItem_rejects env DOWNLOAD_SETTINGS).
  { intros H; injection H as <- <-. apply Idle;
      rewrite ?after_listing_files, ?after_listing_notifications; reflexivity. }
  destruct (exceeds _ _ _).
  { intros H; injection H as <- <-. apply Idle;
      rewrite ?after_listing_files, ?after_listing_notifications; reflexivity. }
  intros Hrun.
  pose proof (downloadSong_admitted_post _ _ _ _ _ _ _ Hrun) as Hpost.
  apply downloadSong_admitted_kept in Hrun as (Hd & Hf & Hn). simpl in Hd, Hf, Hn.
  rewrite !after_listing_notifications in Hn.
  split; [|split].
  - intros p Hp. destruct (Hd p Hp) as [Hp'|Hp']; [inversion Hp'|exact Hp'].
  - intros p Hp. rewrite (Hf p Hp), !after_listing_files. reflexivity.
  - rewrite Hn. destruct r as [x|error]; [|reflexivity].
    simpl in Hpost. destruct Hpost as (d & f1 & -> & _). reflexivity.
Qed.

(** X17.  However it ends, [downloadSong] on a song object leaves every path
    other than the three where it saves the artifacts of that song as it
    was: neither a transfer nor the clean-up touches the files of other
    songs. *)
Theorem downloadSong_touches_own_paths env song options progressCallback w p :
  p ∉ own_paths env song →
  files (snd (downloadSong env (Some song) options progressCallback w)) !! p = files w !! p.
Proof.
  intros Hp. rewrite downloadSong_run.
  destruct (downloadSong_try env (Some song) options progressCallback (new_frame w))
    as [r f] eqn:Hrun.
  apply downloadSong_try_kept in Hrun as (Hd & Hf & _).
  destruct r as [x|error]; simpl; [apply Hf, Hp|].
  rewrite cleaned_files_out; [apply Hf, Hp|].
  intros Hin. apply Hp, Hd, Hin.
Qed.

Lemma downloadSong_touches_own_paths_witness :
  files (snd (downloadSong env_locked (Some song_C) with_audio true world_A))
  !! "file:///data/downloads/lyrics/A_lyrics.txt" = Some 100.
Proof.
  rewrite (downloadSong_touches_own_paths env_locked song_C with_audio true world_A
             "file:///data/downloads/lyrics/A_lyrics.txt").
  - reflexivity.
  - unfold own_paths. rewrite !not_elem_of_cons. vm_compute.
    repeat split; try discriminate. intros H. inversion H.
Defined.

(** X18.  The notifications of one [downloadSong] on a song object: one,
    titled "Download Complete" and quoting the title of the entry, when an
    entry is returned for a song that was not downloaded, with
    [showNotification] set, the notifications module installed and the
    scheduling not rejected; none otherwise.  The stored settings play no
    part in it. *)
Theorem downloadSong_notification env song options progressCallback w :
  let r := downloadSong env (Some song) options progressCallback w in
  notifications (snd r)
  = notifications w
    ++ match fst r with
       | Normal (Some d) =>
           if existsb (has_id (songId_of song)) (listed env w) then []
           else
             match truthy_bool (DownloadOptions.showNotification options), Notifications env with
             | true, Some None =>
                 [("Download Complete",
                   quote +:+ DownloadedSong.title d +:+ quote
                   +:+ " has been downloaded for offline use.")]
             | _, _ => []
             end
       | _ => []
       end.
Proof.
  cbv zeta.
  destruct (downloadSong env (Some song) options progressCallback w) as [r0 w1] eqn:Hall.
  assert (Htitle : ∀ d, r0 = Normal (Some d) →
                        existsb (has_id (songId_of song)) (listed env w) = false →
                        DownloadedSong.title d = the (DownloadableSong.title song)).
  { intros d -> Hnew.
    assert (Hd : fst (downloadSong env (Some song) options progressCallback w)
                 = Normal (Some d)) by (rewrite Hall; reflexivity).
    destruct (downloadSong_fresh_run env song options progressCallback w d Hd Hnew)
      as (f' & Hrun & _).
    apply downloadSong_admitted_normal in Hrun as (Hx & _). cbv zeta in Hx.
    injection Hx as ->. reflexivity. }
  revert Hall. rewrite downloadSong_run.
  destruct (downloadSong_try env (Some song) options progressCallback (new_frame w))
    as [r f] eqn:Hrun.
  apply downloadSong_try_kept in Hrun as (_ & _ & Hn).
  destruct r as [x|error]; intros Hall; injection Hall as <- <-; simpl.
  - rewrite Hn. destruct x as [d|]; [|reflexivity].
    destruct (existsb (has_id (songId_of song)) (listed env w)) eqn:Hex; [reflexivity|].
    unfold completion_notice. rewrite (Htitle d eq_refl eq_refl). reflexivity.
  - rewrite cleaned_notifications. simpl. rewrite Hn. reflexivity.
Qed.

(** ** A transfer that fails *)

Lemma with_files_app saved1 saved2 fs :
  with_files (saved1 ++ saved2) fs = with_files saved2 (with_files saved1 fs).
Proof. unfold with_files. apply fold_left_app. Qed.

Lemma with_files_out saved (fs : gmap string Z) p :
  p ∉ map fst saved → with_files saved fs !! p = fs !! p.
Proof.
  revert fs. induction saved as [|[q n] saved IH]; intros fs Hp; [reflexivity|].
  simpl in *. rewrite not_elem_of_cons in Hp. destruct Hp as [Hne Hp].
  change (with_files saved (<[q := n]> fs) !! p = fs !! p).
  rewrite IH by exact Hp. apply lookup_insert_ne. congruence.
Qed.

Lemma with_files_in saved (fs : gmap string Z) p n :
  NoDup (map fst saved) → (p, n) ∈ saved → with_files saved fs !! p = Some n.
Proof.
  revert fs. induction saved as [|[q m] saved IH]; intros fs Hnd Hin; [inversion Hin|].
  simpl in Hnd. apply NoDup_cons in Hnd as [Hq Hnd].
  change (with_files saved (<[q := m]> fs) !! p = Some n).
  apply elem_of_cons in Hin as [Heq|Hin].
  - injection Heq as -> ->. rewrite with_files_out by exact Hq. apply lookup_insert_eq.
  - apply IH; assumption.
Qed.

Lemma cleaned_files_kept env paths w p :
  undeletable env p = true → files (cleaned env paths w) !! p = files w !! p.
Proof.
  unfold undeletable. intros Hp. revert w.
  induction paths as [|q paths IH]; intros w; simpl; [reflexivity|].
  rewrite IH. destruct (deleteAsync_rejects env q) eqn:Hq; simpl; [reflexivity|].
  apply lookup_delete_ne. intros ->. rewrite Hq in Hp. discriminate.
Qed.

Lemma cleaned_console env paths w :
  console (cleaned env paths w)
  = console w ++ map (fun _ => "Error cleaning up file:") (List.filter (undeletable env) paths).
Proof.
  revert w. induction paths as [|q paths IH]; intros w; simpl; [rewrite app_nil_r; reflexivity|].
  rewrite IH. unfold undeletable at 2.
  destruct (deleteAsync_rejects env q); simpl; [|reflexivity].
  rewrite <- app_assoc. reflexivity.
Qed.

Lemma wrote_nothing f f' :
  downloadedFiles f' = downloadedFiles f →
  files (world f') = files (world f) →
  (∃ labels, console (world f') = console (world f) ++ labels) →
  wrote [] f f'.
Proof. intros Hd Hf Hc. unfold wrote. simpl. rewrite Hd, Hf, app_nil_r. auto. Qed.

Lemma wrote_one uri bytes f f' :
  downloadedFiles f' = downloadedFiles f ++ [uri] →
  files (world f') = <[uri := bytes]> (files (world f)) →
  (∃ labels, console (world f') = console (world f) ++ labels) →
  wrote [(uri, bytes)] f f'.
Proof. intros Hd Hf Hc. unfold wrote. simpl. rewrite Hd, Hf. auto. Qed.

Lemma wrote_trans saved1 saved2 f1 f2 f3 :
  wrote saved1 f1 f2 → wrote saved2 f2 f3 → wrote (saved1 ++ saved2) f1 f3.
Proof.
  intros (Hd1 & Hf1 & l1 & Hc1) (Hd2 & Hf2 & l2 & Hc2). unfold wrote.
  rewrite Hd2, Hd1, Hf2, Hf1, Hc2, Hc1, map_app, with_files_app, <- !app_assoc. eauto.
Qed.

Lemma no_labels (l l' : list string) : l' = l → ∃ labels, l' = l ++ labels.
Proof. intros ->. exists []. rewrite app_nil_r. reflexivity. Qed.

Lemma one_label (l l' : list string) label : l' = l ++ [label] → ∃ labels, l' = l ++ labels.
Proof. intros ->. eauto. Qed.

Lemma downloadSong_lyrics_block env song d f :
  let run := downloadSong_lyrics env (songId_of song) song d f in
  wrote (block_saved (lyricsUri env (songId_of song)) (lyrics_block env song)) f (snd run)
  ∧ (continues (lyrics_block env song) = true ↔ ∃ d', fst run = Normal d').
Proof.
  cbv zeta. rewrite downloadSong_lyrics_run. unfold lyrics_block.
  destruct (truthy_string _).
  - cbv zeta. destruct (downloadAsync env _) as [?|bytes].
    + split; [apply wrote_nothing; try reflexivity; eapply one_label; reflexivity|].
      split; [discriminate|intros [? ?]; discriminate].
    + destruct (getInfoAsync_rejects env _).
      * split; [apply wrote_one; try reflexivity; eapply one_label; reflexivity|].
        split; [discriminate|intros [? ?]; discriminate].
      * split; [apply wrote_one; try reflexivity; apply no_labels; reflexivity|].
        split; eauto.
  - split; [apply wrote_nothing; try reflexivity; apply no_labels; reflexivity|]. split; eauto.
Qed.

Lemma downloadSong_notation_block env song options d f :
  let run := downloadSong_notation env (songId_of song) song options d f in
  wrote
    (block_saved (notationUri env (songId_of song) (the (DownloadableSong.notationUrl song)))
       (notation_block env song options)) f (snd run)
  ∧ (continues (notation_block env song options) = true ↔ ∃ d', fst run = Normal d').
Proof.
  cbv zeta. rewrite downloadSong_notation_run. unfold notation_block.
  destruct (_ && _).
  - cbv zeta. destruct (downloadAsync env _) as [?|bytes].
    + split; [apply wrote_nothing; try reflexivity; eapply one_label; reflexivity|].
      split; [discriminate|intros [? ?]; discriminate].
    + destruct (getInfoAsync_rejects env _).
      * split; [apply wrote_one; try reflexivity; eapply one_label; reflexivity|].
        split; [discriminate|intros [? ?]; discriminate].
      * split; [apply wrote_one; try reflexivity; apply no_labels; reflexivity|].
        split; eauto.
  - split; [apply wrote_nothing; try reflexivity; apply no_labels; reflexivity|]. split; eauto.
Qed.

Lemma downloadSong_audio_block env song options progressCallback d f :
  let run := downloadSong_audio env (songId_of song) song options progressCallback d f in
  wrote
    (block_saved (audioUri env (songId_of song) (the (DownloadableSong.audioUrl song)))
       (audio_block env song options)) f (snd run)
  ∧ (continues (audio_block env song options) = true ↔ ∃ d', fst run = Normal d').
Proof.
  cbv zeta. rewrite downloadSong_audio_run. unfold audio_block.
  destruct (_ && _).
  - cbv zeta. destruct (resumable_downloadAsync env _) as [?|[bytes|]].
    + split; [apply wrote_nothing; try reflexivity; eapply one_label; reflexivity|].
      split; [discriminate|intros [? ?]; discriminate].
    + destruct (getInfoAsync_rejects env _).
      * split; [apply wrote_one; try reflexivity; eapply one_label; reflexivity|].
        split; [discriminate|intros [? ?]; discriminate].
      * split; [apply wrote_one; try reflexivity; apply no_labels; reflexivity|].
        split; eauto.
    + split; [apply wrote_nothing; try reflexivity; eapply one_label; reflexivity|].
      split; [discriminate|intros [? ?]; discriminate].
  - split; [apply wrote_nothing; try reflexivity; apply no_labels; reflexivity|]. split; eauto.
Qed.

Lemma continues_false b r :
  (continues b = true ↔ ∃ d' : DownloadedSong.t, r = Normal d') →
  (∃ error, r = Throw error) → continues b = false.
Proof.
  intros H [error ->]. destruct (continues b); [|reflexivity].
  destruct (proj1 H eq_refl) as [? ?]. discriminate.
Qed.

Lemma continues_true b r (d : DownloadedSong.t) :
  (continues b = true ↔ ∃ d', r = Normal d') → r = Normal d → continues b = true.
Proof. intros H ->. apply H. eauto. Qed.

(** The frame in which the admitted part throws. *)
Lemma downloadSong_admitted_written env song options progressCallback f error f' :
  downloadSong_admitted env song options progressCallback f = (Throw error, f') →
  wrote (written env song options) f f'.
Proof.
  unfold downloadSong_admitted. fold (songId_of song). fold (download_record env song).
  unfold written. cbv zeta.
  intros H.
  apply bind_inv in H as [(u & f0 & H0 & H)|(e & H0 & _)];
    [|rewrite report_run in H0; discriminate].
  rewrite report_run in H0. injection H0 as _ <-.
  set (f0 := in_world f _) in *.
  assert (W0 : wrote [] f f0).
  { apply wrote_nothing; try reflexivity. apply no_labels. reflexivity. }
  destruct (downloadSong_lyrics_block env song (download_record env song) f0) as (W1 & C1).
  apply bind_inv in H as [(d1 & f1 & H1 & H)|(e & H1 & He)]; rewrite H1 in W1, C1;
    cbn [fst snd] in W1, C1.
  2:{ rewrite (continues_false _ _ C1) by eauto. rewrite app_nil_r.
      exact (wrote_trans _ _ _ _ _ W0 W1). }
  rewrite (continues_true _ _ _ C1 eq_refl).
  destruct (downloadSong_audio_block env song options progressCallback d1 f1) as (W2 & C2).
  apply bind_inv in H as [(d2 & f2 & H2 & H)|(e & H2 & He)]; rewrite H2 in W2, C2;
    cbn [fst snd] in W2, C2.
  2:{ rewrite (continues_false _ _ C2) by eauto. rewrite app_nil_r.
      apply (wrote_trans [] _ _ _ _ W0). exact (wrote_trans _ _ _ _ _ W1 W2). }
  rewrite (continues_true _ _ _ C2 eq_refl).
  destruct (downloadSong_notation_block env song options d2 f2) as (W3 & C3).
  apply bind_inv in H as [(d3 & f3 & H3 & H)|(e & H3 & He)]; rewrite H3 in W3, C3;
    cbn [fst snd] in W3, C3.
  2:{ apply (wrote_trans [] _ _ _ _ W0). apply (wrote_trans _ _ _ _ _ W1).
      exact (wrote_trans _ _ _ _ _ W2 W3). }
  revert H. rewrite downloadSong_save_run.
  destruct (setItem_rejects env DOWNLOADED_SONGS); [|discriminate].
  intros H. injection H as _ <-.
  assert (W4 : wrote [] f3 (in_world f3 (after_listing env (world f3)))).
  { apply wrote_nothing; simpl; [reflexivity|apply after_listing_files|].
    unfold after_listing. destruct (getItem_rejects env DOWNLOADED_SONGS).
    - eapply one_label. reflexivity.
    - apply no_labels. reflexivity. }
  apply (wrote_trans [] _ _ _ _ W0). apply (wrote_trans _ _ _ _ _ W1).
  apply (wrote_trans _ _ _ _ _ W2).
  rewrite <- (app_nil_r (block_saved _ (notation_block env song options))).
  exact (wrote_trans _ _ _ _ _ W3 W4).
Qed.

Lemma after_listing_console env w :
  ∃ labels, console (after_listing env w) = console w ++ labels.
Proof.
  unfold after_listing. destruct (getItem_rejects env DOWNLOADED_SONGS).
  - eapply one_label. reflexivity.
  - apply no_labels. reflexivity.
Qed.

Lemma wrote_listed env f :
  wrote [] f (in_world f (after_listing env (world f))).
Proof.
  apply wrote_nothing; simpl; [reflexivity|apply after_listing_files|apply after_listing_console].
Qed.

(** The frame in which the [try] block throws, for a song that is not in
    the manifest. *)
Lemma downloadSong_try_written env song options progressCallback w error f :
  find (has_id (songId_of song)) (listed env w) = None →
  downloadSong_try env (Some song) options progressCallback (new_frame w) = (Throw error, f) →
  wrote (if passes_checks env song options w then written env song options else [])
    (new_frame w) f.
Proof.
  intros Hfind. rewrite downloadSong_try_run. unfold passes_checks, connected.
  assert (W0 : wrote [] (new_frame w) (new_frame w)).
  { apply wrote_nothing; try reflexivity. apply no_labels. reflexivity. }
  destruct (valid song); simpl; [|intros H; injection H as _ <-; exact W0].
  destruct (getNetworkStateAsync env) as [?|netInfo]; [intros H; injection H as _ <-; exact W0|].
  destruct (truthy_bool (NetworkState.isConnected netInfo)); simpl;
    [|intros H; injection H as _ <-; exact W0].
  apply not_listed in Hfind. rewrite Hfind.
  destruct (getItem_rejects env DOWNLOAD_SETTINGS).
  { intros H; injection H as _ <-. apply (wrote_listed env (new_frame w)). }
  assert (W1 : wrote [] (new_frame w)
                 (in_world (new_frame w) (after_listing env (after_listing env w)))).
  { apply (wrote_trans [] [] _ _ _ (wrote_listed env (new_frame w))).
    apply (wrote_listed env (in_world (new_frame w) (after_listing env w))). }
  destruct (exceeds _ _ _); simpl; [intros H; injection H as _ <-; exact W1|].
  intros H. apply downloadSong_admitted_written in H.
  exact (wrote_trans [] _ _ _ _ W1 H).
Qed.

Lemma written_NoDup env song options : NoDup (map fst (written env song options)).
Proof.
  unfold written. cbv zeta.
  pose proof (lyricsUri_audioUri env (songId_of song) (songId_of song)
                (the (DownloadableSong.audioUrl song))) as H12.
  pose proof (lyricsUri_notationUri env (songId_of song) (songId_of song)
                (the (DownloadableSong.notationUrl song))) as H13.
  pose proof (audioUri_notationUri env (songId_of song) (songId_of song)
                (the (DownloadableSong.audioUrl song))
                (the (DownloadableSong.notationUrl song))) as H23.
  destruct (lyrics_block env song), (audio_block env song options),
    (notation_block env song options); simpl;
    repeat (apply NoDup_cons; split;
            [rewrite ?elem_of_cons, elem_of_nil; intuition congruence|]);
    apply NoDup_nil; exact I.
Qed.

(** C1, as the code has it.  When the id is not in the manifest and some
    requested artifact's transfer fails, [downloadSong] returns [null] and
    leaves the manifest as it was.  The files it had saved when it stopped
    are deleted as far as their deletion does not itself fail: such a file
    is gone when its deletion is accepted, and is still there, with the
    bytes that were saved, when its deletion is rejected.  No path other
    than the three paths of the song is touched.
    ["Error downloading song:"] is logged, and after it
    ["Error cleaning up file:"] once for every saved file that could not be
    deleted; nothing is thrown.  A callback that was passed is given, as its
    last event, a failed event with an error message. *)
Theorem downloadSong_transfer_failure env song options progressCallback w :
  find (has_id (songId_of song)) (listed env w) = None →
  transfer_fails env song options = true →
  let r := downloadSong env (Some song) options progressCallback w in
  let saved := if passes_checks env song options w then written env song options else [] in
  fst r = Normal None
  ∧ downloaded_songs (snd r) = downloaded_songs w
  ∧ (∀ p bytes, (p, bytes) ∈ saved →
                files (snd r) !! p = if undeletable env p then Some bytes else None)
  ∧ (∀ p, p ∉ own_paths env song → files (snd r) !! p = files w !! p)
  ∧ (∃ earlier,
       console (snd r)
       = console w ++ earlier ++ ["Error downloading song:"]
         ++ map (fun _ => "Error cleaning up file:")
              (List.filter (undeletable env) (map fst saved)))
  ∧ (progressCallback = true →
     ∃ msg, last (events (snd r))
            = Some (DownloadProgress.mk (DownloadableSong.id song) 0 failed (Some msg))).
Proof.
  intros Hfind Hfails r saved.
  assert (Htry : ∃ error f,
             downloadSong_try env (Some song) options progressCallback (new_frame w)
             = (Throw error, f)
             ∧ grows (new_frame w) f).
  { rewrite downloadSong_try_run.
    destruct (valid song); simpl; [|eexists _, _; split; [reflexivity|apply grows_refl]].
    destruct (getNetworkStateAsync env) as [?|netInfo];
      [eexists _, _; split; [reflexivity|apply grows_refl]|].
    destruct (negb _); [eexists _, _; split; [reflexivity|apply grows_refl]|].
    pose proof Hfind as Hex. apply not_listed in Hex. rewrite Hex.
    destruct (getItem_rejects env DOWNLOAD_SETTINGS);
      [eexists _, _; split; [reflexivity|apply (grows_after_listing env (new_frame w))]|].
    assert (G : grows (new_frame w)
                  (in_world (new_frame w) (after_listing env (after_listing env w)))).
    { apply grows_same_files; simpl.
      - rewrite !after_listing_songs; reflexivity.
      - rewrite !after_listing_settings; reflexivity.
      - rewrite !after_listing_files; reflexivity. }
    destruct (exceeds _ _ _); [eexists _, _; split; [reflexivity|exact G]|].
    destruct (downloadSong_admitted_fails env song options progressCallback
                (in_world (new_frame w) (after_listing env (after_listing env w))) Hfails)
      as (error & Herr).
    destruct (downloadSong_admitted env song options progressCallback _) as [r' f'] eqn:Hrun.
    simpl in Herr. subst r'. exists error, f'. split; [reflexivity|].
    apply downloadSong_admitted_post in Hrun. simpl in Hrun.
    eapply grows_trans; [exact G|exact Hrun]. }
  destruct Htry as (error & f & Htry & (Gsongs & _ & _ & Gfiles)).
  pose proof (downloadSong_try_written _ _ _ _ _ _ _ Hfind Htry) as (Wd & Wf & labels & Wc).
  pose proof (downloadSong_try_kept _ _ _ _ _ _ _ Htry) as (Kd & Kf & _).
  fold saved in Wd, Wf. simpl in Wd, Wf, Wc.
  assert (Hnd : NoDup (map fst saved)).
  { subst saved. destruct (passes_checks env song options w);
      [apply written_NoDup|apply NoDup_nil; exact I]. }
  subst r. rewrite downloadSong_run, Htry. simpl in *.
  split; [reflexivity|].
  split; [rewrite cleaned_songs; simpl; exact Gsongs|].
  split.
  { intros p bytes Hin. destruct (undeletable env p) eqn:Hu.
    - rewrite cleaned_files_kept by exact Hu. simpl. rewrite Wf.
      apply with_files_in; assumption.
    - apply cleaned_files_in.
      + unfold undeletable in Hu. destruct (deleteAsync_rejects env p); [discriminate|reflexivity].
      + rewrite Wd. apply list_elem_of_fmap. exists (p, bytes). auto. }
  split.
  { intros p Hp. rewrite cleaned_files_out by (intros Hin; apply Hp, Kd, Hin). simpl.
    apply Kf, Hp. }
  split.
  { exists labels. rewrite cleaned_console. simpl. rewrite Wc, Wd, <- !app_assoc. reflexivity. }
  intros ->. exists (message_or "Download failed" error).
  unfold failure_report. rewrite last_snoc. reflexivity.
Qed.

(** Song C with audio: the lyrics are saved, the audio transfer breaks, and
    the lyrics file is deleted again. *)
Lemma downloadSong_transfer_failure_witness :
  find (has_id (songId_of song_C)) (listed env_online empty_world) = None
  ∧ transfer_fails env_online song_C with_audio = true
  ∧ fst (downloadSong env_online (Some song_C) with_audio true empty_world) = Normal None
  ∧ downloaded_songs (snd (downloadSong env_online (Some song_C) with_audio true empty_world))
    = None
  ∧ files (snd (downloadSong env_online (Some song_C) with_audio true empty_world))
    !! lyricsUri env_online "C" = None.
Proof.
  destruct (downloadSong_transfer_failure env_online song_C with_audio true empty_world
              eq_refl eq_refl) as (Hnull & Hsongs & Hsaved & _).
  split; [reflexivity|]. split; [reflexivity|]. split; [exact Hnull|]. split; [exact Hsongs|].
  apply (Hsaved (lyricsUri env_online "C") 40). vm_compute. left.
Defined.

(** C1 as stated fails: with the same song C, when deleting files fails, the
    call still returns [null], and the lyrics file it wrote is still there. *)
Lemma cleanup_is_best_effort :
  find (has_id (songId_of song_C)) (listed env_locked empty_world) = None
  ∧ transfer_fails env_locked song_C with_audio = true
  ∧ files empty_world !! lyricsUri env_locked "C" = None
  ∧ fst (downloadSong env_locked (Some song_C) with_audio true empty_world) = Normal None
  ∧ files (snd (downloadSong env_locked (Some song_C) with_audio true empty_world))
    !! lyricsUri env_locked "C" = Some 40.
Proof. repeat split; vm_compute; reflexivity. Qed.
